(** * event_orbbec_sync: the synchronizer core and its channels

    A shallow embedding of [sync_processor.py] (class [SensorSynchronizer]),
    of the trigger slicing and the slice push of [prophesee.py]
    ([PropheseeCamera.start_loop]) and of the worker loops of [main.py]
    ([orbbec_worker], [sync_processor_worker]), followed by the properties
    of the specification that can be settled on them and by further
    properties of the code.

    Conventions.
    - Integers are [Z]; timestamps are microseconds. (The timestamps of the
      slices reach [sync] as numpy [int64] values; they are taken well inside
      the 64-bit range, where numpy and Python integers agree.)
    - A function that may raise returns a [result]; the exceptions are the
      ones the interpreter would raise at that place.
    - The float arithmetic of the drift correction is modelled with the
      binary64 specification of the Standard Library ([SpecFloat]), not with
      rationals.
    - [print] appends to a trace of [Event]s. *)

From Stdlib Require Import ZArith SpecFloat DecimalNat DecimalString.
From Stdlib Require Import Ascii String.
From stdpp Require Import base tactics option list sorting strings gmap.

Local Open Scope Z_scope.

(** ** Python runtime: exceptions *)

Inductive exn : Set :=
  | IndexError       (* indexing or popping an empty deque *)
  | TypeError        (* arithmetic on [None], [range(None)] *)
  | OverflowError    (* int too large for a float, [int(inf)] *)
  | ValueError.      (* [int(nan)] *)

Inductive result (A : Type) : Type :=
  | Ok (a : A)
  | Raise (e : exn).
Arguments Ok {A} a.
Arguments Raise {A} e.

#[global] Instance result_ret : MRet result := fun _ a => Ok a.
#[global] Instance result_bind : MBind result := fun _ _ f m =>
  match m with
  | Ok a => f a
  | Raise e => Raise e
  end.

Definition is_Ok {A} (r : result A) : Prop := exists a, r = Ok a.

(** ** Python runtime: [collections.deque]

    The left end of the deque is the head of the list. *)
Module deque.
Section ops.
Context {A : Type}.

(** [d.append(x)] on a [deque(maxlen=maxlen)]: when the deque is full the
    element at the opposite end is discarded. *)
Definition append (maxlen : nat) (d : list A) (x : A) : list A :=
  if decide (length d < maxlen)%nat then d ++ [x] else drop 1 (d ++ [x]).

(** [d.popleft()] *)
Definition popleft (d : list A) : result (A * list A) :=
  match d with
  | [] => Raise IndexError
  | x :: d' => Ok (x, d')
  end.

(** [d[0]] *)
Definition first (d : list A) : result A :=
  match d with
  | [] => Raise IndexError
  | x :: _ => Ok x
  end.

(** [d[-1]] *)
Definition final (d : list A) : result A :=
  match last d with
  | None => Raise IndexError
  | Some x => Ok x
  end.

(** [for _ in range(n): d.popleft()] *)
Fixpoint popleft_n (n : nat) (d : list A) : result (list A) :=
  match n with
  | O => Ok d
  | S n' => p ← popleft d; popleft_n n' p.2
  end.

(** [enumerate(d)] *)
Fixpoint enumerate_from (i : nat) (d : list A) : list (nat * A) :=
  match d with
  | [] => []
  | x :: d' => (i, x) :: enumerate_from (S i) d'
  end.
Definition enumerate (d : list A) : list (nat * A) := enumerate_from 0 d.
End ops.
End deque.

(** ** Python runtime: binary64 floats

  [float(n)], [x * y] and [int(x)] on IEEE 754 binary64 values, through
  [SpecFloat] at precision 53 and maximal exponent 1024. *)
Module pyfloat.
Definition prec : Z := 53.
Definition emax : Z := 1024.

(** The conversion of a Python integer in an int-by-float product: round to
    nearest even, [OverflowError] beyond the range of binary64. *)
Definition of_int (n : Z) : result spec_float :=
  match binary_normalize prec emax n 0 false with
  | S754_infinity _ => Raise OverflowError
  | f => Ok f
  end.

Definition mul (x y : spec_float) : spec_float := SFmul prec emax x y.

(** [int(x)]: truncation towards zero. *)
Definition to_int (x : spec_float) : result Z :=
  match x with
  | S754_zero _ => Ok 0
  | S754_infinity _ => Raise OverflowError
  | S754_nan => Raise ValueError
  | S754_finite s m e =>
      let mag := if decide (0 <= e) then Z.shiftl (Z.pos m) e
                 else Z.shiftr (Z.pos m) (- e) in
      Ok (if s then - mag else mag)
  end.

(** The literal [0.01]: the binary64 value nearest to 1/100,
    0x1.47ae147ae147bp-7. *)
Definition lit_0_01 : spec_float := S754_finite false 5764607523034235 (-59).
End pyfloat.

(** ** Data model ([sync_processor.py], [main.py], [prophesee.py]) *)

(** A numpy array, as the flat sequence of its entries. *)
Definition ndarray : Type := list Z.

(** The dict put on [slice_queue] by [PropheseeCamera.start_loop]. *)
Record EventSlice : Type := {
  event_volume : ndarray;
  start_ts : Z;
  end_ts : Z
}.

(** The dict put on [o_queue_sync] by [orbbec_worker]. [record] tests
    ['rgb' in matched_orb] and ['depth' in matched_orb], so the images are
    optional keys. *)
Record Frame : Type := {
  rgb : option ndarray;
  depth : option ndarray;
  rgb_ts : Z;
  depth_ts : Z
}.

(** [data_bundle] of [SensorSynchronizer.record]. *)
Record DataBundle : Type := {
  idx : nat;
  bundle_rgb : option ndarray;
  bundle_depth : option ndarray;
  bundle_event_volume : ndarray;
  bundle_start_ts : Z;
  bundle_end_ts : Z
}.

(** What the synchronizer prints, and [Matched], which is not printed (the
    call of [output_sync_info] is commented out in the source): [Matched]
    marks lines 132-135 of [sync], where the matched slice, the matched frame
    and [min_diff] are in hand. *)
Inductive Event : Type :=
  | PrintDelta (delta : Z)
  | Matched (matched_evs : EventSlice) (matched_orb : Frame) (min_diff : Z)
  | PrintOrbDropped
  | PrintMonitor (e_len o_len : nat) (drift_amount : Z) (samples : list Z)
  | PrintCritical.

(** ** [class SensorSynchronizer] *)
Module SensorSynchronizer.

(** The attributes that [sync_process] and [sync] read and write.
    [executor] is the queue of the thread pool: the bundles submitted so far,
    in submission order. *)
Record t : Type := mk {
  evs_buffer : list EventSlice;
  orb_buffer : list Frame;
  diff_samples : list Z;
  initial_delta_monitoring : option Z;
  delta_orb_to_evs : option Z;
  record_enabled : bool;
  output_directory : string;
  record_idx : nat;
  executor : list DataBundle
}.

(** Attributes assigned once in [__init__]. *)
Definition buffer_maxlen : nat := 100.
Definition sync_threshold_us : Z := 5000.
Definition warning_threshold_us : Z := 2000.
Definition drift_alpha : spec_float := pyfloat.lit_0_01.
Definition worker_count : nat := 8.

(** [__init__] *)
Definition init (record_enabled : bool) (output_directory : string) : t :=
  {| evs_buffer := []; orb_buffer := []; diff_samples := [];
     initial_delta_monitoring := None; delta_orb_to_evs := None;
     record_enabled := record_enabled; output_directory := output_directory;
     record_idx := 0; executor := [] |}.

Definition set_evs_buffer (b : list EventSlice) (s : t) : t :=
  mk b (orb_buffer s) (diff_samples s) (initial_delta_monitoring s)
     (delta_orb_to_evs s) (record_enabled s) (output_directory s)
     (record_idx s) (executor s).
Definition set_orb_buffer (b : list Frame) (s : t) : t :=
  mk (evs_buffer s) b (diff_samples s) (initial_delta_monitoring s)
     (delta_orb_to_evs s) (record_enabled s) (output_directory s)
     (record_idx s) (executor s).
Definition set_diff_samples (l : list Z) (s : t) : t :=
  mk (evs_buffer s) (orb_buffer s) l (initial_delta_monitoring s)
     (delta_orb_to_evs s) (record_enabled s) (output_directory s)
     (record_idx s) (executor s).
Definition set_initial_delta_monitoring (d : option Z) (s : t) : t :=
  mk (evs_buffer s) (orb_buffer s) (diff_samples s) d
     (delta_orb_to_evs s) (record_enabled s) (output_directory s)
     (record_idx s) (executor s).
Definition set_delta_orb_to_evs (d : option Z) (s : t) : t :=
  mk (evs_buffer s) (orb_buffer s) (diff_samples s) (initial_delta_monitoring s)
     d (record_enabled s) (output_directory s)
     (record_idx s) (executor s).
Definition set_recorder (i : nat) (q : list DataBundle) (s : t) : t :=
  mk (evs_buffer s) (orb_buffer s) (diff_samples s) (initial_delta_monitoring s)
     (delta_orb_to_evs s) (record_enabled s) (output_directory s) i q.

(** [record]: the bundle takes the current [record_idx], is submitted to the
    pool, and [record_idx] is incremented. *)
Definition record (matched_evs : EventSlice) (matched_orb : Frame) (s : t) : t :=
  let data_bundle :=
    {| idx := record_idx s;
       bundle_rgb := rgb matched_orb;
       bundle_depth := depth matched_orb;
       bundle_event_volume := event_volume matched_evs;
       bundle_start_ts := start_ts matched_evs;
       bundle_end_ts := end_ts matched_evs |} in
  set_recorder (S (record_idx s)) (executor s ++ [data_bundle]) s.

(** [min_diff] starts as [float('inf')] and is an integer afterwards. *)
Inductive ext : Set :=
  | Inf
  | Fin (d : Z).

(** [diff < min_diff] *)
Definition lt_ext (diff : Z) (min_diff : ext) : bool :=
  match min_diff with
  | Inf => true
  | Fin m => bool_decide (diff < m)
  end.

(** The body of the scan loop of [sync] (lines 121-128), on the pair
    [(best_match_idx, min_diff)]. *)
Definition scan_step (delta evs_ts : Z) (acc : option nat * ext)
    (p : nat * Frame) : option nat * ext :=
  let mapped_orb_ts := rgb_ts p.2 + delta in
  let diff := Z.abs (mapped_orb_ts - evs_ts) in
  if lt_ext diff acc.2 then (Some p.1, Fin diff) else acc.

(** Lines 118-128. *)
Definition scan (delta evs_ts : Z) (orb_buffer : list Frame) : option nat * ext :=
  foldl (scan_step delta evs_ts) (None, Inf) (deque.enumerate orb_buffer).

(** [int(current_error * self.drift_alpha)] *)
Definition drift_correction (current_error : Z) : result Z :=
  x ← pyfloat.of_int current_error;
  pyfloat.to_int (pyfloat.mul x drift_alpha).

(** [not d], for a deque [d] *)
Definition empty {A} (d : list A) : bool :=
  match d with
  | [] => true
  | _ => false
  end.

(** Lines 110-115: the offset in force for this call, seeded from the two
    front elements when it is still [None]. *)
Definition seed (evs_ts : Z) (s : t) : result (t * Z * list Event) :=
  match delta_orb_to_evs s with
  | None =>
      orb_data ← deque.first (orb_buffer s);
      let d := evs_ts - rgb_ts orb_data in
      Ok (set_initial_delta_monitoring (Some d) (set_delta_orb_to_evs (Some d) s),
          d, [PrintDelta d])
  | Some d => Ok (s, d, [])
  end.

(** Lines 131-148: the branch taken when [best_match_idx] is [n] and
    [min_diff] is [d < sync_threshold_us]. *)
Definition commit (evs_ts delta : Z) (n : nat) (d : Z) (s : t)
    : result (t * list Event) :=
  '(matched_evs, evs') ← deque.popleft (evs_buffer s);
  orb' ← deque.popleft_n n (orb_buffer s);
  '(matched_orb, orb'') ← deque.popleft orb';
  let current_error := evs_ts - (rgb_ts matched_orb + delta) in
  c ← drift_correction current_error;
  let s := set_evs_buffer evs' s in
  let s := set_orb_buffer orb'' s in
  let s := set_delta_orb_to_evs (Some (delta + c)) s in
  let s := set_diff_samples (diff_samples s ++ [d]) s in
  let s := if record_enabled s then record matched_evs matched_orb s else s in
  Ok (s, [Matched matched_evs matched_orb d]).

(** Lines 150-161: the [else] branch. *)
Definition evict (evs_ts delta : Z) (s : t) : result (t * list Event) :=
  oldest ← deque.first (orb_buffer s);
  newest ← deque.final (orb_buffer s);
  let mapped_oldest_orb_ts := rgb_ts oldest + delta in
  let mapped_newest_orb_ts := rgb_ts newest + delta in
  if bool_decide (evs_ts < mapped_oldest_orb_ts - sync_threshold_us) then
    p ← deque.popleft (evs_buffer s);
    Ok (set_evs_buffer p.2 s, [])
  else if bool_decide (evs_ts > mapped_newest_orb_ts + sync_threshold_us) then
    p ← deque.popleft (orb_buffer s);
    Ok (set_orb_buffer p.2 s, [PrintOrbDropped])
  else Ok (s, []).

(** [sync]. The test [best_match_idx != None and min_diff <
    sync_threshold_us] holds when the scan left an index and a finite
    [min_diff] below the threshold. *)
Definition sync (s : t) : result (t * list Event) :=
  if empty (evs_buffer s) || empty (orb_buffer s) then Ok (s, [])
  else
    evs_data ← deque.first (evs_buffer s);
    let evs_ts := start_ts evs_data in
    '(s, delta, out) ← seed evs_ts s;
    r ← match scan delta evs_ts (orb_buffer s) with
        | (Some n, Fin d) =>
            if bool_decide (d < sync_threshold_us) then commit evs_ts delta n d s
            else evict evs_ts delta s
        | _ => evict evs_ts delta s
        end;
    Ok (r.1, out ++ r.2).

(** [monitor_buffers]: the printed average and maximum are those of the
    samples carried by [PrintMonitor]; the samples are cleared. *)
Definition monitor_buffers (s : t) : t * list Event :=
  let e_len := length (evs_buffer s) in
  let o_len := length (orb_buffer s) in
  let drift_amount :=
    match initial_delta_monitoring s, delta_orb_to_evs s with
    | Some d0, Some d => d - d0
    | _, _ => 0
    end in
  (set_diff_samples [] s,
   PrintMonitor e_len o_len drift_amount (diff_samples s)
   :: if bool_decide (90 <= e_len)%nat || bool_decide (90 <= o_len)%nat
      then [PrintCritical] else []).

(** One iteration of the [while] loop of [sync_process]: what
    [get_nowait] returned on each queue ([None] for [Empty]) and whether the
    five seconds of the monitor have elapsed. *)
Record Tick : Type := {
  slice_in : option EventSlice;
  frame_in : option Frame;
  monitor_due : bool
}.

(** Lines 47-59: the two [get_nowait] and the appends to the buffers. *)
Definition pull (k : Tick) (s : t) : t :=
  let s := match slice_in k with
           | Some evs_data =>
               set_evs_buffer (deque.append buffer_maxlen (evs_buffer s) evs_data) s
           | None => s
           end in
  match frame_in k with
  | Some orb_data =>
      set_orb_buffer (deque.append buffer_maxlen (orb_buffer s) orb_data) s
  | None => s
  end.

(** Lines 46-71: one iteration of the loop. The sleep of an idle iteration
    changes nothing. *)
Definition iteration (k : Tick) (s : t) : result (t * list Event) :=
  let s := pull k s in
  '(s, out) ← (if bool_decide (0 < length (evs_buffer s))%nat
                  && bool_decide (0 < length (orb_buffer s))%nat
               then sync s else Ok (s, []));
  let '(s, out') := if monitor_due k then monitor_buffers s else (s, []) in
  Ok (s, out ++ out').

(** [sync_process], for the iterations run before [stop_event] is set. *)
Fixpoint sync_process (ticks : list Tick) (s : t) : result (t * list Event) :=
  match ticks with
  | [] => Ok (s, [])
  | k :: ticks' =>
      '(s, out) ← iteration k s;
      '(s, out') ← sync_process ticks' s;
      Ok (s, out ++ out')
  end.

End SensorSynchronizer.

(** ** [multiprocessing.Queue(maxsize)] between two processes

    The oldest item is the head of [items]. *)
Module Queue.

Record t (A : Type) : Type := mk {
  maxsize : nat;
  items : list A
}.
Arguments mk {A} maxsize items.
Arguments maxsize {A} _.
Arguments items {A} _.

Section ops.
Context {A : Type}.

(** [q.full()] *)
Definition full (q : t A) : bool := bool_decide (maxsize q <= length (items q))%nat.

(** [q.empty()] *)
Definition empty (q : t A) : bool := bool_decide (length (items q) = 0)%nat.

(** [q.get_nowait()]; [None] when it raises [Empty]. *)
Definition get_nowait (q : t A) : option (A * t A) :=
  match items q with
  | [] => None
  | x :: l => Some (x, mk (maxsize q) l)
  end.

(** [q.put(x)], that is [put(x, block=True, timeout=None)]: [None] when no
    slot is free, in which case the caller waits inside [put] until a
    consumer frees one. *)
Definition put (q : t A) (x : A) : option (t A) :=
  if full q then None else Some (mk (maxsize q) (items q ++ [x])).
End ops.
End Queue.

(** How far a producer got in one pass over its loop body: to the end, or
    suspended inside a blocking [put] (with the state reached there). *)
Inductive progress (S : Type) : Type :=
  | Done (s : S)
  | Blocked (s : S).
Arguments Done {S} s.
Arguments Blocked {S} s.

(** The two warnings of the producers. *)
Inductive Warning : Set :=
  | SliceQueueFull       (* "[WARNNING!!!] [Prophesee] Slice queue is full. Skipping this slice." *)
  | OrbbecSyncQueueFull. (* "[WARNING!!!] [Orbbec] orbbec sync queue is full. Dropping frame." *)

(** ** [PropheseeCamera.start_loop]: the push of a finished slice
    ([prophesee.py], lines 74-81) *)
Module PropheseeCamera.

Record t : Type := mk {
  slice_queue : Queue.t EventSlice;
  stdout : list Warning
}.

Definition push_slice (slice : EventSlice) (w : t) : progress t :=
  if negb (Queue.full (slice_queue w)) then
    match Queue.put (slice_queue w) slice with
    | Some q => Done (mk q (stdout w))
    | None => Blocked w
    end
  else Done (mk (slice_queue w) (stdout w ++ [SliceQueueFull])).

(** Successive pushes with no consumer in between; a blocked producer pushes
    nothing more. *)
Fixpoint push_slices (slices : list EventSlice) (w : t) : progress t :=
  match slices with
  | [] => Done w
  | x :: slices' =>
      match push_slice x w with
      | Done w' => push_slices slices' w'
      | Blocked w' => Blocked w'
      end
  end.

End PropheseeCamera.

(** ** [orbbec_worker]: one pass over the body of its loop ([main.py],
    lines 36-57) *)
Module OrbbecWorker.

(** What [get_frames] returned when [rgb is not None]. *)
Record Capture : Type := {
  c_rgb : ndarray;
  c_depth : ndarray;
  c_pc : option ndarray;
  o_c_ts : Z;
  o_d_ts : Z
}.

(** The dict put on [o_queue] (to the display). *)
Record DisplayFrame : Type := {
  d_rgb : ndarray;
  d_depth : ndarray;
  d_pc : option ndarray
}.

(** The dict put on [p_queue] by the event camera (to the display). *)
Record EventFrame : Type := {
  ef_frame : ndarray;
  ef_ts : Z
}.

(** [o_queue] and [o_queue_sync] are the parameters of [orbbec_worker].
    [p_queue] is not: the body names the module-level [p_queue], which is
    bound only in a process that ran [main.py] as [__main__]; [None] is the
    unbound name (a process started with [spawn]), where evaluating it
    raises [NameError]. *)
Record t : Type := mk {
  o_queue : Queue.t DisplayFrame;
  o_queue_sync : Queue.t Frame;
  p_queue : option (Queue.t EventFrame);
  stdout : list Warning
}.

(** [pc[::15]]: every fifteenth row of the point cloud, a row being one entry
    of the flat array here. *)
Fixpoint every_15th (pc : list Z) (skip : nat) : list Z :=
  match pc with
  | [] => []
  | x :: pc' =>
      match skip with
      | O => x :: every_15th pc' 14
      | S k => every_15th pc' k
      end
  end.

(** Lines 39-43: [if o_queue.full(): try: p_queue.get_nowait() except: pass].
    Both [NameError] and [Empty] are swallowed. *)
Definition make_room (w : t) : t :=
  if Queue.full (o_queue w) then
    match p_queue w with
    | None => w
    | Some q =>
        match Queue.get_nowait q with
        | Some (_, q') => mk (o_queue w) (o_queue_sync w) (Some q') (stdout w)
        | None => w
        end
    end
  else w.

(** Lines 44-45. *)
Definition warn_sync_full (w : t) : t :=
  if Queue.full (o_queue_sync w)
  then mk (o_queue w) (o_queue_sync w) (p_queue w) (stdout w ++ [OrbbecSyncQueueFull])
  else w.

Definition display_of (c : Capture) : DisplayFrame :=
  {| d_rgb := c_rgb c; d_depth := c_depth c;
     d_pc := (fun pc => every_15th pc 0) <$> c_pc c |}.

Definition frame_of (c : Capture) : Frame :=
  {| rgb := Some (c_rgb c); depth := Some (c_depth c);
     rgb_ts := o_c_ts c; depth_ts := o_d_ts c |}.

(** Lines 38-57, for a capture with [rgb is not None]. *)
Definition push_frame (c : Capture) (w : t) : progress t :=
  let w := make_room w in
  let w := warn_sync_full w in
  match Queue.put (o_queue w) (display_of c) with
  | None => Blocked w
  | Some q =>
      let w := mk q (o_queue_sync w) (p_queue w) (stdout w) in
      match Queue.put (o_queue_sync w) (frame_of c) with
      | None => Blocked w
      | Some q' => Done (mk (o_queue w) q' (p_queue w) (stdout w))
      end
  end.

End OrbbecWorker.

(** ** [SensorSynchronizer._async_write_task] and the thread pool *)
Module Persistence.

(** What a file holds once written. *)
Inductive Artifact : Type :=
  | H5 (events : ndarray) (start_ts end_ts : Z)  (* dataset 'events', attrs *)
  | Jpeg (img : ndarray)
  | Png (img : ndarray)
  | H5Partial (events : option ndarray) (start_ts : option Z).
                                  (* a container closed by an exception *)

Fixpoint zeros (n : nat) : string :=
  match n with
  | O => ""
  | S n' => String "0"%char (zeros n')
  end.

(** [f"{n:06d}"] for [n >= 0]: the decimal digits, padded with zeros on the
    left to six characters. *)
Definition fmt06 (n : nat) : string :=
  let digits := NilEmpty.string_of_uint (Nat.to_uint n) in
  zeros (6 - String.length digits) +:+ digits.

(** [output_directory / "event" / f"{idx_str}.h5"] and the two files under
    [output_directory / "frame"]. *)
Definition event_filename (dir : string) (n : nat) : string :=
  dir +:+ "/event/" +:+ fmt06 n +:+ ".h5".
Definition rgb_filename (dir : string) (n : nat) : string :=
  dir +:+ "/frame/" +:+ fmt06 n +:+ "_rgb.jpg".
Definition depth_filename (dir : string) (n : nat) : string :=
  dir +:+ "/frame/" +:+ fmt06 n +:+ "_depth.png".

(** The writes of the body of the [try] when every one of them is done, in
    order. *)
Definition attempts (dir : string) (b : DataBundle) : list (string * Artifact) :=
  (event_filename dir (idx b),
   H5 (bundle_event_volume b) (bundle_start_ts b) (bundle_end_ts b))
  :: match bundle_rgb b with
     | Some img => [(rgb_filename dir (idx b), Jpeg img)]
     | None => []
     end
  ++ match bundle_depth b with
     | Some img => [(depth_filename dir (idx b), Png img)]
     | None => []
     end.

(** How the statement [with h5py.File(event_filename, 'w') as h5f: ...] of
    lines 235-238 can end. [h5py.File] creates the file before the block
    runs, and the file is closed when an exception leaves the block: it then
    holds what the block had written. *)
Inductive H5Outcome : Set :=
  | H5Written          (* the block runs to its end *)
  | H5OpenRaises       (* [h5py.File] raises: no file is created *)
  | H5DatasetRaises    (* [create_dataset] raises *)
  | H5StartRaises      (* [h5f.attrs['start_ts'] = ...] raises *)
  | H5EndRaises.       (* [h5f.attrs['end_ts'] = ...] raises *)

(** How a call of [cv2.imwrite] can end. Its result is not looked at by the
    task: a call that returns [False] has written nothing and raises
    nothing. *)
Inductive ImwriteOutcome : Set :=
  | ImWritten          (* returns [True] *)
  | ImReturnsFalse     (* returns [False] *)
  | ImRaises.          (* raises [cv2.error] *)

(** The file system and the two libraries, as far as a task sees them: how
    the write to each path ends. *)
Record Disk : Type := {
  h5_outcome : string -> H5Outcome;
  imwrite_outcome : string -> ImwriteOutcome
}.

(** A statement of the [try] block: the writes it leaves, and whether it
    raised. *)
Definition Stmt : Type := list (string * Artifact) * bool.

(** Two statements in sequence: the second runs unless the first raised. *)
Definition then_ (c1 c2 : Stmt) : Stmt :=
  if c1.2 then c1 else (c1.1 ++ c2.1, c2.2).

(** Lines 235-238. *)
Definition with_h5 (disk : Disk) (path : string) (b : DataBundle) : Stmt :=
  match h5_outcome disk path with
  | H5Written =>
      ([(path, H5 (bundle_event_volume b) (bundle_start_ts b) (bundle_end_ts b))],
       false)
  | H5OpenRaises => ([], true)
  | H5DatasetRaises => ([(path, H5Partial None None)], true)
  | H5StartRaises => ([(path, H5Partial (Some (bundle_event_volume b)) None)], true)
  | H5EndRaises =>
      ([(path, H5Partial (Some (bundle_event_volume b)) (Some (bundle_start_ts b)))],
       true)
  end.

(** Lines 240-241 and 243-244:
    [if bundle[...] is not None: cv2.imwrite(path, bundle[...], ...)]. *)
Definition imwrite (disk : Disk) (path : string) (img : option Artifact) : Stmt :=
  match img with
  | None => ([], false)
  | Some a =>
      match imwrite_outcome disk path with
      | ImWritten => ([(path, a)], false)
      | ImReturnsFalse => ([], false)
      | ImRaises => ([], true)
      end
  end.

(** What a task leaves: its writes, and the index in the line
    "[ASYNC RECORD ERROR] Task ... failed" if the [except] clause printed
    it. *)
Record TaskResult : Type := {
  writes : list (string * Artifact);
  printed_error : option nat
}.

(** [_async_write_task] *)
Definition async_write_task (disk : Disk) (dir : string) (b : DataBundle)
    : TaskResult :=
  let body :=
    then_ (with_h5 disk (event_filename dir (idx b)) b)
      (then_ (imwrite disk (rgb_filename dir (idx b)) (Jpeg <$> bundle_rgb b))
             (imwrite disk (depth_filename dir (idx b)) (Png <$> bundle_depth b))) in
  {| writes := body.1;
     printed_error := if body.2 then Some (idx b) else None |}.

(** The files after a sequence of writes. *)
Definition store (ws : list (string * Artifact)) : gmap string Artifact :=
  foldl (fun fs w => <[w.1 := w.2]> fs) ∅ ws.

(** The writes of the pool for the submitted [bundles], in the order in which
    the workers happen to perform them: any arrangement of the writes of the
    tasks (this covers every interleaving of every number of workers). *)
Definition pool_run_on (disk : Disk) (dir : string)
    (bundles : list DataBundle) (ws : list (string * Artifact)) : Prop :=
  ws ≡ₚ mjoin ((fun b => writes (async_write_task disk dir b)) <$> bundles).

(** The disk on which the writes to the paths that [fails] tells raise
    before anything is created ([h5py.File] cannot open the path,
    [cv2.imwrite] raises), and every other write is done. *)
Definition raising (fails : string -> bool) : Disk :=
  {| h5_outcome := fun path => if fails path then H5OpenRaises else H5Written;
     imwrite_outcome := fun path => if fails path then ImRaises else ImWritten |}.

(** The writes of the pool on such a disk. *)
Definition pool_run (dir : string) (fails : string -> bool)
    (bundles : list DataBundle) (ws : list (string * Artifact)) : Prop :=
  pool_run_on (raising fails) dir bundles ws.

End Persistence.

(** ** [PropheseeCamera.start_loop]: cutting the event stream at the triggers
    ([prophesee.py], lines 43-96)

    The slices carry their events as records here (the synchronizer never
    looks inside [event_volume]), and [start_ts] as the code has it: the value
    of [self.last_trigger_ts], which is [None] until the first trigger. *)
Module Slicer.

(** An entry of the array [evs]: a change-detection event. *)
Record CDEvent : Type := {
  cd_x : Z;
  cd_y : Z;
  cd_p : Z;
  cd_t : Z
}.

(** An entry of [get_ext_trigger_events()]; [p = 1] is a rising edge. *)
Record Trigger : Type := {
  trig_p : Z;
  trig_t : Z;
  trig_id : Z
}.

(** The dict put on [slice_queue]. *)
Record Slice : Type := {
  event_volume : list CDEvent;
  start_ts : option Z;
  end_ts : Z
}.

(** The attributes that the loop reads and writes, and the queue. *)
Record t : Type := mk {
  event_buffer : list (list CDEvent);
  last_trigger_ts : option Z;
  active : bool;
  slice_queue : Queue.t Slice
}.

(** [__init__] (lines 29-32), with the queue that [start_loop] is given. *)
Definition init (slice_queue : Queue.t Slice) : t :=
  mk [] None false slice_queue.

(** What the loop prints, and [Put], which marks [slice_queue.put]. *)
Inductive Output : Type :=
  | PrintFirstTrigger (ts : Z)
  | Put (slice : Slice)
  | PrintSliceSkipped.

(** [a.size > 0], [np.any(mask)] for the mask that selected [a], and
    [len(l) > 0] *)
Definition nonempty {A} (a : list A) : bool :=
  match a with
  | [] => false
  | _ => true
  end.

(** [evs[evs['t'] > ts]] *)
Definition later (ts : Z) (evs : list CDEvent) : list CDEvent :=
  filter (fun e => ts < cd_t e) evs.

(** [evs[evs['t'] <= ts]] *)
Definition upto (ts : Z) (evs : list CDEvent) : list CDEvent :=
  filter (fun e => cd_t e <= ts) evs.

(** Lines 52-63: the first rising edge. *)
Definition first_activation (evs : list CDEvent) (current_trig_ts : Z) (c : t)
    : t * list Output :=
  let buffer :=
    if nonempty evs then
      let post_trigger_evs := later current_trig_ts evs in
      if nonempty post_trigger_evs then event_buffer c ++ [post_trigger_evs]
      else event_buffer c
    else event_buffer c in
  (mk buffer (Some current_trig_ts) true (slice_queue c),
   [PrintFirstTrigger current_trig_ts]).

(** Lines 64-87: a later rising edge. *)
Definition later_trigger (evs : list CDEvent) (current_trig_ts : Z) (c : t)
    : progress (t * list Output) :=
  let pre := upto current_trig_ts evs in
  let buffer := if nonempty pre then event_buffer c ++ [pre] else event_buffer c in
  let post_trigger_evs := later current_trig_ts evs in
  let buffer' := if nonempty post_trigger_evs then [post_trigger_evs] else [] in
  if nonempty buffer then
    let merged_evs := mjoin buffer in
    if negb (Queue.full (slice_queue c)) then
      let slice := {| event_volume := merged_evs;
                      start_ts := last_trigger_ts c;
                      end_ts := current_trig_ts |} in
      match Queue.put (slice_queue c) slice with
      | Some q => Done (mk buffer' (Some current_trig_ts) (active c) q, [Put slice])
      | None => Blocked (mk buffer (last_trigger_ts c) (active c) (slice_queue c), [])
      end
    else
      Done (mk buffer' (Some current_trig_ts) (active c) (slice_queue c),
            [PrintSliceSkipped])
  else Done (mk buffer' (Some current_trig_ts) (active c) (slice_queue c), []).

(** Lines 51-87: the body of [for trig in rising_edges]. *)
Definition on_rising_edge (evs : list CDEvent) (current_trig_ts : Z) (c : t)
    : progress (t * list Output) :=
  if negb (active c) then Done (first_activation evs current_trig_ts c)
  else later_trigger evs current_trig_ts c.

(** Lines 50-87: [for trig in rising_edges]. *)
Fixpoint on_rising_edges (evs : list CDEvent) (edges : list Z) (c : t)
    : progress (t * list Output) :=
  match edges with
  | [] => Done (c, [])
  | ts :: edges' =>
      match on_rising_edge evs ts c with
      | Done (c1, out1) =>
          match on_rising_edges evs edges' c1 with
          | Done (c2, out2) => Done (c2, out1 ++ out2)
          | Blocked r => Blocked (r.1, out1 ++ r.2)
          end
      | Blocked r => Blocked r
      end
  end.

(** One batch of the iterator: the events and the trigger events read with
    them. *)
Record Batch : Type := {
  evs : list CDEvent;
  triggers : list Trigger
}.

(** [triggers[triggers['p'] == 1]], by timestamp *)
Definition rising_edges (triggers : list Trigger) : list Z :=
  trig_t <$> filter (fun tr => trig_p tr = 1) triggers.

(** Lines 47-93: the slicing done for one batch. *)
Definition process_batch (b : Batch) (c : t) : progress (t * list Output) :=
  if nonempty (triggers b) then on_rising_edges (evs b) (rising_edges (triggers b)) c
  else if active c && nonempty (evs b) then
    Done (mk (event_buffer c ++ [evs b]) (last_trigger_ts c) (active c) (slice_queue c), [])
  else Done (c, []).

(** The consumer of the queue runs in another process: [taken] is the number
    of slices it took since the previous batch. *)
Record Step : Type := {
  taken : nat;
  batch : Batch
}.

Definition consumed (n : nat) (c : t) : t :=
  mk (event_buffer c) (last_trigger_ts c) (active c)
     (Queue.mk (Queue.maxsize (slice_queue c)) (drop n (Queue.items (slice_queue c)))).

(** [start_loop], for the batches read before [stop_event] is set. *)
Fixpoint start_loop (steps : list Step) (c : t) : progress (t * list Output) :=
  match steps with
  | [] => Done (c, [])
  | st :: steps' =>
      match process_batch (batch st) (consumed (taken st) c) with
      | Done (c1, out1) =>
          match start_loop steps' c1 with
          | Done (c2, out2) => Done (c2, out1 ++ out2)
          | Blocked r => Blocked (r.1, out1 ++ r.2)
          end
      | Blocked r => Blocked r
      end
  end.

End Slicer.

(** ** [orbbec_worker] and [sync_processor_worker] ([main.py]) *)
Module Main.

(** Lines 35-57 of [orbbec_worker]: the loop, for the results of
    [get_frames] obtained before [stop_event] is set ([None] when [rgb] is
    [None]). With [polled] the display timer has emptied [o_queue] before
    each capture ([poll_queue], lines 273-279); the sync queue has no
    consumer. *)
Definition poll_display (w : OrbbecWorker.t) : OrbbecWorker.t :=
  OrbbecWorker.mk (Queue.mk (Queue.maxsize (OrbbecWorker.o_queue w)) [])
    (OrbbecWorker.o_queue_sync w) (OrbbecWorker.p_queue w) (OrbbecWorker.stdout w).

Fixpoint orbbec_worker (polled : bool) (captures : list (option OrbbecWorker.Capture))
    (w : OrbbecWorker.t) : progress OrbbecWorker.t :=
  match captures with
  | [] => Done w
  | capture :: captures' =>
      let w := if polled then poll_display w else w in
      match capture with
      | None => orbbec_worker polled captures' w
      | Some c =>
          match OrbbecWorker.push_frame c w with
          | Done w' => orbbec_worker polled captures' w'
          | Blocked w' => Blocked w'
          end
      end
  end.

(** The call [SensorSynchronizer(...)]: [__init__] has no default for
    [record_enabled] and [output_directory], so a call that does not pass
    them ([None] here) raises [TypeError] before the body runs. *)
Definition new_SensorSynchronizer (record_enabled : option bool)
    (output_directory : option string) : result SensorSynchronizer.t :=
  match record_enabled, output_directory with
  | Some r, Some d => Ok (SensorSynchronizer.init r d)
  | _, _ => Raise TypeError
  end.

(** What [sync_processor_worker] leaves: the prints of its [except] clause,
    [stop_event] after its [finally] clause, and the trace of the
    synchronizer if it ran. *)
Record WorkerResult : Type := {
  printed_error : option exn;
  stop_event : bool;
  ran : option (SensorSynchronizer.t * list Event)
}.

(** Lines 6-15: the call passes the two queues and [stop_event] only. *)
Definition sync_processor_worker (ticks : list SensorSynchronizer.Tick) : WorkerResult :=
  match new_SensorSynchronizer None None with
  | Ok synchronizer =>
      match SensorSynchronizer.sync_process ticks synchronizer with
      | Ok r => {| printed_error := None; stop_event := true; ran := Some r |}
      | Raise e => {| printed_error := Some e; stop_event := true; ran := None |}
      end
  | Raise e => {| printed_error := Some e; stop_event := true; ran := None |}
  end.

End Main.

(** * Vocabulary of the properties *)

Import SensorSynchronizer Persistence.

(** ** The scan and the three ways through [sync] *)

(** [abs(mapped_orb_ts - evs_ts)] for one frame. *)
Definition diff_of (delta evs_ts : Z) (orb : Frame) : Z :=
  Z.abs (rgb_ts orb + delta - evs_ts).

(** [n] is the first index of [buf] at which [diff_of] is least, and [d] is
    that least value. *)
Definition first_argmin (delta evs_ts : Z) (buf : list Frame) (n : nat) (d : Z)
    : Prop :=
  (exists orb, buf !! n = Some orb /\ diff_of delta evs_ts orb = d)
  /\ (forall j orb, buf !! j = Some orb -> d <= diff_of delta evs_ts orb)
  /\ (forall j orb, (j < n)%nat -> buf !! j = Some orb -> d < diff_of delta evs_ts orb).

(** The check, for the error [k - 4999], that [drift_correction] returns the
    quotient by 100 truncated towards zero. *)
Definition drift_correction_agrees (k : nat) : bool :=
  let e := Z.of_nat k - 4999 in
  match drift_correction e with
  | Ok c => Z.eqb c (e `quot` 100)
  | Raise _ => false
  end.

(** The offset with which [sync] maps the frames: the stored one, or the one
    seeded from the two front elements. *)
Definition offset_in_force (s : t) (evs_data : EventSlice) (orb_data : Frame) : Z :=
  default (start_ts evs_data - rgb_ts orb_data) (delta_orb_to_evs s).

(** The state after lines 110-115. *)
Definition seeded (s : t) (evs_data : EventSlice) (orb_data : Frame) : t :=
  match delta_orb_to_evs s with
  | None =>
      let d := start_ts evs_data - rgb_ts orb_data in
      set_initial_delta_monitoring (Some d) (set_delta_orb_to_evs (Some d) s)
  | Some _ => s
  end.

(** What lines 110-115 print. *)
Definition seed_out (s : t) (evs_data : EventSlice) (orb_data : Frame) : list Event :=
  match delta_orb_to_evs s with
  | None => [PrintDelta (start_ts evs_data - rgb_ts orb_data)]
  | Some _ => []
  end.

(** The state after lines 132-148, from the state [s] reached after seeding:
    [es] is the event buffer without its front, [rest] the frame buffer after
    the matched frame, [delta'] the corrected offset. *)
Definition committed (s : t) (matched_evs : EventSlice) (matched_orb : Frame)
    (es : list EventSlice) (rest : list Frame) (delta' d : Z) : t :=
  let s := set_evs_buffer es s in
  let s := set_orb_buffer rest s in
  let s := set_delta_orb_to_evs (Some delta') s in
  let s := set_diff_samples (diff_samples s ++ [d]) s in
  if record_enabled s then record matched_evs matched_orb s else s.

(** The state and the output of the [else] branch. *)
Definition evicted (evs_ts delta : Z) (s : t) (es : list EventSlice)
    (oldest newest : Frame) (fs : list Frame) : t * list Event :=
  if bool_decide (evs_ts < rgb_ts oldest + delta - sync_threshold_us) then
    (set_evs_buffer es s, [])
  else if bool_decide (evs_ts > rgb_ts newest + delta + sync_threshold_us) then
    (set_orb_buffer fs s, [PrintOrbDropped])
  else (s, []).

(** ** Traces and runs *)

(** The matched pairs of a trace, in the order in which they were matched. *)
Definition matched_pair (ev : Event) : option (EventSlice * Frame) :=
  match ev with
  | Matched matched_evs matched_orb _ => Some (matched_evs, matched_orb)
  | _ => None
  end.
Definition matched_pairs (out : list Event) : list (EventSlice * Frame) :=
  omap matched_pair out.

(** ** The quantities of the specification *)

(** The least of the differences [|mapped(F) - ts_E|] over the frames
    [F0 :: fs] of a non-empty buffer: the d* of the specification. *)
Definition min_mapped_diff (offset ts_E : Z) (F0 : Frame) (fs : list Frame) : Z :=
  foldr (fun orb m => Z.min (diff_of offset ts_E orb) m) (diff_of offset ts_E F0) fs.

(** Sample data: a slice and a frame with a given timestamp, and a
    synchronizer holding slices and frames with given timestamps. *)
Definition slice_at (ts : Z) : EventSlice :=
  {| event_volume := [ts]; start_ts := ts; end_ts := ts + 33000 |}.
Definition frame_at (ts : Z) : Frame :=
  {| rgb := Some [ts]; depth := Some [ts + 1]; rgb_ts := ts; depth_ts := ts |}.
Definition holding (delta : option Z) (evs_tss orb_tss : list Z) : t :=
  {| evs_buffer := slice_at <$> evs_tss; orb_buffer := frame_at <$> orb_tss;
     diff_samples := []; initial_delta_monitoring := delta;
     delta_orb_to_evs := delta; record_enabled := false;
     output_directory := "out"; record_idx := 0; executor := [] |}.

(** [sync_post s s' out]: the three ways through [sync], with the state and
    the output of each. *)
Inductive sync_post (s : t) : t -> list Event -> Prop :=
  | sync_idle :
      evs_buffer s = [] \/ orb_buffer s = [] ->
      sync_post s s []
  | sync_matched evs_data es orb_data fs n d orb_n :
      evs_buffer s = evs_data :: es ->
      orb_buffer s = orb_data :: fs ->
      let delta := offset_in_force s evs_data orb_data in
      first_argmin delta (start_ts evs_data) (orb_data :: fs) n d ->
      (orb_data :: fs) !! n = Some orb_n ->
      d < sync_threshold_us ->
      sync_post s
        (committed (seeded s evs_data orb_data) evs_data orb_n es
           (drop (S n) (orb_data :: fs))
           (delta + (start_ts evs_data - (rgb_ts orb_n + delta)) `quot` 100) d)
        (seed_out s evs_data orb_data ++ [Matched evs_data orb_n d])
  | sync_unmatched evs_data es orb_data fs n d :
      evs_buffer s = evs_data :: es ->
      orb_buffer s = orb_data :: fs ->
      let delta := offset_in_force s evs_data orb_data in
      first_argmin delta (start_ts evs_data) (orb_data :: fs) n d ->
      sync_threshold_us <= d ->
      let r := evicted (start_ts evs_data) delta (seeded s evs_data orb_data)
                 es orb_data (default orb_data (last fs)) fs in
      sync_post s r.1 (seed_out s evs_data orb_data ++ r.2).

(** The end of an iteration of [sync_process] (lines 66-68). *)
Definition monitored (k : Tick) (s : t) : t * list Event :=
  if monitor_due k then monitor_buffers s else (s, []).

(** The offsets printed when the offset is seeded (line 115). *)
Definition seeding (ev : Event) : option Z :=
  match ev with
  | PrintDelta d => Some d
  | _ => None
  end.
Definition seedings (out : list Event) : list Z := omap seeding out.

(** The update as the specification words it, [round(drift_alpha * e)] with
    [drift_alpha = 0.01]: the integer nearest to [e / 100] (a tie goes to the
    even neighbour, as with Python's [round]). *)
Definition round_hundredth (e : Z) : Z :=
  let q := e `div` 100 in
  let r := e `mod` 100 in
  if decide (r < 50) then q
  else if decide (50 < r) then q + 1
  else if Z.even q then q else q + 1.

(** The offset after a committed match, as the specification words it. *)
Definition claimed_offset (offset ts_E rgb_ts_F : Z) : Z :=
  offset + round_hundredth (ts_E - (rgb_ts_F + offset)).

(** An iteration that pulled the slice and the frame with the given
    timestamps, if any, and did not monitor. *)
Definition tick (slice frame : option Z) : Tick :=
  {| slice_in := slice_at <$> slice; frame_in := frame_at <$> frame;
     monitor_due := false |}.

(** What the loop pulled from each queue during a run, in order. *)
Definition slices_in (ticks : list Tick) : list EventSlice := omap slice_in ticks.
Definition frames_in (ticks : list Tick) : list Frame := omap frame_in ticks.

(** The matched slices and the matched frames of a trace, in match order. *)
Definition matched_slices (out : list Event) : list EventSlice := (matched_pairs out).*1.
Definition matched_frames (out : list Event) : list Frame := (matched_pairs out).*2.

(** Sequences of timestamps: every element is at most (is less than) every
    later one. *)
Definition nondecreasing (l : list Z) : Prop := StronglySorted Z.le l.
Definition increasing (l : list Z) : Prop := StronglySorted Z.lt l.

(** The bundle that [record] builds for a matched pair when [record_idx]
    is [i]. *)
Definition bundle_of (i : nat) (p : EventSlice * Frame) : DataBundle :=
  {| idx := i;
     bundle_rgb := rgb p.2;
     bundle_depth := depth p.2;
     bundle_event_volume := event_volume p.1;
     bundle_start_ts := start_ts p.1;
     bundle_end_ts := end_ts p.1 |}.

(** The bundles for successive pairs, from index [i] on. *)
Definition bundles_from (i : nat) (pairs : list (EventSlice * Frame)) : list DataBundle :=
  imap (fun k p => bundle_of (i + k) p) pairs.

(** A capture of [get_frames] with the given timestamp. *)
Definition capture_at (ts : Z) : OrbbecWorker.Capture :=
  {| OrbbecWorker.c_rgb := [ts]; OrbbecWorker.c_depth := [ts + 1];
     OrbbecWorker.c_pc := None;
     OrbbecWorker.o_c_ts := ts; OrbbecWorker.o_d_ts := ts |}.

(** A worker whose display queue is empty and whose sync queue holds the
    frames with the given timestamps. *)
Definition worker_with_sync_queue (tss : list Z) : OrbbecWorker.t :=
  OrbbecWorker.mk (Queue.mk 1 []) (Queue.mk 5 (frame_at <$> tss)) None [].

(** A worker whose display queue holds a stale frame, in a process where the
    name [p_queue] is bound to [p] (or unbound, for [None]). *)
Definition worker_with_stale_display (p : option (Queue.t OrbbecWorker.EventFrame))
    : OrbbecWorker.t :=
  OrbbecWorker.mk (Queue.mk 1 [OrbbecWorker.display_of (capture_at 0)])
    (Queue.mk 5 [frame_at 0]) p [].

(** ** Further vocabulary: samples, drift *)

(** The precision errors of the matches of a trace, in match order. *)
Definition min_diff_of (ev : Event) : option Z :=
  match ev with
  | Matched _ _ d => Some d
  | _ => None
  end.
Definition min_diffs (out : list Event) : list Z := omap min_diff_of out.

(** The samples that the monitor summarised in its prints, in order. *)
Definition reported_samples (ev : Event) : list Z :=
  match ev with
  | PrintMonitor _ _ _ samples => samples
  | _ => []
  end.
Definition reported (out : list Event) : list Z := out ≫= reported_samples.

(** An iteration that pulled the given slice and nothing else, without
    monitoring. *)
Definition slice_tick (evs_data : EventSlice) : Tick :=
  {| slice_in := Some evs_data; frame_in := None; monitor_due := false |}.

(** ** Further vocabulary: the slicer *)

(** The slices put on the queue, in order. *)
Definition put_slice (o : Slicer.Output) : option Slicer.Slice :=
  match o with
  | Slicer.Put slice => Some slice
  | _ => None
  end.
Definition put_slices (out : list Slicer.Output) : list Slicer.Slice := omap put_slice out.

(** The interval that a slice claims to cover. *)
Definition window_of (slice : Slicer.Slice) : option Z * Z :=
  (Slicer.start_ts slice, Slicer.end_ts slice).

(** The timestamps of the rising edges of a run, in the order in which the
    loop goes through them. *)
Definition rising_edges_of (steps : list Slicer.Step) : list Z :=
  steps ≫= (fun st => Slicer.rising_edges (Slicer.triggers (Slicer.batch st))).

(** The last trigger seen by an active slicer; [None] before the first
    trigger. *)
Definition cursor (c : Slicer.t) : option Z :=
  if Slicer.active c then Slicer.last_trigger_ts c else None.

(** The intervals between consecutive rising edges [rs], starting from the
    cursor [cur]: the first edge of an inactive slicer opens the first
    interval and closes none. *)
Fixpoint windows (cur : option Z) (rs : list Z) : list (option Z * Z) :=
  match rs with
  | [] => []
  | r :: rs' =>
      match cur with
      | None => windows (Some r) rs'
      | Some l => (Some l, r) :: windows (Some r) rs'
      end
  end.

(** The cursor after the edges [rs]. *)
Definition advance (cur : option Z) (rs : list Z) : option Z :=
  match last rs with
  | Some r => Some r
  | None => cur
  end.

(** What the slicer maintains: an active slicer has seen a trigger, the
    arrays in [event_buffer] are non-empty, and the queue holds at most
    [maxsize] items. *)
Definition slicer_inv (c : Slicer.t) : Prop :=
  (Slicer.active c = true -> is_Some (Slicer.last_trigger_ts c))
  /\ Forall (fun a => a <> []) (Slicer.event_buffer c)
  /\ (length (Queue.items (Slicer.slice_queue c))
      <= Queue.maxsize (Slicer.slice_queue c))%nat.

(** The events of a batch that the loop looks at: those of a batch with no
    trigger event, or with a rising edge among its trigger events. *)
Definition considered (b : Slicer.Batch) : list Slicer.CDEvent :=
  if Slicer.nonempty (Slicer.triggers b)
  then (if Slicer.nonempty (Slicer.rising_edges (Slicer.triggers b))
        then Slicer.evs b else [])
  else Slicer.evs b.

(** Sample events and trigger events. *)
Definition cd_at (ts : Z) : Slicer.CDEvent :=
  {| Slicer.cd_x := 1; Slicer.cd_y := 2; Slicer.cd_p := 1; Slicer.cd_t := ts |}.
Definition rising_at (ts : Z) : Slicer.Trigger :=
  {| Slicer.trig_p := 1; Slicer.trig_t := ts; Slicer.trig_id := 0 |}.
Definition falling_at (ts : Z) : Slicer.Trigger :=
  {| Slicer.trig_p := 0; Slicer.trig_t := ts; Slicer.trig_id := 0 |}.
Definition batch_of (tss : list Z) (triggers : list Slicer.Trigger) : Slicer.Step :=
  {| Slicer.taken := 0;
     Slicer.batch := {| Slicer.evs := cd_at <$> tss; Slicer.triggers := triggers |} |}.

(** A slice covers an interval that begins no later than it ends. *)
Definition well_formed (slice : Slicer.Slice) : Prop :=
  exists l, Slicer.start_ts slice = Some l /\ l <= Slicer.end_ts slice.

(** The interval of [s2] begins no earlier than the interval of [s1] ends. *)
Definition precedes (s1 s2 : Slicer.Slice) : Prop :=
  exists l, Slicer.start_ts s2 = Some l /\ Slicer.end_ts s1 <= l.

(** The same two relations on intervals. *)
Definition window_ok (w : option Z * Z) : Prop :=
  exists l, w.1 = Some l /\ l <= w.2.
Definition window_before (w1 w2 : option Z * Z) : Prop :=
  exists l, w2.1 = Some l /\ w1.2 <= l.

(** A slicer before its first trigger, with an empty queue of the size that
    [main.py] gives it. *)
Definition fresh_slicer : Slicer.t := Slicer.init (Queue.mk 5 []).

(** An active slicer that holds the events [tss] since the trigger [ts]. *)
Definition slicing_since (ts : Z) (tss : list Z) : Slicer.t :=
  Slicer.mk (if Slicer.nonempty tss then [cd_at <$> tss] else []) (Some ts) true
    (Queue.mk 5 []).

(** The lines of the periodic monitor. *)
Definition monitor_line (ev : Event) : Prop :=
  match ev with
  | PrintMonitor _ _ _ _ | PrintCritical => True
  | _ => False
  end.

(** An iteration that pulled a slice, if any, and no frame. *)
Definition slice_only_tick (slice : option Z) (due : bool) : Tick :=
  {| slice_in := slice_at <$> slice; frame_in := None; monitor_due := due |}.

(** A disk on which every write is done, except that [cv2.imwrite] returns
    [False] for the colour image of index 1 and [create_dataset] raises for
    the container of index 2. *)
Definition flaky_disk : Disk :=
  {| h5_outcome := fun path =>
       if String.eqb path "out/event/000002.h5" then H5DatasetRaises else H5Written;
     imwrite_outcome := fun path =>
       if String.eqb path "out/frame/000001_rgb.jpg" then ImReturnsFalse
       else ImWritten |}.

(** * Properties *)

(** ** The deque *)

Lemma enumerate_from_snoc {A} (d : list A) (x : A) (i : nat) :
  deque.enumerate_from i (d ++ [x])
  = deque.enumerate_from i d ++ [((i + length d)%nat, x)].
Proof.
  revert i. induction d as [|y d IH]; intros i; simpl.
  - by rewrite Nat.add_0_r.
  - rewrite IH, Nat.add_succ_r. done.
Qed.

Lemma popleft_n_drop {A} (n : nat) (d : list A) :
  (n <= length d)%nat -> deque.popleft_n n d = Ok (drop n d).
Proof.
  revert d. induction n as [|n IH]; intros d Hn; simpl.
  - by rewrite drop_0.
  - destruct d as [|x d]; simpl in *; [lia|]. apply IH. lia.
Qed.

Lemma popleft_lookup {A} (n : nat) (d : list A) (x : A) :
  d !! n = Some x ->
  deque.popleft (drop n d) = Ok (x, drop (S n) d).
Proof.
  revert d. induction n as [|n IH]; intros [|y d] H; simplify_eq/=; eauto.
Qed.

Lemma append_sublist {A} (maxlen : nat) (d : list A) (x : A) :
  deque.append maxlen d x `sublist_of` d ++ [x].
Proof. unfold deque.append. case_decide; [done | apply sublist_drop]. Qed.

(** ** The scan of the frame buffer *)

Lemma scan_snoc delta evs_ts buf orb :
  scan delta evs_ts (buf ++ [orb])
  = scan_step delta evs_ts (scan delta evs_ts buf) (length buf, orb).
Proof.
  unfold scan, deque.enumerate. by rewrite enumerate_from_snoc, foldl_app.
Qed.

Lemma scan_first_argmin delta evs_ts buf :
  buf <> [] ->
  exists n d, scan delta evs_ts buf = (Some n, Fin d)
              /\ first_argmin delta evs_ts buf n d.
Proof.
  induction buf as [|orb buf IH] using rev_ind; [done|]. intros _.
  rewrite scan_snoc. destruct buf as [|orb0 buf0] eqn:Hbuf.
  - (* the first frame always lowers [inf] *)
    exists 0%nat, (diff_of delta evs_ts orb). split; [done|].
    repeat split.
    + by exists orb.
    + intros [|j] orb' Hj; simplify_eq/=; done.
    + intros; lia.
  - rewrite <- Hbuf in *. destruct IH as (n & d & Hscan & (orbn & Hn & Hd) & Hle & Hlt).
    { by subst. }
    rewrite Hscan. unfold scan_step; simpl. fold (diff_of delta evs_ts orb).
    case_bool_decide as Hcmp.
    + (* strictly smaller: the new frame becomes the candidate *)
      exists (length buf), (diff_of delta evs_ts orb). split; [done|].
      repeat split.
      * exists orb. split; [|done]. by rewrite lookup_app_r, Nat.sub_diag.
      * intros j orb' Hj. apply lookup_app_Some in Hj as [Hj|[_ Hj]].
        -- specialize (Hle _ _ Hj). lia.
        -- apply list_lookup_singleton_Some in Hj as [_ <-]. done.
      * intros j orb' Hjn Hj. rewrite lookup_app_l in Hj by done.
        specialize (Hle _ _ Hj). lia.
    + (* not smaller: the earlier candidate is kept *)
      exists n, d. split; [done|].
      assert (n < length buf)%nat by (by eapply lookup_lt_Some).
      repeat split.
      * exists orbn. split; [|done]. by rewrite lookup_app_l.
      * intros j orb' Hj. apply lookup_app_Some in Hj as [Hj|[_ Hj]].
        -- by eapply Hle.
        -- apply list_lookup_singleton_Some in Hj as [_ <-]. lia.
      * intros j orb' Hjn Hj. rewrite lookup_app_l in Hj by lia. by eapply Hlt.
Qed.

(** ** The drift correction

    For the errors that a committed match can have (less than the threshold
    in absolute value) the float product truncated by [int] is the integer
    quotient by 100, truncated towards zero. The 9999 cases are computed. *)

Lemma drift_correction_table :
  forallb drift_correction_agrees (seq 0 (Z.to_nat 9999)) = true.
Proof. vm_compute. reflexivity. Qed.

Lemma drift_correction_small (e : Z) :
  Z.abs e < sync_threshold_us -> drift_correction e = Ok (e `quot` 100).
Proof.
  unfold sync_threshold_us. intros He%Z.abs_lt.
  pose proof drift_correction_table as Htab.
  rewrite forallb_forall in Htab.
  specialize (Htab (Z.to_nat (e + 4999))).
  unfold drift_correction_agrees in Htab.
  replace (Z.of_nat (Z.to_nat (e + 4999)) - 4999) with e in Htab by lia.
  destruct (drift_correction e) as [c|x].
  - f_equal. apply Z.eqb_eq, Htab, in_seq. lia.
  - exfalso. assert (false = true) as [=]. apply Htab, in_seq. lia.
Qed.

(** ** [sync], case by case *)

Lemma seed_eq s evs_data orb_data fs :
  orb_buffer s = orb_data :: fs ->
  seed (start_ts evs_data) s
  = Ok (seeded s evs_data orb_data, offset_in_force s evs_data orb_data,
        seed_out s evs_data orb_data).
Proof.
  intros Hf. unfold seed, seeded, offset_in_force, seed_out.
  destruct (delta_orb_to_evs s); simpl; [done|]. by rewrite Hf.
Qed.

Lemma seeded_evs_buffer s e f : evs_buffer (seeded s e f) = evs_buffer s.
Proof. unfold seeded. by destruct (delta_orb_to_evs s). Qed.
Lemma seeded_orb_buffer s e f : orb_buffer (seeded s e f) = orb_buffer s.
Proof. unfold seeded. by destruct (delta_orb_to_evs s). Qed.
Lemma seeded_recorder s e f :
  record_enabled (seeded s e f) = record_enabled s
  /\ output_directory (seeded s e f) = output_directory s
  /\ record_idx (seeded s e f) = record_idx s
  /\ executor (seeded s e f) = executor s.
Proof. unfold seeded. by destruct (delta_orb_to_evs s). Qed.
Lemma seeded_initial s e f :
  initial_delta_monitoring (seeded s e f)
  = match delta_orb_to_evs s with
    | None => Some (start_ts e - rgb_ts f)
    | Some _ => initial_delta_monitoring s
    end.
Proof. unfold seeded. by destruct (delta_orb_to_evs s). Qed.

Lemma seeded_diff_samples s e f : diff_samples (seeded s e f) = diff_samples s.
Proof. unfold seeded. by destruct (delta_orb_to_evs s). Qed.

Lemma seeded_delta s e f :
  delta_orb_to_evs (seeded s e f) = Some (offset_in_force s e f).
Proof.
  unfold seeded, offset_in_force.
  destruct (delta_orb_to_evs s) eqn:H; simpl; by rewrite ?H.
Qed.

Lemma commit_eq evs_ts delta n d s evs_data es orb_n :
  evs_buffer s = evs_data :: es ->
  orb_buffer s !! n = Some orb_n ->
  Z.abs (evs_ts - (rgb_ts orb_n + delta)) < sync_threshold_us ->
  commit evs_ts delta n d s
  = Ok (committed s evs_data orb_n es (drop (S n) (orb_buffer s))
          (delta + (evs_ts - (rgb_ts orb_n + delta)) `quot` 100) d,
        [Matched evs_data orb_n d]).
Proof.
  intros He Hn Herr. unfold commit. rewrite He. simpl.
  rewrite popleft_n_drop by (apply Nat.lt_le_incl; by eapply lookup_lt_Some).
  simpl. rewrite (popleft_lookup _ _ _ Hn). simpl.
  rewrite (drift_correction_small _ Herr). reflexivity.
Qed.

Lemma evict_eq evs_ts delta s evs_data es oldest fs :
  evs_buffer s = evs_data :: es ->
  orb_buffer s = oldest :: fs ->
  evict evs_ts delta s
  = Ok (evicted evs_ts delta s es oldest (default oldest (last fs)) fs).
Proof.
  intros He Hf. unfold evict, evicted, deque.final. rewrite He, Hf. simpl.
  rewrite last_cons. destruct (last fs); simpl; repeat case_bool_decide; reflexivity.
Qed.

Lemma matched_pairs_app out out' :
  matched_pairs (out ++ out') = matched_pairs out ++ matched_pairs out'.
Proof. apply omap_app. Qed.

Lemma matched_pairs_seed_out s e f : matched_pairs (seed_out s e f) = [].
Proof. unfold seed_out. by destruct (delta_orb_to_evs s). Qed.

Lemma matched_pairs_evicted evs_ts delta s es oldest newest fs :
  matched_pairs (evicted evs_ts delta s es oldest newest fs).2 = [].
Proof. unfold evicted. by repeat case_bool_decide. Qed.

Section sync_cases.
Variables (s : t) (evs_data : EventSlice) (es : list EventSlice).
Variables (orb_data : Frame) (fs : list Frame).
Hypothesis Hevs : evs_buffer s = evs_data :: es.
Hypothesis Horb : orb_buffer s = orb_data :: fs.

Let delta := offset_in_force s evs_data orb_data.
Let evs_ts := start_ts evs_data.
Let s0 := seeded s evs_data orb_data.
Let out0 := seed_out s evs_data orb_data.

(** The scan of a call with both buffers non-empty finds a candidate. *)
Lemma sync_scan :
  exists n d, scan delta evs_ts (orb_data :: fs) = (Some n, Fin d)
              /\ first_argmin delta evs_ts (orb_data :: fs) n d.
Proof. by apply scan_first_argmin. Qed.

Lemma sync_unfold :
  sync s
  = (r ← match scan delta evs_ts (orb_data :: fs) with
         | (Some n, Fin d) =>
             if bool_decide (d < sync_threshold_us) then commit evs_ts delta n d s0
             else evict evs_ts delta s0
         | _ => evict evs_ts delta s0
         end;
     Ok (r.1, out0 ++ r.2)).
Proof.
  unfold sync. rewrite Hevs, Horb. simpl.
  rewrite (seed_eq _ _ _ _ Horb). simpl.
  fold delta evs_ts s0 out0. unfold s0 at 1. by rewrite seeded_orb_buffer, Horb.
Qed.

(** The match branch. *)
Lemma sync_commit n d orb_n :
  scan delta evs_ts (orb_data :: fs) = (Some n, Fin d) ->
  (orb_data :: fs) !! n = Some orb_n ->
  d < sync_threshold_us ->
  sync s
  = Ok (committed s0 evs_data orb_n es (drop (S n) (orb_data :: fs))
          (delta + (evs_ts - (rgb_ts orb_n + delta)) `quot` 100) d,
        out0 ++ [Matched evs_data orb_n d]).
Proof.
  intros Hscan Hn Hd. rewrite sync_unfold, Hscan.
  rewrite bool_decide_eq_true_2 by done.
  destruct sync_scan as (n' & d' & Hscan' & (orb' & Hn' & Hd') & _).
  rewrite Hscan in Hscan'. injection Hscan' as <- <-.
  rewrite Hn in Hn'. injection Hn' as <-.
  erewrite commit_eq; cycle 1.
  - unfold s0. rewrite seeded_evs_buffer. exact Hevs.
  - unfold s0. rewrite seeded_orb_buffer, Horb. exact Hn.
  - unfold diff_of in Hd'. rewrite <- Z.abs_opp.
    replace (- (evs_ts - (rgb_ts orb_n + delta))) with (rgb_ts orb_n + delta - evs_ts) by lia.
    by rewrite Hd'.
  - simpl. unfold s0 at 2. by rewrite seeded_orb_buffer, Horb.
Qed.

(** The [else] branch. *)
Lemma sync_evict n d :
  scan delta evs_ts (orb_data :: fs) = (Some n, Fin d) ->
  sync_threshold_us <= d ->
  sync s
  = Ok (let r := evicted evs_ts delta s0 es orb_data (default orb_data (last fs)) fs
        in (r.1, out0 ++ r.2)).
Proof.
  intros Hscan Hd. rewrite sync_unfold, Hscan.
  rewrite bool_decide_eq_false_2 by lia.
  erewrite evict_eq; [done | |].
  - unfold s0. rewrite seeded_evs_buffer. exact Hevs.
  - unfold s0. rewrite seeded_orb_buffer. exact Horb.
Qed.

End sync_cases.

Lemma committed_fields s e f es rest delta' d :
  let s' := committed s e f es rest delta' d in
  evs_buffer s' = es /\ orb_buffer s' = rest
  /\ delta_orb_to_evs s' = Some delta'
  /\ initial_delta_monitoring s' = initial_delta_monitoring s
  /\ diff_samples s' = diff_samples s ++ [d]
  /\ record_enabled s' = record_enabled s
  /\ output_directory s' = output_directory s.
Proof. destruct s as [? ? ? ? ? [] ? ? ?]; simpl; repeat split. Qed.

Lemma committed_recorder s e f es rest delta' d :
  let s' := committed s e f es rest delta' d in
  record_idx s' = (record_idx s + (if record_enabled s then 1 else 0))%nat
  /\ executor s'
     = executor s ++ (if record_enabled s then [bundle_of (record_idx s) (e, f)] else []).
Proof.
  destruct s as [? ? ? ? ? [] ? ? ?]; simpl; split;
    rewrite ?app_nil_r; try done; lia.
Qed.

Lemma evicted_fields evs_ts delta s es oldest newest fs :
  let s' := (evicted evs_ts delta s es oldest newest fs).1 in
  delta_orb_to_evs s' = delta_orb_to_evs s
  /\ initial_delta_monitoring s' = initial_delta_monitoring s
  /\ diff_samples s' = diff_samples s
  /\ record_enabled s' = record_enabled s
  /\ output_directory s' = output_directory s
  /\ record_idx s' = record_idx s
  /\ executor s' = executor s.
Proof. unfold evicted. repeat case_bool_decide; simpl; repeat split. Qed.

(** Every call of [sync] returns, by one of the three ways. *)
Lemma sync_spec s : exists s' out, sync s = Ok (s', out) /\ sync_post s s' out.
Proof.
  destruct (evs_buffer s) as [|e es] eqn:He.
  { exists s, []. split; [by unfold sync; rewrite He | constructor; by left]. }
  destruct (orb_buffer s) as [|f fs] eqn:Hf.
  { exists s, []. split; [by unfold sync; rewrite He, Hf | constructor; by right]. }
  destruct (sync_scan s e f fs) as (n & d & Hscan & Hmin).
  pose proof Hmin as ((orb_n & Hn & _) & _).
  destruct (decide (d < sync_threshold_us)).
  - eexists _, _. split; [by eapply sync_commit|]. by eapply sync_matched.
  - eexists _, _. split; [eapply sync_evict; [done..|lia]|].
    eapply sync_unmatched; [done..|lia].
Qed.

(** [sync] returns, whatever the state. *)
Lemma sync_total s : is_Ok (sync s).
Proof. destruct (sync_spec s) as (s' & out & -> & _). by eexists. Qed.

(** ** C1: the threshold *)

Lemma min_mapped_diff_le offset ts_E F0 fs orb :
  orb ∈ F0 :: fs -> min_mapped_diff offset ts_E F0 fs <= diff_of offset ts_E orb.
Proof.
  unfold min_mapped_diff. induction fs as [|G fs IH]; simpl.
  - intros ->%list_elem_of_singleton. lia.
  - rewrite !elem_of_cons. intros [->|[->|H]].
    + etrans; [apply Z.le_min_r|]. apply IH. left.
    + apply Z.le_min_l.
    + etrans; [apply Z.le_min_r|]. apply IH. by right.
Qed.

Lemma min_mapped_diff_attained offset ts_E F0 fs :
  exists orb, orb ∈ F0 :: fs /\ diff_of offset ts_E orb = min_mapped_diff offset ts_E F0 fs.
Proof.
  unfold min_mapped_diff. induction fs as [|G fs (orb & Hin & Heq)]; simpl.
  - exists F0. split; [left | done].
  - destruct (Z.min_spec (diff_of offset ts_E G)
      (foldr (fun orb m => Z.min (diff_of offset ts_E orb) m) (diff_of offset ts_E F0) fs))
      as [[_ ->]|[_ ->]].
    + exists G. split; [right; left | done].
    + exists orb. split; [|done].
      apply elem_of_cons in Hin as [->|Hin]; [left | right; by right].
Qed.

Lemma first_argmin_min offset ts_E F0 fs n d :
  first_argmin offset ts_E (F0 :: fs) n d -> d = min_mapped_diff offset ts_E F0 fs.
Proof.
  intros ((orb_n & Hn & Hd) & Hle & _).
  destruct (min_mapped_diff_attained offset ts_E F0 fs) as (orb & Hin & Heq).
  apply list_elem_of_lookup in Hin as [j Hj].
  pose proof (Hle _ _ Hj).
  pose proof (min_mapped_diff_le offset ts_E F0 fs orb_n
                (list_elem_of_lookup_2 _ _ _ Hn)).
  lia.
Qed.

(** C1. In a match attempt with both buffers non-empty, [sync] commits a
    match exactly when the least mapped difference d* is below
    [sync_threshold_us], which is 5000: with d* = 4999 the pair is matched,
    with d* = 5000 it is not. A committed match is seen in the state: the
    front slice and the frames up to a frame at distance d* leave the
    buffers, d* is appended to the samples, the offset is corrected and,
    with recording enabled, the pair is submitted under the next index.
    Without a match none of this happens: no sample, the offset in force
    stays, nothing is submitted, and at most one element leaves one
    buffer. *)
Theorem C1_match_iff_below_threshold
    (s : t) (evs_data : EventSlice) (es : list EventSlice)
    (orb_data : Frame) (fs : list Frame) :
  evs_buffer s = evs_data :: es ->
  orb_buffer s = orb_data :: fs ->
  let offset := offset_in_force s evs_data orb_data in
  let d_star := min_mapped_diff offset (start_ts evs_data) orb_data fs in
  exists s' out,
    sync s = Ok (s', out)
    /\ (matched_pairs out <> [] <-> d_star < sync_threshold_us)
    /\ sync_threshold_us = 5000
    /\ (d_star = 4999 -> exists orb, matched_pairs out = [(evs_data, orb)])
    /\ (d_star = 5000 -> matched_pairs out = [])
    /\ (d_star < sync_threshold_us ->
        exists i orb,
          (orb_data :: fs) !! i = Some orb
          /\ diff_of offset (start_ts evs_data) orb = d_star
          /\ matched_pairs out = [(evs_data, orb)]
          /\ evs_buffer s' = es
          /\ orb_buffer s' = drop (S i) (orb_data :: fs)
          /\ diff_samples s' = diff_samples s ++ [d_star]
          /\ delta_orb_to_evs s'
             = Some (offset + (start_ts evs_data - (rgb_ts orb + offset)) `quot` 100)
          /\ record_idx s' = (record_idx s + (if record_enabled s then 1 else 0))%nat
          /\ executor s'
             = executor s
               ++ (if record_enabled s
                   then [bundle_of (record_idx s) (evs_data, orb)] else []))
    /\ (sync_threshold_us <= d_star ->
        diff_samples s' = diff_samples s
        /\ delta_orb_to_evs s' = Some offset
        /\ record_idx s' = record_idx s
        /\ executor s' = executor s
        /\ (evs_buffer s' = evs_data :: es /\ orb_buffer s' = orb_data :: fs
            \/ evs_buffer s' = es /\ orb_buffer s' = orb_data :: fs
            \/ evs_buffer s' = evs_data :: es /\ orb_buffer s' = fs)).
Proof.
  intros He Hf offset d_star.
  destruct (sync_scan s evs_data orb_data fs) as (n & d & Hscan & Hmin).
  pose proof (first_argmin_min _ _ _ _ _ _ Hmin) as Hd. fold offset d_star in Hd.
  destruct Hmin as ((orb_n & Hn & Hdiff) & _). fold offset in Hdiff.
  destruct (seeded_recorder s evs_data orb_data) as (Hsr & _ & Hsi & Hsx).
  destruct (decide (d < sync_threshold_us)) as [Hlt|Hge].
  - eexists _, _. split; [by eapply sync_commit|].
    rewrite matched_pairs_app, matched_pairs_seed_out. simpl.
    fold offset.
    match goal with
    | |- context [committed ?s0 ?e ?f ?es' ?rest ?delta' ?d'] =>
        destruct (committed_fields s0 e f es' rest delta' d')
          as (Hce & Hco & Hcd & _ & Hcs & _);
        destruct (committed_recorder s0 e f es' rest delta' d') as (Hci & Hcx)
    end.
    unfold sync_threshold_us in *.
    split; [split; [lia | done]|]. split; [done|].
    split; [intros _; by exists orb_n|]. split; [lia|].
    split; [|lia]. intros _. exists n, orb_n.
    rewrite Hce, Hco, Hcd, Hcs, Hci, Hcx, seeded_diff_samples, Hsr, Hsi, Hsx.
    repeat split; try done; congruence.
  - eexists _, _. split; [eapply sync_evict; [done..|lia]|].
    simpl. rewrite matched_pairs_app, matched_pairs_seed_out, matched_pairs_evicted.
    fold offset.
    match goal with
    | |- context [evicted ?ts ?delta ?s0 ?es' ?o ?nw ?fs'] =>
        destruct (evicted_fields ts delta s0 es' o nw fs')
          as (Hed & _ & Hes & _ & _ & Hei & Hex);
        assert (let s' := (evicted ts delta s0 es' o nw fs').1 in
                evs_buffer s' = evs_data :: es /\ orb_buffer s' = orb_data :: fs
                \/ evs_buffer s' = es /\ orb_buffer s' = orb_data :: fs
                \/ evs_buffer s' = evs_data :: es /\ orb_buffer s' = fs) as Hbuf
    end.
    { unfold evicted. repeat case_bool_decide; simpl;
        rewrite ?seeded_evs_buffer, ?seeded_orb_buffer; auto. }
    unfold sync_threshold_us in *.
    split; [split; [done | lia]|]. split; [done|].
    split; [lia|]. split; [done|]. split; [lia|]. intros _.
    rewrite Hed, Hes, Hei, Hex, seeded_delta, seeded_diff_samples, Hsi, Hsx.
    done.
Qed.

Lemma C1_witness :
  exists s' out,
    sync (holding (Some 1000) [5999] [0]) = Ok (s', out)
    /\ (matched_pairs out <> [] <-> 4999 < sync_threshold_us)
    /\ sync_threshold_us = 5000
    /\ (4999 = 4999 -> exists orb, matched_pairs out = [(slice_at 5999, orb)])
    /\ (4999 = 5000 -> matched_pairs out = [])
    /\ (4999 < sync_threshold_us ->
        exists i orb,
          [frame_at 0] !! i = Some orb
          /\ diff_of 1000 5999 orb = 4999
          /\ matched_pairs out = [(slice_at 5999, orb)]
          /\ evs_buffer s' = []
          /\ orb_buffer s' = drop (S i) [frame_at 0]
          /\ diff_samples s' = [4999]
          /\ delta_orb_to_evs s' = Some (1000 + (5999 - (rgb_ts orb + 1000)) `quot` 100)
          /\ record_idx s' = 0%nat
          /\ executor s' = [])
    /\ (sync_threshold_us <= 4999 ->
        diff_samples s' = []
        /\ delta_orb_to_evs s' = Some 1000
        /\ record_idx s' = 0%nat
        /\ executor s' = []
        /\ (evs_buffer s' = [slice_at 5999] /\ orb_buffer s' = [frame_at 0]
            \/ evs_buffer s' = [] /\ orb_buffer s' = [frame_at 0]
            \/ evs_buffer s' = [slice_at 5999] /\ orb_buffer s' = [])).
Proof.
  exact (C1_match_iff_below_threshold (holding (Some 1000) [5999] [0]) _ [] _ []
           eq_refl eq_refl).
Defined.

Example threshold_4999_matches :
  exists s', sync (holding (Some 1000) [5999] [0])
             = Ok (s', [Matched (slice_at 5999) (frame_at 0) 4999])
             /\ evs_buffer s' = [] /\ orb_buffer s' = [].
Proof. eexists. split; [vm_compute; reflexivity | done]. Qed.

Example threshold_5000_does_not_match :
  sync (holding (Some 1000) [6000] [0]) = Ok (holding (Some 1000) [6000] [0], []).
Proof. vm_compute. reflexivity. Qed.

(** ** C3: the direction of the eviction *)

(** C3. In a match attempt (both buffers non-empty, [ts_E] the [start_ts] of
    the oldest slice) in which no frame is within the threshold of the
    slice: if [ts_E < mapped(oldest frame) - 5000] the slice alone is popped;
    else if [ts_E > mapped(newest frame) + 5000] the oldest frame alone is
    popped; otherwise both buffers are unchanged. *)
Theorem C3_eviction_direction
    (s : t) (evs_data : EventSlice) (es : list EventSlice)
    (oldest newest : Frame) (fs : list Frame) :
  evs_buffer s = evs_data :: es ->
  orb_buffer s = oldest :: fs ->
  last (oldest :: fs) = Some newest ->
  let offset := offset_in_force s evs_data oldest in
  let ts_E := start_ts evs_data in
  let oldest_mapped := rgb_ts oldest + offset in
  let newest_mapped := rgb_ts newest + offset in
  (forall orb, orb ∈ oldest :: fs -> ~ diff_of offset ts_E orb < 5000) ->
  exists s' out,
    sync s = Ok (s', out)
    /\ matched_pairs out = []
    /\ if decide (ts_E < oldest_mapped - 5000)
       then evs_buffer s' = es /\ orb_buffer s' = oldest :: fs
       else if decide (ts_E > newest_mapped + 5000)
       then evs_buffer s' = evs_data :: es /\ orb_buffer s' = fs
       else evs_buffer s' = evs_data :: es /\ orb_buffer s' = oldest :: fs.
Proof.
  intros He Hf Hlast offset ts_E oldest_mapped newest_mapped Hfar.
  assert (newest = default oldest (last fs)) as Hnewest.
  { rewrite last_cons in Hlast. destruct (last fs); by injection Hlast. }
  destruct (sync_scan s evs_data oldest fs) as (n & d & Hscan & (orb_n & Hn & Hd) & _).
  assert (sync_threshold_us <= d) as Hge.
  { apply list_elem_of_lookup_2, Hfar in Hn. subst offset ts_E.
    unfold sync_threshold_us. lia. }
  eexists _, _. split; [by eapply sync_evict|]. simpl.
  rewrite matched_pairs_app, matched_pairs_seed_out, matched_pairs_evicted.
  split; [done|]. unfold evicted, sync_threshold_us. rewrite <- Hnewest.
  fold offset ts_E oldest_mapped newest_mapped.
  repeat case_bool_decide; repeat case_decide; try lia; simpl;
    by rewrite ?seeded_evs_buffer, ?seeded_orb_buffer.
Qed.

Lemma C3_witness :
  exists s' out,
    sync (holding (Some 1000) [0; 33000] [10000; 43000]) = Ok (s', out)
    /\ matched_pairs out = []
    /\ evs_buffer s' = [slice_at 33000]
    /\ orb_buffer s' = [frame_at 10000; frame_at 43000].
Proof.
  destruct (C3_eviction_direction (holding (Some 1000) [0; 33000] [10000; 43000])
              (slice_at 0) [slice_at 33000] (frame_at 10000) (frame_at 43000)
              [frame_at 43000] eq_refl eq_refl eq_refl) as (s' & out & Hs & Hm & Hb).
  - intros orb Horb. cbn in Horb.
    apply elem_of_cons in Horb as [->|Horb]; [vm_compute; by intros [=]|].
    apply list_elem_of_singleton in Horb as ->. vm_compute. by intros [=].
  - exists s', out. exact (conj Hs (conj Hm Hb)).
Defined.

Example stale_frame_is_dropped :
  sync (holding (Some 1000) [100000; 133000] [0; 33000])
  = Ok (holding (Some 1000) [100000; 133000] [33000], [PrintOrbDropped]).
Proof. vm_compute. reflexivity. Qed.

Example in_between_waits :
  sync (holding (Some 1000) [17500] [0; 33000])
  = Ok (holding (Some 1000) [17500] [0; 33000], []).
Proof. vm_compute. reflexivity. Qed.

(** ** C4: the candidate is the first frame of least difference *)

(** C4. In a match attempt the scan selects the lowest index [i_star] among
    the frames of the buffer at which [|(F.rgb_ts + offset_us) - ts_E|] is
    least: no frame has a smaller difference, and a frame with the same
    difference is at [i_star] or later. When that least difference is below
    the threshold the match is committed with the frame at [i_star]: the
    front slice leaves its buffer, and the frames up to [i_star] leave
    theirs. Otherwise nothing is matched. *)
Theorem C4_lowest_index_argmin
    (s : t) (evs_data : EventSlice) (es : list EventSlice)
    (orb_data : Frame) (fs : list Frame) :
  evs_buffer s = evs_data :: es ->
  orb_buffer s = orb_data :: fs ->
  let offset := offset_in_force s evs_data orb_data in
  let ts_E := start_ts evs_data in
  let buf := orb_data :: fs in
  exists i_star d_star orb_star,
    scan offset ts_E buf = (Some i_star, Fin d_star)
    /\ buf !! i_star = Some orb_star
    /\ diff_of offset ts_E orb_star = d_star
    /\ (forall j orb, buf !! j = Some orb -> d_star <= diff_of offset ts_E orb)
    /\ (forall j orb, buf !! j = Some orb -> diff_of offset ts_E orb = d_star ->
                      (i_star <= j)%nat)
    /\ exists s' out,
         sync s = Ok (s', out)
         /\ (d_star < sync_threshold_us ->
             matched_pairs out = [(evs_data, orb_star)]
             /\ evs_buffer s' = es
             /\ orb_buffer s' = drop (S i_star) buf)
         /\ (sync_threshold_us <= d_star -> matched_pairs out = []).
Proof.
  intros He Hf offset ts_E buf.
  destruct (sync_scan s evs_data orb_data fs)
    as (n & d & Hscan & (orb_n & Hn & Hd) & Hle & Hlt).
  exists n, d, orb_n. repeat split; try done.
  - intros j orb Hj Heq. destruct (decide (n <= j)%nat) as [|Hjn]; [done|].
    exfalso. assert (j < n)%nat as Hjn' by lia.
    specialize (Hlt _ _ Hjn' Hj). fold offset ts_E in Hlt. lia.
  - destruct (decide (d < sync_threshold_us)).
    + eexists _, _. split; [by eapply sync_commit|].
      split; [|lia]. intros _.
      rewrite matched_pairs_app, matched_pairs_seed_out. split; [done|].
      split; apply committed_fields.
    + eexists _, _. split; [eapply sync_evict; [done..|lia]|].
      split; [lia|]. intros _. simpl.
      by rewrite matched_pairs_app, matched_pairs_seed_out, matched_pairs_evicted.
Qed.

(** Two frames at the same distance on either side of the slice: the earlier
    one is matched, the later one stays in the buffer. *)
Lemma C4_witness :
  exists i_star d_star orb_star,
    scan 1000 2000 [frame_at 0; frame_at 2000] = (Some i_star, Fin d_star)
    /\ [frame_at 0; frame_at 2000] !! i_star = Some orb_star
    /\ diff_of 1000 2000 orb_star = d_star
    /\ (forall j orb, [frame_at 0; frame_at 2000] !! j = Some orb ->
                      d_star <= diff_of 1000 2000 orb)
    /\ (forall j orb, [frame_at 0; frame_at 2000] !! j = Some orb ->
                      diff_of 1000 2000 orb = d_star -> (i_star <= j)%nat)
    /\ exists s' out,
         sync (holding (Some 1000) [2000] [0; 2000]) = Ok (s', out)
         /\ (d_star < sync_threshold_us ->
             matched_pairs out = [(slice_at 2000, orb_star)]
             /\ evs_buffer s' = []
             /\ orb_buffer s' = drop (S i_star) [frame_at 0; frame_at 2000])
         /\ (sync_threshold_us <= d_star -> matched_pairs out = []).
Proof.
  exact (C4_lowest_index_argmin (holding (Some 1000) [2000] [0; 2000])
           (slice_at 2000) [] (frame_at 0) [frame_at 2000] eq_refl eq_refl).
Defined.

Example tie_goes_to_the_earlier_frame :
  exists s', sync (holding (Some 1000) [2000] [0; 2000])
             = Ok (s', [Matched (slice_at 2000) (frame_at 0) 1000])
             /\ orb_buffer s' = [frame_at 2000].
Proof. eexists. split; [vm_compute; reflexivity | done]. Qed.

(** ** C10: [sync] stays in bounds *)

(** C10. Called with both buffers non-empty, [sync] returns without raising:
    the scan assigns [best_match_idx] (it is not [None] at the decision, and
    it is an index of the frame buffer), the pops of the match branch find
    their elements, and in the [else] branch the frame buffer is still
    non-empty, so that reading its first and its last element succeeds. *)
Theorem C10_sync_in_bounds (s : t) :
  evs_buffer s <> [] ->
  orb_buffer s <> [] ->
  is_Ok (sync s)
  /\ exists evs_data orb_data,
       deque.first (evs_buffer s) = Ok evs_data
       /\ deque.first (orb_buffer s) = Ok orb_data
       /\ let delta := offset_in_force s evs_data orb_data in
          let evs_ts := start_ts evs_data in
          let s0 := seeded s evs_data orb_data in
          seed evs_ts s = Ok (s0, delta, seed_out s evs_data orb_data)
          /\ (exists n d,
                scan delta evs_ts (orb_buffer s0) = (Some n, Fin d)
                /\ (n < length (orb_buffer s0))%nat
                /\ (d < sync_threshold_us -> is_Ok (commit evs_ts delta n d s0)))
          /\ is_Ok (deque.first (orb_buffer s0))
          /\ is_Ok (deque.final (orb_buffer s0))
          /\ is_Ok (evict evs_ts delta s0).
Proof.
  intros He Hf.
  destruct (evs_buffer s) as [|e es] eqn:He'; [done|].
  destruct (orb_buffer s) as [|f fs] eqn:Hf'; [done|].
  split; [apply sync_total|].
  exists e, f. repeat split.
  - by eapply seed_eq.
  - destruct (sync_scan s e f fs) as (n & d & Hscan & (orb_n & Hn & Hd) & _).
    exists n, d. rewrite seeded_orb_buffer, Hf'. repeat split; [done| |].
    + by eapply lookup_lt_Some.
    + intros Hlt. eexists. eapply commit_eq.
      * by rewrite seeded_evs_buffer.
      * by rewrite seeded_orb_buffer, Hf'.
      * unfold diff_of in Hd. rewrite <- Z.abs_opp.
        replace (- (start_ts e - (rgb_ts orb_n + offset_in_force s e f)))
          with (rgb_ts orb_n + offset_in_force s e f - start_ts e) by lia.
        by rewrite Hd.
  - rewrite seeded_orb_buffer, Hf'. by eexists.
  - rewrite seeded_orb_buffer, Hf'. unfold deque.final. rewrite last_cons.
    destruct (last fs); by eexists.
  - eexists. eapply evict_eq; [by rewrite seeded_evs_buffer|].
    by rewrite seeded_orb_buffer.
Qed.

Lemma C10_witness :
  is_Ok (sync (holding None [1000; 34000] [0; 33000; 66000])).
Proof.
  exact (proj1 (C10_sync_in_bounds (holding None [1000; 34000] [0; 33000; 66000])
                  ltac:(discriminate) ltac:(discriminate))).
Defined.

(** Without the guard of line 103 the body does raise on an empty frame
    buffer: the [else] branch reads [orb_buffer[0]]. *)
Example evict_raises_on_empty_frame_buffer :
  evict 0 0 (holding (Some 0) [0] []) = Raise IndexError.
Proof. reflexivity. Qed.

(** ** One iteration of [sync_process], and runs *)

Lemma pull_fields k s :
  let p := pull k s in
  evs_buffer p = match slice_in k with
                 | Some e => deque.append buffer_maxlen (evs_buffer s) e
                 | None => evs_buffer s
                 end
  /\ orb_buffer p = match frame_in k with
                    | Some f => deque.append buffer_maxlen (orb_buffer s) f
                    | None => orb_buffer s
                    end
  /\ delta_orb_to_evs p = delta_orb_to_evs s
  /\ initial_delta_monitoring p = initial_delta_monitoring s
  /\ record_enabled p = record_enabled s
  /\ output_directory p = output_directory s
  /\ record_idx p = record_idx s
  /\ executor p = executor s.
Proof. unfold pull. destruct (slice_in k), (frame_in k); simpl; repeat split. Qed.

Lemma monitored_fields k s :
  let m := (monitored k s).1 in
  evs_buffer m = evs_buffer s /\ orb_buffer m = orb_buffer s
  /\ delta_orb_to_evs m = delta_orb_to_evs s
  /\ initial_delta_monitoring m = initial_delta_monitoring s
  /\ record_enabled m = record_enabled s
  /\ output_directory m = output_directory s
  /\ record_idx m = record_idx s
  /\ executor m = executor s.
Proof. unfold monitored. destruct (monitor_due k); simpl; repeat split. Qed.

Lemma monitored_out k s :
  matched_pairs (monitored k s).2 = []
  /\ forall d, PrintDelta d ∉ (monitored k s).2.
Proof.
  unfold monitored, monitor_buffers. destruct (monitor_due k); simpl.
  - split; [by destruct (_ || _)|]. intros d Hin.
    destruct (_ || _);
      repeat (apply elem_of_cons in Hin as [Hin|Hin]; [discriminate|]);
      by apply elem_of_nil in Hin.
  - split; [done|]. intros d. apply not_elem_of_nil.
Qed.

(** An iteration pulls, runs one call of [sync] (when a buffer is empty the
    call is skipped, which is what [sync] would do itself) and monitors. *)
Lemma iteration_spec k s :
  exists s1 out1,
    sync_post (pull k s) s1 out1
    /\ iteration k s = Ok ((monitored k s1).1, out1 ++ (monitored k s1).2).
Proof.
  unfold iteration. set (p := pull k s).
  destruct (bool_decide (0 < length (evs_buffer p))%nat
            && bool_decide (0 < length (orb_buffer p))%nat) eqn:Hb.
  - destruct (sync_spec p) as (s1 & out1 & Hs & Hp).
    exists s1, out1. split; [done|]. rewrite Hs. simpl.
    fold (monitored k s1). by destruct (monitored k s1).
  - exists p, []. split.
    + constructor. apply andb_false_iff in Hb as [Hb|Hb];
        apply bool_decide_eq_false in Hb; [left | right];
        by destruct (_ p); simpl in *; [|lia].
    + simpl. fold (monitored k p). by destruct (monitored k p).
Qed.

Lemma iteration_total k s : is_Ok (iteration k s).
Proof. destruct (iteration_spec k s) as (? & ? & _ & ->). by eexists. Qed.

(** Induction over a run: the run returns, and what holds of the empty run
    and is carried over one iteration holds of the run. *)
Lemma sync_process_run (P : list Tick -> t -> t -> list Event -> Prop) :
  (forall s, P [] s s []) ->
  (forall k ticks s s1 out1 s2 out2,
      iteration k s = Ok (s1, out1) ->
      sync_process ticks s1 = Ok (s2, out2) ->
      P ticks s1 s2 out2 ->
      P (k :: ticks) s s2 (out1 ++ out2)) ->
  forall ticks s,
    exists s' out, sync_process ticks s = Ok (s', out) /\ P ticks s s' out.
Proof.
  intros Hnil Hcons ticks.
  induction ticks as [|k ticks IH]; intros s; simpl.
  - by exists s, [].
  - destruct (iteration_total k s) as [[s1 out1] Hit].
    destruct (IH s1) as (s2 & out2 & Hrun & HP).
    exists s2, (out1 ++ out2). rewrite Hit; simpl. rewrite Hrun; simpl.
    split; [done|]. by eapply Hcons.
Qed.

Lemma sync_process_total ticks s : is_Ok (sync_process ticks s).
Proof.
  destruct (sync_process_run (fun _ _ _ _ => True)) with (ticks := ticks) (s := s)
    as (s' & out & -> & _); [done..|]. by eexists.
Qed.

(** ** The offset: seeding and drift correction *)

Lemma seedings_app out out' : seedings (out ++ out') = seedings out ++ seedings out'.
Proof. apply omap_app. Qed.

Lemma seedings_evicted evs_ts delta s es oldest newest fs :
  seedings (evicted evs_ts delta s es oldest newest fs).2 = [].
Proof. unfold evicted. by repeat case_bool_decide. Qed.

Lemma seedings_monitored k s : seedings (monitored k s).2 = [].
Proof.
  unfold monitored, monitor_buffers. destruct (monitor_due k); simpl;
    [by destruct (_ || _) | done].
Qed.

(** A call of [sync] on a seeded synchronizer. *)
Lemma sync_post_seeded s s' out delta :
  sync_post s s' out ->
  delta_orb_to_evs s = Some delta ->
  initial_delta_monitoring s' = initial_delta_monitoring s
  /\ seedings out = []
  /\ match matched_pairs out with
     | [] => delta_orb_to_evs s' = Some delta
     | [(e, f)] =>
         let current_error := start_ts e - (rgb_ts f + delta) in
         Z.abs current_error < sync_threshold_us
         /\ drift_correction current_error = Ok (current_error `quot` 100)
         /\ delta_orb_to_evs s' = Some (delta + current_error `quot` 100)
     | _ => False
     end.
Proof.
  intros Hpost Hdelta. inversion Hpost as
    [Hidle|e es f fs n d orb_n He Hf delta0 Hmin Hn Hd|e es f fs n d He Hf delta0 Hmin Hd r];
    subst.
  - by rewrite Hdelta.
  - assert (delta0 = delta) as -> by (subst delta0; unfold offset_in_force; by rewrite Hdelta).
    assert (seeded s e f = s) as Hs by (unfold seeded; by rewrite Hdelta).
    assert (seed_out s e f = []) as Ho by (unfold seed_out; by rewrite Hdelta).
    rewrite Hs, Ho. simpl.
    destruct (committed_fields s e orb_n es (drop (S n) (f :: fs))
                (delta + (start_ts e - (rgb_ts orb_n + delta)) `quot` 100) d)
      as (_ & _ & Hd' & Hi & _).
    repeat split; try done.
    + destruct Hmin as ((orb' & Hn' & Hdiff) & _).
      rewrite Hn in Hn'. injection Hn' as <-.
      unfold diff_of in Hdiff. lia.
    + apply drift_correction_small.
      destruct Hmin as ((orb' & Hn' & Hdiff) & _).
      rewrite Hn in Hn'. injection Hn' as <-.
      unfold diff_of in Hdiff. lia.
  - assert (seeded s e f = s) as Hs by (unfold seeded; by rewrite Hdelta).
    assert (seed_out s e f = []) as Ho by (unfold seed_out; by rewrite Hdelta).
    subst r. rewrite Hs, Ho. simpl.
    rewrite matched_pairs_evicted, seedings_evicted.
    destruct (evicted_fields (start_ts e) delta0 s es f (default f (last fs)) fs)
      as (Hd' & Hi & _).
    by rewrite Hd', Hi.
Qed.

(** The first call of [sync] that finds both buffers non-empty: it seeds the
    offset from the two front elements, and matches them with error 0. *)
Lemma sync_post_unseeded s s' out evs_data es orb_data fs :
  sync_post s s' out ->
  delta_orb_to_evs s = None ->
  evs_buffer s = evs_data :: es ->
  orb_buffer s = orb_data :: fs ->
  let d0 := start_ts evs_data - rgb_ts orb_data in
  delta_orb_to_evs s' = Some d0
  /\ initial_delta_monitoring s' = Some d0
  /\ out = [PrintDelta d0; Matched evs_data orb_data 0].
Proof.
  intros Hpost Hdelta He Hf.
  assert (offset_in_force s evs_data orb_data = start_ts evs_data - rgb_ts orb_data)
    as Hoff by (unfold offset_in_force; by rewrite Hdelta).
  inversion Hpost as
    [Hidle|e es' f fs' n d orb_n He' Hf' delta0 Hmin Hn Hd|e es' f fs' n d He' Hf' delta0 Hmin Hd r].
  - destruct Hidle as [Hidle|Hidle]; congruence.
  - rewrite He in He'. rewrite Hf in Hf'.
    injection He' as <- <-. injection Hf' as <- <-.
    subst delta0. rewrite Hoff in *. clear Hoff.
    set (d0 := start_ts evs_data - rgb_ts orb_data) in *.
    destruct Hmin as ((orb' & Hn' & Hdiff) & Hle & Hlt).
    assert (diff_of d0 (start_ts evs_data) orb_data = 0) as Hzero
      by (unfold diff_of, d0; lia).
    assert (d = 0) as ->.
    { specialize (Hle 0%nat orb_data eq_refl). unfold diff_of in *. lia. }
    assert (n = 0%nat) as ->.
    { destruct n as [|n]; [done|].
      specialize (Hlt 0%nat orb_data ltac:(lia) eq_refl). lia. }
    simpl in Hn. injection Hn as <-.
    destruct (committed_fields (seeded s evs_data orb_data) evs_data orb_data es
                (drop 1 (orb_data :: fs))
                (d0 + (start_ts evs_data - (rgb_ts orb_data + d0)) `quot` 100) 0)
      as (_ & _ & Hd' & Hi & _).
    rewrite Hd', Hi, seeded_initial, Hdelta. unfold seed_out. rewrite Hdelta.
    replace (start_ts evs_data - (rgb_ts orb_data + d0)) with 0 by (unfold d0; lia).
    rewrite Z.add_0_r. done.
  - rewrite He in He'. rewrite Hf in Hf'.
    injection He' as <- <-. injection Hf' as <- <-.
    subst delta0. rewrite Hoff in *.
    destruct Hmin as (_ & Hle & _).
    specialize (Hle 0%nat orb_data eq_refl).
    unfold sync_threshold_us, diff_of in *. lia.
Qed.

(** ** C2: the drift correction of the offset *)

(** C2, as stated, fails: with offset 1000, a slice at 34060 and a frame at
    33000 the match is committed with error 60; [round(0.6)] is 1, but the
    code adds [int(0.6)], which is 0, and the offset stays 1000. *)
Lemma C2_counterexample :
  exists s',
    sync (holding (Some 1000) [34060] [33000])
    = Ok (s', [Matched (slice_at 34060) (frame_at 33000) 60])
    /\ delta_orb_to_evs s' = Some 1000
    /\ delta_orb_to_evs s' <> Some (claimed_offset 1000 34060 33000).
Proof. eexists. split; [vm_compute; reflexivity | split; [reflexivity | by intros [=]]]. Qed.

(** A call of [sync] that finds a buffer empty changes nothing. *)
Lemma sync_post_idle s s' out :
  sync_post s s' out ->
  evs_buffer s = [] \/ orb_buffer s = [] ->
  s' = s /\ out = [].
Proof.
  intros Hpost Hidle. inversion Hpost as
    [|e es f fs n d orb_n He Hf delta0 Hmin Hn Hd|e es f fs n d He Hf delta0 Hmin Hd r];
    [done | destruct Hidle; congruence..].
Qed.

(** C2, amended. An iteration of the loop that commits a match changes the
    offset by exactly [int(drift_alpha * (ts_E - mapped(F)))], the product
    truncated towards zero, which is the integer quotient of the error by 100
    truncated towards zero ([mapped(F)] being [matched_frame.rgb_ts] plus the
    offset before the update, and the error being below the threshold in
    absolute value). This holds of every committed match, the first one of a
    run included: there the offset before the update is the one that the same
    call has just seeded from the pair and printed, and the error is 0. An
    iteration that commits no match leaves the offset as it was. An iteration
    commits at most one match. *)
Theorem C2_offset_update (k : Tick) (s : t) :
  exists s' out,
    iteration k s = Ok (s', out)
    /\ match matched_pairs out with
       | [] => delta_orb_to_evs s' = delta_orb_to_evs s
       | [(matched_evs, matched_orb)] =>
           exists offset,
             (delta_orb_to_evs s = Some offset
              \/ delta_orb_to_evs s = None
                 /\ seedings out = [offset]
                 /\ offset = start_ts matched_evs - rgb_ts matched_orb)
             /\ let current_error :=
                  start_ts matched_evs - (rgb_ts matched_orb + offset) in
                Z.abs current_error < sync_threshold_us
                /\ drift_correction current_error = Ok (current_error `quot` 100)
                /\ delta_orb_to_evs s' = Some (offset + current_error `quot` 100)
       | _ => False
       end.
Proof.
  destruct (iteration_spec k s) as (s1 & out1 & Hpost & Hit).
  eexists _, _. split; [exact Hit|].
  destruct (pull_fields k s) as (_ & _ & Hd & _).
  destruct (monitored_fields k s1) as (_ & _ & Hd' & _).
  rewrite matched_pairs_app, (proj1 (monitored_out k s1)), app_nil_r, Hd'.
  rewrite seedings_app, seedings_monitored, app_nil_r.
  destruct (delta_orb_to_evs s) as [offset|] eqn:Hs.
  - (* a seeded synchronizer *)
    destruct (sync_post_seeded _ _ _ _ Hpost Hd) as (_ & _ & Hm).
    destruct (matched_pairs out1) as [|[e f] [|]]; [done| |done].
    exists offset. split; [by left | exact Hm].
  - destruct (evs_buffer (pull k s)) as [|e es] eqn:He.
    { destruct (sync_post_idle _ _ _ Hpost) as [-> ->]; [by left|]. by simpl. }
    destruct (orb_buffer (pull k s)) as [|f fs] eqn:Hf.
    { destruct (sync_post_idle _ _ _ Hpost) as [-> ->]; [by right|]. by simpl. }
    (* the first match of the run *)
    destruct (sync_post_unseeded _ _ _ _ _ _ _ Hpost Hd He Hf) as (Hd1 & _ & ->).
    cbn [matched_pairs omap matched_pair seedings seeding].
    exists (start_ts e - rgb_ts f). split; [right; done|].
    replace (start_ts e - (rgb_ts f + (start_ts e - rgb_ts f))) with 0 by lia.
    cbv zeta. split; [done|]. split; [by apply drift_correction_small|].
    by rewrite Hd1, Z.add_0_r.
Qed.

Lemma C2_witness :
  exists s' out,
    iteration {| slice_in := Some (slice_at 34250); frame_in := Some (frame_at 33000);
                 monitor_due := true |}
      (holding (Some 1000) [] [])
    = Ok (s', out)
    /\ match matched_pairs out with
       | [] => delta_orb_to_evs s' = Some 1000
       | [(matched_evs, matched_orb)] =>
           exists offset,
             (Some 1000 = Some offset
              \/ Some 1000 = None
                 /\ seedings out = [offset]
                 /\ offset = start_ts matched_evs - rgb_ts matched_orb)
             /\ let current_error :=
                  start_ts matched_evs - (rgb_ts matched_orb + offset) in
                Z.abs current_error < sync_threshold_us
                /\ drift_correction current_error = Ok (current_error `quot` 100)
                /\ delta_orb_to_evs s' = Some (offset + current_error `quot` 100)
       | _ => False
       end.
Proof.
  exact (C2_offset_update
           {| slice_in := Some (slice_at 34250); frame_in := Some (frame_at 33000);
              monitor_due := true |}
           (holding (Some 1000) [] [])).
Defined.

(** The first match of a run: the offset is seeded by the call that commits
    it, from the pair itself, and the correction is [int(0 * 0.01) = 0]. *)
Example first_match_corrects_by_zero :
  exists s',
    iteration (tick (Some 34250) (Some 33000)) (init false "out")
    = Ok (s', [PrintDelta 1250; Matched (slice_at 34250) (frame_at 33000) 0])
    /\ delta_orb_to_evs s' = Some 1250.
Proof. eexists. split; [vm_compute; reflexivity | reflexivity]. Qed.

Example drift_correction_truncates :
  drift_correction 60 = Ok 0 /\ drift_correction (-60) = Ok 0
  /\ drift_correction 250 = Ok 2 /\ drift_correction (-250) = Ok (-2)
  /\ round_hundredth 60 = 1 /\ round_hundredth (-60) = -1
  /\ round_hundredth 250 = 2 /\ round_hundredth (-250) = -2.
Proof. vm_compute. repeat split. Qed.

Example offset_after_error_250 :
  exists s',
    iteration {| slice_in := Some (slice_at 34250); frame_in := Some (frame_at 33000);
                 monitor_due := true |}
      (holding (Some 1000) [] [])
    = Ok (s', [Matched (slice_at 34250) (frame_at 33000) 250; PrintMonitor 0 0 2 [250]])
    /\ delta_orb_to_evs s' = Some 1002.
Proof. eexists. split; [vm_compute; reflexivity | reflexivity]. Qed.

(** ** C5: the offset is seeded once *)



Example seeded_at_the_first_attempt :
  exists s',
    sync_process [tick (Some 1000) None; tick (Some 34000) (Some 0);
                  tick (Some 67000) (Some 33000)] (init false "out")
    = Ok (s', [PrintDelta 1000; Matched (slice_at 1000) (frame_at 0) 0;
               Matched (slice_at 34000) (frame_at 33000) 0])
    /\ initial_delta_monitoring s' = Some 1000
    /\ delta_orb_to_evs s' = Some 1000.
Proof. eexists. split; [vm_compute; reflexivity | done]. Qed.

(** ** C6: the order of consumption *)

Lemma StronglySorted_sublist {A} (R : relation A) (l k : list A) :
  l `sublist_of` k -> StronglySorted R k -> StronglySorted R l.
Proof.
  induction 1 as [|x l k Hsub IH|x l k Hsub IH]; intros Hk.
  - constructor.
  - apply StronglySorted_inv in Hk as [Hk Hx]. constructor; [by apply IH|].
    rewrite Forall_forall in Hx |- *. intros y Hy. apply Hx.
    by eapply sublist_subseteq.
  - apply StronglySorted_inv in Hk as [Hk _]. by apply IH.
Qed.

(** A call of [sync] takes the matched elements and what it leaves in the
    buffers from the buffers, in their order. *)
Lemma sync_post_sublist s s' out :
  sync_post s s' out ->
  matched_slices out ++ evs_buffer s' `sublist_of` evs_buffer s
  /\ matched_frames out ++ orb_buffer s' `sublist_of` orb_buffer s.
Proof.
  unfold matched_slices, matched_frames.
  intros Hpost. inversion Hpost as
    [Hidle|e es f fs n d orb_n He Hf delta0 Hmin Hn Hd|e es f fs n d He Hf delta0 Hmin Hd r];
    subst.
  - done.
  - destruct (committed_fields (seeded s e f) e orb_n es (drop (S n) (f :: fs))
                (delta0 + (start_ts e - (rgb_ts orb_n + delta0)) `quot` 100) d)
      as (-> & -> & _).
    rewrite matched_pairs_app, matched_pairs_seed_out, He, Hf.
    split; [done|].
    rewrite <- (take_drop_middle _ _ _ Hn) at 2.
    by apply sublist_inserts_l.
  - subst r. simpl.
    rewrite matched_pairs_app, matched_pairs_seed_out, matched_pairs_evicted. simpl.
    unfold evicted. rewrite He, Hf.
    repeat case_bool_decide; simpl;
      rewrite ?seeded_evs_buffer, ?seeded_orb_buffer, ?He, ?Hf;
      split; by repeat constructor.
Qed.

Lemma iteration_sublist k s s' out :
  iteration k s = Ok (s', out) ->
  matched_slices out ++ evs_buffer s'
    `sublist_of` evs_buffer s ++ option_list (slice_in k)
  /\ matched_frames out ++ orb_buffer s'
    `sublist_of` orb_buffer s ++ option_list (frame_in k).
Proof.
  intros Hit. destruct (iteration_spec k s) as (s1 & out1 & Hpost & Hit').
  rewrite Hit in Hit'. injection Hit' as -> ->.
  destruct (sync_post_sublist _ _ _ Hpost) as [He Hf].
  destruct (pull_fields k s) as (Hpe & Hpf & _).
  destruct (monitored_fields k s1) as (Hme & Hmf & _).
  unfold matched_slices, matched_frames in *.
  rewrite matched_pairs_app, (proj1 (monitored_out k s1)), app_nil_r, Hme, Hmf.
  split.
  - etrans; [exact He|]. rewrite Hpe. destruct (slice_in k); simpl.
    + apply append_sublist.
    + by rewrite app_nil_r.
  - etrans; [exact Hf|]. rewrite Hpf. destruct (frame_in k); simpl.
    + apply append_sublist.
    + by rewrite app_nil_r.
Qed.

Lemma omap_cons_option_list {A B} (f : A -> option B) (x : A) (l : list A) :
  omap f (x :: l) = option_list (f x) ++ omap f l.
Proof. simpl. by destruct (f x). Qed.

(** Over a run, the matched elements followed by what is left in the buffer
    are taken, in order, from the initial buffer followed by what was
    pulled. *)
Lemma sync_process_sublist ticks s :
  exists s' out,
    sync_process ticks s = Ok (s', out)
    /\ matched_slices out ++ evs_buffer s'
         `sublist_of` evs_buffer s ++ slices_in ticks
    /\ matched_frames out ++ orb_buffer s'
         `sublist_of` orb_buffer s ++ frames_in ticks.
Proof.
  apply (sync_process_run (fun ticks s s' out =>
    matched_slices out ++ evs_buffer s' `sublist_of` evs_buffer s ++ slices_in ticks
    /\ matched_frames out ++ orb_buffer s' `sublist_of` orb_buffer s ++ frames_in ticks)).
  - intros s0. simpl. by rewrite !app_nil_r.
  - intros k ticks' s0 s1 out1 s2 out2 Hit _ [IHe IHf].
    destruct (iteration_sublist _ _ _ _ Hit) as [He Hf].
    unfold matched_slices, matched_frames, slices_in, frames_in in *.
    rewrite matched_pairs_app, !fmap_app, !omap_cons_option_list, <- !(assoc_L (++)).
    split.
    + etrans; [apply sublist_app; [reflexivity | exact IHe]|].
      rewrite !(assoc_L (++)). by apply sublist_app.
    + etrans; [apply sublist_app; [reflexivity | exact IHf]|].
      rewrite !(assoc_L (++)). by apply sublist_app.
Qed.

(** C6, as stated, fails: two slices with the same [start_ts] (a
    non-decreasing stream) are both matched, so that the matched [start_ts]
    are not strictly increasing; likewise for two frames with the same
    [rgb_ts]. *)
Lemma C6_counterexample :
  nondecreasing (start_ts <$> slices_in [tick (Some 1000) (Some 0); tick (Some 1000) (Some 0)])
  /\ nondecreasing (rgb_ts <$> frames_in [tick (Some 1000) (Some 0); tick (Some 1000) (Some 0)])
  /\ exists s' out,
       sync_process [tick (Some 1000) (Some 0); tick (Some 1000) (Some 0)]
         (init false "out") = Ok (s', out)
       /\ start_ts <$> matched_slices out = [1000; 1000]
       /\ rgb_ts <$> matched_frames out = [0; 0]
       /\ ~ increasing (start_ts <$> matched_slices out)
       /\ ~ increasing (rgb_ts <$> matched_frames out).
Proof.
  split; [|split].
  - repeat constructor. done.
  - repeat constructor. done.
  - eexists _, _. split; [vm_compute; reflexivity|].
    split; [reflexivity|]. split; [reflexivity|].
    split; intros H; apply StronglySorted_inv in H as [_ H];
      apply Forall_cons in H as [H _]; vm_compute in H; discriminate.
Qed.

(** C6, amended. From the state built by [__init__], when the slices pulled
    from the slice queue have non-decreasing [start_ts] and the frames pulled
    from the frame queue have non-decreasing [rgb_ts], the [start_ts] of the
    matched slices and the [rgb_ts] of the matched frames are non-decreasing
    sequences; each of the two is strictly increasing when the timestamps of
    its own producer are strictly increasing. *)
Theorem C6_monotonic_consumption
    (ticks : list Tick) (record_enabled : bool) (output_directory : string) :
  nondecreasing (start_ts <$> slices_in ticks) ->
  nondecreasing (rgb_ts <$> frames_in ticks) ->
  exists s' out,
    sync_process ticks (init record_enabled output_directory) = Ok (s', out)
    /\ nondecreasing (start_ts <$> matched_slices out)
    /\ nondecreasing (rgb_ts <$> matched_frames out)
    /\ (increasing (start_ts <$> slices_in ticks) ->
        increasing (start_ts <$> matched_slices out))
    /\ (increasing (rgb_ts <$> frames_in ticks) ->
        increasing (rgb_ts <$> matched_frames out)).
Proof.
  intros Hslices Hframes.
  destruct (sync_process_sublist ticks (init record_enabled output_directory))
    as (s' & out & Hrun & He & Hf).
  simpl in He, Hf.
  assert (matched_slices out `sublist_of` slices_in ticks) as He'
    by (etrans; [|exact He]; by apply sublist_inserts_r).
  assert (matched_frames out `sublist_of` frames_in ticks) as Hf'
    by (etrans; [|exact Hf]; by apply sublist_inserts_r).
  exists s', out. split; [done|].
  unfold nondecreasing, increasing in *.
  repeat split; try intros ?;
    (eapply StronglySorted_sublist; [apply fmap_sublist; eassumption | done]).
Qed.

Lemma C6_witness :
  exists s' out,
    sync_process [tick (Some 1000) None; tick (Some 1000) (Some 0);
                  tick (Some 34000) (Some 33000); tick None (Some 66000);
                  tick (Some 67000) None]
      (init true "out") = Ok (s', out)
    /\ nondecreasing (start_ts <$> matched_slices out)
    /\ nondecreasing (rgb_ts <$> matched_frames out)
    /\ (increasing [1000; 1000; 34000; 67000] ->
        increasing (start_ts <$> matched_slices out))
    /\ (increasing [0; 33000; 66000] ->
        increasing (rgb_ts <$> matched_frames out)).
Proof.
  apply (C6_monotonic_consumption
           [tick (Some 1000) None; tick (Some 1000) (Some 0);
            tick (Some 34000) (Some 33000); tick None (Some 66000);
            tick (Some 67000) None] true "out").
  - repeat constructor; done.
  - repeat constructor; done.
Defined.

(** ** C7: sequence indices and the names of the artifacts *)

Lemma bundles_from_app i pairs pairs' :
  bundles_from i (pairs ++ pairs')
  = bundles_from i pairs ++ bundles_from (i + length pairs) pairs'.
Proof.
  unfold bundles_from. rewrite imap_app. f_equal.
  apply imap_ext. intros k p _. simpl. f_equal. lia.
Qed.


(** What a call of [sync] does to the recorder. *)
Lemma sync_post_recorder s s' out :
  sync_post s s' out ->
  record_enabled s' = record_enabled s
  /\ output_directory s' = output_directory s
  /\ record_idx s'
     = (record_idx s
        + (if record_enabled s then length (matched_pairs out) else 0))%nat
  /\ executor s'
     = executor s
       ++ (if record_enabled s then bundles_from (record_idx s) (matched_pairs out)
           else []).
Proof.
  intros Hpost. inversion Hpost as
    [Hidle|e es f fs n d orb_n He Hf delta0 Hmin Hn Hd|e es f fs n d He Hf delta0 Hmin Hd r];
    subst.
  - destruct (record_enabled _); cbn; rewrite app_nil_r, Nat.add_0_r; done.
  - destruct (committed_fields (seeded s e f) e orb_n es (drop (S n) (f :: fs))
                (delta0 + (start_ts e - (rgb_ts orb_n + delta0)) `quot` 100) d)
      as (_ & _ & _ & _ & _ & -> & ->).
    destruct (committed_recorder (seeded s e f) e orb_n es (drop (S n) (f :: fs))
                (delta0 + (start_ts e - (rgb_ts orb_n + delta0)) `quot` 100) d)
      as (-> & ->).
    destruct (seeded_recorder s e f) as (-> & -> & -> & ->).
    rewrite matched_pairs_app, matched_pairs_seed_out. simpl.
    destruct (record_enabled s); simpl; repeat split.
    unfold bundles_from. simpl. by rewrite Nat.add_0_r.
  - subst r.
    destruct (evicted_fields (start_ts e) delta0 (seeded s e f) es f
                (default f (last fs)) fs) as (_ & _ & _ & -> & -> & -> & ->).
    destruct (seeded_recorder s e f) as (-> & -> & -> & ->).
    rewrite matched_pairs_app, matched_pairs_seed_out, matched_pairs_evicted.
    destruct (record_enabled s); cbn; rewrite app_nil_r, Nat.add_0_r; done.
Qed.

(** Over a run with recording enabled, one bundle is submitted per matched
    pair, in match order, each with the next index. *)
Lemma sync_process_recorder ticks s :
  exists s' out,
    sync_process ticks s = Ok (s', out)
    /\ (record_enabled s = true ->
        record_enabled s' = true
        /\ output_directory s' = output_directory s
        /\ record_idx s' = (record_idx s + length (matched_pairs out))%nat
        /\ executor s' = executor s ++ bundles_from (record_idx s) (matched_pairs out)).
Proof.
  apply (sync_process_run (fun _ s s' out =>
    record_enabled s = true ->
    record_enabled s' = true
    /\ output_directory s' = output_directory s
    /\ record_idx s' = (record_idx s + length (matched_pairs out))%nat
    /\ executor s' = executor s ++ bundles_from (record_idx s) (matched_pairs out))).
  - intros s0 Hen. cbn. by rewrite app_nil_r, Nat.add_0_r.
  - intros k ticks' s0 s1 out1 s2 out2 Hit _ IH Hen.
    destruct (iteration_spec k s0) as (s1' & out1' & Hpost & Hit').
    rewrite Hit in Hit'. injection Hit' as -> ->.
    destruct (sync_post_recorder _ _ _ Hpost) as (Hr & Ho & Hi & Hx).
    destruct (pull_fields k s0) as (_ & _ & _ & _ & Hpr & Hpo & Hpi & Hpx).
    destruct (monitored_fields k s1') as (_ & _ & _ & _ & Hmr & Hmo & Hmi & Hmx).
    rewrite Hpr, Hen in *. rewrite Hpo, Hpi, Hpx in *.
    destruct IH as (Hr2 & Ho2 & Hi2 & Hx2); [by rewrite Hmr, Hr|].
    rewrite Hmo, Hmi, Hmx in *.
    rewrite !matched_pairs_app, (proj1 (monitored_out k s1')), !app_nil_r.
    rewrite Hr2, Ho2, Hi2, Hx2, Ho, Hi, Hx, bundles_from_app, length_app.
    repeat split; [lia | by rewrite (assoc_L (++))].
Qed.

(** *** Names *)

Lemma list_ascii_app (s1 s2 : string) :
  list_ascii_of_string (s1 +:+ s2)
  = list_ascii_of_string s1 ++ list_ascii_of_string s2.
Proof. induction s1 as [|c s1 IH]; simpl; [done | by rewrite IH]. Qed.

Lemma list_ascii_inj (s1 s2 : string) :
  list_ascii_of_string s1 = list_ascii_of_string s2 -> s1 = s2.
Proof.
  intros H. rewrite <- (string_of_list_ascii_of_string s1), H.
  apply string_of_list_ascii_of_string.
Qed.

Lemma string_app_inv_tail (s1 s2 suffix : string) :
  s1 +:+ suffix = s2 +:+ suffix -> s1 = s2.
Proof.
  intros H%(f_equal list_ascii_of_string). rewrite !list_ascii_app in H.
  by apply list_ascii_inj, (app_inv_tail (list_ascii_of_string suffix)).
Qed.

Lemma uint_of_string_zeros (k : nat) (d : Decimal.uint) :
  NilEmpty.uint_of_string (zeros k +:+ NilEmpty.string_of_uint d)
  = Some (Nat.iter k Decimal.D0 d).
Proof.
  induction k as [|k IH]; simpl.
  - apply NilEmpty.usu.
  - by rewrite IH.
Qed.

Lemma of_uint_zeros (k : nat) (d : Decimal.uint) :
  Nat.of_uint (Nat.iter k Decimal.D0 d) = Nat.of_uint d.
Proof. induction k as [|k IH]; [done|]. simpl. exact IH. Qed.

(** Reading [f"{n:06d}"] back as a number gives [n]. *)
Lemma fmt06_decode (n : nat) :
  Nat.of_uint <$> NilEmpty.uint_of_string (fmt06 n) = Some n.
Proof.
  unfold fmt06. rewrite uint_of_string_zeros. simpl.
  by rewrite of_uint_zeros, DecimalNat.Unsigned.of_to.
Qed.

Lemma fmt06_inj (n m : nat) : fmt06 n = fmt06 m -> n = m.
Proof.
  intros H. pose proof (fmt06_decode n) as Hn. rewrite H, fmt06_decode in Hn.
  by injection Hn.
Qed.

Example fmt06_samples :
  fmt06 0 = "000000" /\ fmt06 7 = "000007" /\ fmt06 42 = "000042"
  /\ fmt06 4321 = "004321".
Proof. vm_compute. repeat split. Qed.

Lemma event_filename_inj dir n m :
  event_filename dir n = event_filename dir m -> n = m.
Proof.
  unfold event_filename. intros H%(inj (String.app dir))%(inj (String.app "/event/")).
  by apply fmt06_inj, (string_app_inv_tail _ _ ".h5").
Qed.

Lemma rgb_filename_inj dir n m :
  rgb_filename dir n = rgb_filename dir m -> n = m.
Proof.
  unfold rgb_filename. intros H%(inj (String.app dir))%(inj (String.app "/frame/")).
  by apply fmt06_inj, (string_app_inv_tail _ _ "_rgb.jpg").
Qed.

Lemma depth_filename_inj dir n m :
  depth_filename dir n = depth_filename dir m -> n = m.
Proof.
  unfold depth_filename. intros H%(inj (String.app dir))%(inj (String.app "/frame/")).
  by apply fmt06_inj, (string_app_inv_tail _ _ "_depth.png").
Qed.

Lemma event_filename_not_rgb dir n m : event_filename dir n <> rgb_filename dir m.
Proof.
  unfold event_filename, rgb_filename. intros H%(inj (String.app dir)). discriminate.
Qed.

Lemma event_filename_not_depth dir n m : event_filename dir n <> depth_filename dir m.
Proof.
  unfold event_filename, depth_filename. intros H%(inj (String.app dir)). discriminate.
Qed.

Lemma rgb_filename_not_depth dir n m : rgb_filename dir n <> depth_filename dir m.
Proof.
  unfold rgb_filename, depth_filename.
  intros H%(inj (String.app dir))%(inj (String.app "/frame/")).
  apply (f_equal list_ascii_of_string) in H. rewrite !list_ascii_app in H.
  apply (f_equal reverse) in H. rewrite !reverse_app in H. discriminate.
Qed.

(** *** The files *)

Lemma store_snoc ws w : store (ws ++ [w]) = <[w.1 := w.2]> (store ws).
Proof. unfold store. by rewrite foldl_snoc. Qed.

(** A file holds what some write put there. *)
Lemma store_lookup_elem ws path a : store ws !! path = Some a -> (path, a) ∈ ws.
Proof.
  induction ws as [|[p' a'] ws IH] using rev_ind; [done|].
  rewrite store_snoc. simpl. destruct (decide (p' = path)) as [->|Hne].
  - rewrite lookup_insert_eq. intros [= ->]. apply elem_of_app. right. left.
  - rewrite lookup_insert_ne by done. intros H. apply elem_of_app. left. auto.
Qed.

(** A path written with one content only holds that content. *)
Lemma store_lookup_unique ws path a :
  (path, a) ∈ ws ->
  (forall a', (path, a') ∈ ws -> a' = a) ->
  store ws !! path = Some a.
Proof.
  induction ws as [|[p' a'] ws IH] using rev_ind; [by intros ?%elem_of_nil|].
  intros Hin Huniq. rewrite store_snoc. simpl.
  destruct (decide (p' = path)) as [->|Hne].
  - rewrite lookup_insert_eq. f_equal. apply Huniq, elem_of_app. right. left.
  - rewrite lookup_insert_ne by done. apply IH.
    + apply elem_of_app in Hin as [Hin|Hin]; [done|].
      apply list_elem_of_singleton in Hin. congruence.
    + intros a'' H. apply Huniq, elem_of_app. by left.
Qed.


(** The three writes of a task, by name and content. *)
Lemma elem_of_attempts dir b path a :
  (path, a) ∈ attempts dir b
  <-> path = event_filename dir (idx b)
      /\ a = H5 (bundle_event_volume b) (bundle_start_ts b) (bundle_end_ts b)
      \/ path = rgb_filename dir (idx b) /\ Jpeg <$> bundle_rgb b = Some a
      \/ path = depth_filename dir (idx b) /\ Png <$> bundle_depth b = Some a.
Proof.
  unfold attempts. rewrite elem_of_cons, elem_of_app. split.
  - intros [[= -> ->]|[H|H]]; [by left | right; left | right; right].
    + destruct (bundle_rgb b); [|by apply elem_of_nil in H].
      by apply list_elem_of_singleton in H as [= -> ->].
    + destruct (bundle_depth b); [|by apply elem_of_nil in H].
      by apply list_elem_of_singleton in H as [= -> ->].
  - intros [[-> ->]|[[-> H]|[-> H]]]; [by left | right; left | right; right].
    + destruct (bundle_rgb b); simplify_eq/=. left.
    + destruct (bundle_depth b); simplify_eq/=. left.
Qed.

(** *** The writes of a task *)

Lemma elem_of_then (c1 c2 : Stmt) w :
  w ∈ (then_ c1 c2).1 -> w ∈ c1.1 \/ c1.2 = false /\ w ∈ c2.1.
Proof.
  unfold then_. destruct c1 as [ws1 []]; simpl; [by left|].
  intros [H|H]%elem_of_app; [by left | by right].
Qed.

Lemma elem_of_with_h5 disk path b w :
  w ∈ (with_h5 disk path b).1 -> (with_h5 disk path b).1 = [w] /\ w.1 = path.
Proof.
  unfold with_h5. destruct (h5_outcome disk path); simpl;
    first [by intros ?%elem_of_nil | by intros ->%list_elem_of_singleton].
Qed.

Lemma with_h5_returns disk path b :
  (with_h5 disk path b).2 = false -> h5_outcome disk path = H5Written.
Proof. unfold with_h5. by destruct (h5_outcome disk path). Qed.

Lemma elem_of_imwrite disk path img w :
  w ∈ (imwrite disk path img).1 ->
  imwrite_outcome disk path = ImWritten /\ w.1 = path /\ img = Some w.2.
Proof.
  unfold imwrite. destruct img as [a|]; [|by intros ?%elem_of_nil].
  destruct (imwrite_outcome disk path); simpl;
    first [by intros ?%elem_of_nil | by intros ->%list_elem_of_singleton].
Qed.

(** A task leaves at most one write at each of its three paths: what the
    [with] block left of the container, and the images that [cv2.imwrite]
    wrote after the block had run to its end. *)
Lemma elem_of_writes disk dir b path a :
  (path, a) ∈ writes (async_write_task disk dir b) ->
  path = event_filename dir (idx b) /\ (with_h5 disk path b).1 = [(path, a)]
  \/ h5_outcome disk (event_filename dir (idx b)) = H5Written
     /\ imwrite_outcome disk path = ImWritten
     /\ (path = rgb_filename dir (idx b) /\ Jpeg <$> bundle_rgb b = Some a
         \/ path = depth_filename dir (idx b) /\ Png <$> bundle_depth b = Some a).
Proof.
  unfold async_write_task. cbn [writes].
  intros [H|[Hh5 H]]%elem_of_then.
  - apply elem_of_with_h5 in H as [H Hp]. simpl in Hp. subst path. by left.
  - apply with_h5_returns in Hh5. right. split; [done|].
    apply elem_of_then in H as [H|[_ H]];
      apply elem_of_imwrite in H as (Ho & Hp & Himg); simpl in Hp, Himg;
      subst path; (split; [done|]); [left | right]; done.
Qed.

(** Two writes to one path come from bundles with the same index, and from
    the same bundle they write the same content. *)
Lemma writes_same_path disk dir b b' path a a' :
  (path, a) ∈ writes (async_write_task disk dir b) ->
  (path, a') ∈ writes (async_write_task disk dir b') ->
  idx b = idx b' /\ (b = b' -> a = a').
Proof.
  intros [[-> Ha]|(_ & _ & [[-> Ha]|[-> Ha]])]%elem_of_writes
         [[Hp Ha']|(_ & _ & [[Hp Ha']|[Hp Ha']])]%elem_of_writes.
  - split; [by eapply event_filename_inj | intros ->; congruence].
  - by apply event_filename_not_rgb in Hp.
  - by apply event_filename_not_depth in Hp.
  - symmetry in Hp. by apply event_filename_not_rgb in Hp.
  - split; [by eapply rgb_filename_inj | intros ->; congruence].
  - by apply rgb_filename_not_depth in Hp.
  - symmetry in Hp. by apply event_filename_not_depth in Hp.
  - symmetry in Hp. by apply rgb_filename_not_depth in Hp.
  - split; [by eapply depth_filename_inj | intros ->; congruence].
Qed.



(** The writes of the pool, whatever their order, are writes of the tasks of
    the bundles. *)
Lemma pool_run_elem disk dir pairs ws w :
  pool_run_on disk dir (bundles_from 0 pairs) ws ->
  w ∈ ws ->
  exists k p, pairs !! k = Some p
              /\ w ∈ writes (async_write_task disk dir (bundle_of k p)).
Proof.
  unfold pool_run_on. intros -> Hw.
  apply list_elem_of_join in Hw as (l & Hw & Hl).
  apply list_elem_of_fmap in Hl as (b & -> & Hb).
  apply elem_of_lookup_imap in Hb as (k & p & -> & Hk).
  by exists k, p.
Qed.

Lemma pool_run_elem_2 disk dir pairs ws k p w :
  pool_run_on disk dir (bundles_from 0 pairs) ws ->
  pairs !! k = Some p ->
  w ∈ writes (async_write_task disk dir (bundle_of k p)) ->
  w ∈ ws.
Proof.
  unfold pool_run_on. intros -> Hk Hw.
  apply list_elem_of_join. eexists. split; [exact Hw|].
  apply list_elem_of_fmap. eexists. split; [done|].
  apply elem_of_lookup_imap. by exists k, p.
Qed.




(** Three matched pairs whose files are written in the reverse of the
    submission order. *)
Example workers_out_of_order :
  exists s' out ws,
    sync_process [tick (Some 1000) (Some 0); tick (Some 34000) (Some 33000);
                  tick (Some 67000) (Some 66000)] (init true "out")
    = Ok (s', out)
    /\ idx <$> executor s' = [0; 1; 2]%nat
    /\ pool_run "out" (fun _ => false) (executor s') ws
    /\ ws.*1 = ["out/frame/000002_depth.png"; "out/frame/000002_rgb.jpg";
                "out/event/000002.h5"; "out/frame/000001_depth.png";
                "out/frame/000001_rgb.jpg"; "out/event/000001.h5";
                "out/frame/000000_depth.png"; "out/frame/000000_rgb.jpg";
                "out/event/000000.h5"]
    /\ store ws !! "out/event/000001.h5" = Some (H5 [34000] 34000 67000)
    /\ store ws !! "out/frame/000001_rgb.jpg" = Some (Jpeg [33000])
    /\ store ws !! "out/frame/000001_depth.png" = Some (Png [33001]).
Proof.
  eexists _, _, (reverse (mjoin ((fun b => writes (async_write_task (raising (fun _ => false)) "out" b)) <$> _))).
  split; [vm_compute; reflexivity|]. split; [reflexivity|].
  split; [apply reverse_Permutation|]. vm_compute. repeat split.
Qed.

(** ** C8: pushing into a full capacity-5 channel *)

(** The slice channel drops the incoming slice: on a full queue the push
    returns at once, with the queue as it was and one warning more. *)
Lemma push_slice_full slice w :
  Queue.full (PropheseeCamera.slice_queue w) = true ->
  PropheseeCamera.push_slice slice w
  = Done (PropheseeCamera.mk (PropheseeCamera.slice_queue w)
            (PropheseeCamera.stdout w ++ [SliceQueueFull])).
Proof. intros H. unfold PropheseeCamera.push_slice. by rewrite H. Qed.

(** A push into the slice channel never blocks. *)
Lemma push_slice_returns slice w :
  exists w', PropheseeCamera.push_slice slice w = Done w'.
Proof.
  unfold PropheseeCamera.push_slice, Queue.put.
  destruct (Queue.full (PropheseeCamera.slice_queue w)); simpl; by eexists.
Qed.

(** Six slices pushed into the empty slice channel with nothing consuming:
    the first five are in the channel, the sixth is dropped with one
    warning. *)
Lemma push_six_slices x1 x2 x3 x4 x5 x6 :
  PropheseeCamera.push_slices [x1; x2; x3; x4; x5; x6]
    (PropheseeCamera.mk (Queue.mk 5 []) [])
  = Done (PropheseeCamera.mk (Queue.mk 5 [x1; x2; x3; x4; x5]) [SliceQueueFull]).
Proof. reflexivity. Qed.

(** The frame-to-sync channel does not: when [o_queue_sync] is full the
    worker prints the warning and then calls the blocking [put] all the
    same. *)
Lemma push_frame_sync_full c w :
  Queue.full (OrbbecWorker.o_queue w) = false ->
  Queue.full (OrbbecWorker.o_queue_sync w) = true ->
  exists w',
    OrbbecWorker.push_frame c w = Blocked w'
    /\ OrbbecWorker.o_queue_sync w' = OrbbecWorker.o_queue_sync w
    /\ OrbbecWorker.stdout w' = OrbbecWorker.stdout w ++ [OrbbecSyncQueueFull].
Proof.
  intros Ho Hs.
  unfold OrbbecWorker.push_frame, OrbbecWorker.make_room, OrbbecWorker.warn_sync_full.
  rewrite Ho, Hs. simpl. unfold Queue.put. simpl. rewrite Ho, Hs. by eexists.
Qed.

(** C8, at the failing input: [o_queue_sync] holds five frames, nothing
    consumes it, and a sixth frame is captured. The worker prints that it
    drops the frame, does not drop it, and is suspended inside
    [o_queue_sync.put] (the specification: the new frame is discarded and the
    producer is not blocked). *)
Theorem C8_full_sync_queue_blocks_the_worker :
  OrbbecWorker.push_frame (capture_at 165000)
    (worker_with_sync_queue [0; 33000; 66000; 99000; 132000])
  = Blocked
      (OrbbecWorker.mk
         (Queue.mk 1 [OrbbecWorker.display_of (capture_at 165000)])
         (Queue.mk 5 (frame_at <$> [0; 33000; 66000; 99000; 132000]))
         None [OrbbecSyncQueueFull]).
Proof. reflexivity. Qed.

(** ** C9: pushing into the full display channel *)

(** When [o_queue] is full the worker takes nothing out of it (it reaches
    for [p_queue]), and is then suspended inside [o_queue.put], with the
    stale item still in the channel. *)
Lemma push_frame_display_full c w :
  Queue.full (OrbbecWorker.o_queue w) = true ->
  exists w',
    OrbbecWorker.push_frame c w = Blocked w'
    /\ OrbbecWorker.o_queue w' = OrbbecWorker.o_queue w
    /\ Queue.items (OrbbecWorker.o_queue_sync w')
       = Queue.items (OrbbecWorker.o_queue_sync w).
Proof.
  intros Ho. unfold OrbbecWorker.push_frame.
  assert (OrbbecWorker.o_queue (OrbbecWorker.warn_sync_full (OrbbecWorker.make_room w))
          = OrbbecWorker.o_queue w
          /\ OrbbecWorker.o_queue_sync (OrbbecWorker.warn_sync_full (OrbbecWorker.make_room w))
             = OrbbecWorker.o_queue_sync w) as [Hq Hs].
  { unfold OrbbecWorker.warn_sync_full, OrbbecWorker.make_room. rewrite Ho.
    destruct (OrbbecWorker.p_queue w) as [q|]; [destruct (Queue.get_nowait q) as [[? ?]|]|];
      simpl; by destruct (Queue.full (OrbbecWorker.o_queue_sync w)). }
  unfold Queue.put at 1. rewrite Hq, Ho. eexists. by rewrite Hq, Hs.
Qed.

(** C9, at the failing input: [o_queue] holds a stale frame and a new frame
    is captured. The stale frame is not removed (where the name [p_queue] is
    unbound the [NameError] is swallowed; where it is bound, the event
    display loses an item instead), the new frame is not inserted, and the
    worker is suspended inside [o_queue.put] (the specification: the stale item is
    removed from that same channel and the new frame inserted, without
    blocking). *)
Theorem C9_full_display_queue_blocks_the_worker :
  OrbbecWorker.push_frame (capture_at 33000) (worker_with_stale_display None)
  = Blocked (worker_with_stale_display None)
  /\ OrbbecWorker.push_frame (capture_at 33000)
       (worker_with_stale_display
          (Some (Queue.mk 1 [ {| OrbbecWorker.ef_frame := [7]; OrbbecWorker.ef_ts := 5 |} ])))
     = Blocked (worker_with_stale_display (Some (Queue.mk 1 []))).
Proof. split; reflexivity. Qed.

(** * Further properties of the synchronizer *)

(** ** The buffers stay within [maxlen] and are consumed from the front *)

Lemma append_length_le {A} (maxlen : nat) (d : list A) (x : A) :
  (0 < maxlen)%nat -> (length d <= maxlen)%nat ->
  (length (deque.append maxlen d x) <= maxlen)%nat.
Proof.
  intros Hm Hd. unfold deque.append. case_decide.
  - rewrite length_app. simpl. lia.
  - rewrite length_drop, length_app. simpl. lia.
Qed.

Lemma append_suffix {A} (maxlen : nat) (d : list A) (x : A) :
  deque.append maxlen d x `suffix_of` d ++ [x].
Proof. unfold deque.append. case_decide; [done | apply suffix_drop]. Qed.

Lemma sync_post_suffix s s' out :
  sync_post s s' out ->
  evs_buffer s' `suffix_of` evs_buffer s /\ orb_buffer s' `suffix_of` orb_buffer s.
Proof.
  intros Hpost. inversion Hpost as
    [Hidle|e es f fs n d orb_n He Hf delta0 Hmin Hn Hd|e es f fs n d He Hf delta0 Hmin Hd r];
    subst.
  - done.
  - destruct (committed_fields (seeded s e f) e orb_n es (drop (S n) (f :: fs))
                (delta0 + (start_ts e - (rgb_ts orb_n + delta0)) `quot` 100) d)
      as (-> & -> & _).
    rewrite He, Hf. split; [by apply suffix_cons_r | apply suffix_drop].
  - subst r. unfold evicted. rewrite He, Hf.
    repeat case_bool_decide; simpl;
      rewrite ?seeded_evs_buffer, ?seeded_orb_buffer, ?He, ?Hf;
      split; try done; by apply suffix_cons_r.
Qed.

Lemma iteration_suffix k s s' out :
  iteration k s = Ok (s', out) ->
  evs_buffer s' `suffix_of` evs_buffer s ++ option_list (slice_in k)
  /\ orb_buffer s' `suffix_of` orb_buffer s ++ option_list (frame_in k).
Proof.
  intros Hit. destruct (iteration_spec k s) as (s1 & out1 & Hpost & Hit').
  rewrite Hit in Hit'. injection Hit' as -> ->.
  destruct (sync_post_suffix _ _ _ Hpost) as [He Hf].
  destruct (pull_fields k s) as (Hpe & Hpf & _).
  destruct (monitored_fields k s1) as (-> & -> & _).
  rewrite Hpe in He. rewrite Hpf in Hf. split.
  - etrans; [exact He|]. destruct (slice_in k); simpl;
      [apply append_suffix | by rewrite app_nil_r].
  - etrans; [exact Hf|]. destruct (frame_in k); simpl;
      [apply append_suffix | by rewrite app_nil_r].
Qed.

Lemma iteration_lengths k s s' out :
  iteration k s = Ok (s', out) ->
  (length (evs_buffer s) <= buffer_maxlen)%nat ->
  (length (orb_buffer s) <= buffer_maxlen)%nat ->
  (length (evs_buffer s') <= buffer_maxlen)%nat
  /\ (length (orb_buffer s') <= buffer_maxlen)%nat.
Proof.
  intros Hit He Hf. destruct (iteration_spec k s) as (s1 & out1 & Hpost & Hit').
  rewrite Hit in Hit'. injection Hit' as -> ->.
  destruct (sync_post_suffix _ _ _ Hpost) as [He1%suffix_length Hf1%suffix_length].
  destruct (pull_fields k s) as (Hpe & Hpf & _).
  destruct (monitored_fields k s1) as (-> & -> & _).
  rewrite Hpe in He1. rewrite Hpf in Hf1.
  assert (0 < buffer_maxlen)%nat by (unfold buffer_maxlen; lia).
  split.
  - etrans; [exact He1|]. destruct (slice_in k); [by apply append_length_le | done].
  - etrans; [exact Hf1|]. destruct (frame_in k); [by apply append_length_le | done].
Qed.

(** X1. Bounded memory: whatever the loop pulls, and for as long as it runs,
    neither buffer ever holds more than [maxlen = 100] elements. *)
Theorem X1_buffers_bounded (ticks : list Tick) (s : t) :
  (length (evs_buffer s) <= 100)%nat ->
  (length (orb_buffer s) <= 100)%nat ->
  exists s' out,
    sync_process ticks s = Ok (s', out)
    /\ (length (evs_buffer s') <= 100)%nat
    /\ (length (orb_buffer s') <= 100)%nat.
Proof.
  intros He Hf.
  destruct (sync_process_run (fun _ s s' _ =>
      (length (evs_buffer s) <= buffer_maxlen)%nat ->
      (length (orb_buffer s) <= buffer_maxlen)%nat ->
      (length (evs_buffer s') <= buffer_maxlen)%nat
      /\ (length (orb_buffer s') <= buffer_maxlen)%nat))
    with (ticks := ticks) (s := s) as (s' & out & Hrun & HP).
  - done.
  - intros k ticks' s0 s1 out1 s2 out2 Hit _ IH He0 Hf0.
    destruct (iteration_lengths _ _ _ _ Hit He0 Hf0). by apply IH.
  - exists s', out. split; [done|]. by apply HP.
Qed.

Lemma X1_witness :
  exists s' out,
    sync_process (slice_tick <$> (slice_at <$> [0; 1; 2]))
      (holding None (Z.of_nat <$> seq 0 99) []) = Ok (s', out)
    /\ (length (evs_buffer s') <= 100)%nat
    /\ (length (orb_buffer s') <= 100)%nat.
Proof.
  apply (X1_buffers_bounded (slice_tick <$> (slice_at <$> [0; 1; 2]))
           (holding None (Z.of_nat <$> seq 0 99) [])).
  - simpl. lia.
  - simpl. lia.
Defined.

(** X2. The buffers are consumed from the front only: after a run, what a
    buffer holds is a suffix of what it held at the start followed by what the
    loop pulled into it (matched, stale and overflowing elements all leave at
    the old end). *)
Theorem X2_buffers_are_suffixes (ticks : list Tick) (s : t) :
  exists s' out,
    sync_process ticks s = Ok (s', out)
    /\ evs_buffer s' `suffix_of` evs_buffer s ++ slices_in ticks
    /\ orb_buffer s' `suffix_of` orb_buffer s ++ frames_in ticks.
Proof.
  apply (sync_process_run (fun ticks s s' _ =>
    evs_buffer s' `suffix_of` evs_buffer s ++ slices_in ticks
    /\ orb_buffer s' `suffix_of` orb_buffer s ++ frames_in ticks)).
  - intros s0. simpl. by rewrite !app_nil_r.
  - intros k ticks' s0 s1 out1 s2 out2 Hit _ [IHe IHf].
    destruct (iteration_suffix _ _ _ _ Hit) as [He Hf].
    unfold slices_in, frames_in in *. rewrite !omap_cons_option_list. split.
    + etrans; [exact IHe|]. rewrite (assoc_L (++)). by apply suffix_app.
    + etrans; [exact IHf|]. rewrite (assoc_L (++)). by apply suffix_app.
Qed.

(** ** The samples of the monitor *)

Lemma min_diffs_app out out' : min_diffs (out ++ out') = min_diffs out ++ min_diffs out'.
Proof. apply omap_app. Qed.

Lemma reported_app out out' : reported (out ++ out') = reported out ++ reported out'.
Proof. apply bind_app. Qed.

Lemma seed_out_silent s e f :
  min_diffs (seed_out s e f) = [] /\ reported (seed_out s e f) = [].
Proof. unfold seed_out. by destruct (delta_orb_to_evs s). Qed.

Lemma evicted_silent evs_ts delta s es oldest newest fs :
  min_diffs (evicted evs_ts delta s es oldest newest fs).2 = []
  /\ reported (evicted evs_ts delta s es oldest newest fs).2 = [].
Proof. unfold evicted. by repeat case_bool_decide. Qed.

(** A call of [sync] appends the error of its match, if any, to the samples;
    the error is a distance below the threshold. *)
Lemma sync_post_samples s s' out :
  sync_post s s' out ->
  diff_samples s' = diff_samples s ++ min_diffs out
  /\ Forall (fun d => 0 <= d < sync_threshold_us) (min_diffs out)
  /\ reported out = [].
Proof.
  intros Hpost. inversion Hpost as
    [Hidle|e es f fs n d orb_n He Hf delta0 Hmin Hn Hd|e es f fs n d He Hf delta0 Hmin Hd r];
    subst.
  - by rewrite app_nil_r.
  - destruct (committed_fields (seeded s e f) e orb_n es (drop (S n) (f :: fs))
                (delta0 + (start_ts e - (rgb_ts orb_n + delta0)) `quot` 100) d)
      as (_ & _ & _ & _ & -> & _).
    destruct (seed_out_silent s e f) as [Hm Hr].
    rewrite min_diffs_app, reported_app, Hm, Hr, seeded_diff_samples. simpl.
    split; [done|]. split; [|done]. apply Forall_singleton.
    destruct Hmin as ((orb' & _ & <-) & _). unfold diff_of in *. lia.
  - subst r.
    destruct (evicted_fields (start_ts e) delta0 (seeded s e f) es f
                (default f (last fs)) fs) as (_ & _ & -> & _).
    destruct (seed_out_silent s e f) as [Hm Hr].
    destruct (evicted_silent (start_ts e) delta0 (seeded s e f) es f
                (default f (last fs)) fs) as [Hm' Hr'].
    simpl. rewrite min_diffs_app, reported_app, Hm, Hr, Hm', Hr', seeded_diff_samples.
    by rewrite app_nil_r.
Qed.

(** The monitor reports the samples it clears. *)
Lemma monitored_samples k s :
  reported (monitored k s).2 ++ diff_samples (monitored k s).1 = diff_samples s
  /\ min_diffs (monitored k s).2 = [].
Proof.
  unfold monitored, monitor_buffers. destruct (monitor_due k); simpl; [|done].
  destruct (_ || _); simpl; by rewrite !app_nil_r.
Qed.

(** X3. No sample is lost or invented between [sync] and the monitor: over a
    run, the samples that the monitor reported, followed by the samples still
    waiting in [diff_samples], are the samples held at the start followed by
    the precision errors of the matches, in match order; and every such error
    is at least 0 and below [sync_threshold_us]. *)
Theorem X3_samples_conserved (ticks : list Tick) (s : t) :
  exists s' out,
    sync_process ticks s = Ok (s', out)
    /\ reported out ++ diff_samples s' = diff_samples s ++ min_diffs out
    /\ Forall (fun d => 0 <= d < 5000) (min_diffs out).
Proof.
  apply (sync_process_run (fun _ s s' out =>
    reported out ++ diff_samples s' = diff_samples s ++ min_diffs out
    /\ Forall (fun d => 0 <= d < 5000) (min_diffs out))).
  - intros s0. simpl. by rewrite app_nil_r.
  - intros k ticks' s0 s1 out1 s2 out2 Hit _ [IHs IHr].
    destruct (iteration_spec k s0) as (s1' & out1' & Hpost & Hit').
    rewrite Hit in Hit'. injection Hit' as -> ->.
    destruct (sync_post_samples _ _ _ Hpost) as (Hd & Hrange & Hrep).
    destruct (monitored_samples k s1') as [Hmon Hmd].
    assert (diff_samples (pull k s0) = diff_samples s0) as Hpull
      by (unfold pull; by destruct (slice_in k), (frame_in k)).
    rewrite Hpull in Hd.
    rewrite !reported_app, !min_diffs_app, Hrep, Hmd, app_nil_r. simpl. split.
    + rewrite <- (assoc_L (++)), IHs, (assoc_L (++)), Hmon, Hd.
      by rewrite (assoc_L (++)).
    + apply Forall_app. split; [exact Hrange | exact IHr].
Qed.

(** ** How far the offset moves *)

Lemma quot_100_spec (e : Z) :
  exists r, e = 100 * (e `quot` 100) + r
            /\ (0 <= e -> 0 <= r < 100) /\ (e <= 0 -> -100 < r <= 0).
Proof.
  exists (e `rem` 100). split; [apply Z.quot_rem'|]. split; intros H.
  - apply Z.rem_bound_pos; lia.
  - pose proof (Z.rem_bound_abs e 100 ltac:(lia)).
    pose proof (Z.rem_nonpos e 100 ltac:(lia) H). lia.
Qed.

(** One iteration on a seeded synchronizer moves the offset by at most 49. *)
Lemma iteration_drift k s s' out offset :
  delta_orb_to_evs s = Some offset ->
  iteration k s = Ok (s', out) ->
  exists offset',
    delta_orb_to_evs s' = Some offset'
    /\ Z.abs (offset' - offset) <= 49 * Z.of_nat (length (matched_pairs out)).
Proof.
  intros Hoff Hit. destruct (iteration_spec k s) as (s1 & out1 & Hpost & Hit').
  rewrite Hit in Hit'. injection Hit' as -> ->.
  destruct (pull_fields k s) as (_ & _ & Hd & _). rewrite <- Hd in Hoff.
  destruct (sync_post_seeded _ _ _ _ Hpost Hoff) as (_ & _ & Hm).
  destruct (monitored_fields k s1) as (_ & _ & -> & _).
  rewrite matched_pairs_app, (proj1 (monitored_out k s1)), app_nil_r.
  destruct (matched_pairs out1) as [|[e f] [|]]; [| |done].
  - exists offset. split; [done|]. simpl. lia.
  - destruct Hm as (Herr & _ & ->). eexists. split; [done|]. simpl.
    destruct (quot_100_spec (start_ts e - (rgb_ts f + offset))) as (r & ? & ? & ?).
    unfold sync_threshold_us in Herr. lia.
Qed.

(** X4. Drift is slow: from a seeded state, a run that commits [K] matches
    moves the offset by at most [49 * K] microseconds (each match corrects by
    a hundredth of an error below 5000, truncated); the offset stays set. *)
Theorem X4_drift_bounded (ticks : list Tick) (s : t) (offset : Z) :
  delta_orb_to_evs s = Some offset ->
  exists s' out offset',
    sync_process ticks s = Ok (s', out)
    /\ delta_orb_to_evs s' = Some offset'
    /\ Z.abs (offset' - offset) <= 49 * Z.of_nat (length (matched_pairs out)).
Proof.
  intros Hoff.
  destruct (sync_process_run (fun _ s s' out =>
      forall offset, delta_orb_to_evs s = Some offset ->
      exists offset',
        delta_orb_to_evs s' = Some offset'
        /\ Z.abs (offset' - offset) <= 49 * Z.of_nat (length (matched_pairs out))))
    with (ticks := ticks) (s := s) as (s' & out & Hrun & HP).
  - intros s0 o Ho. exists o. split; [done|]. simpl. lia.
  - intros k ticks' s0 s1 out1 s2 out2 Hit _ IH o Ho.
    destruct (iteration_drift _ _ _ _ _ Ho Hit) as (o1 & Ho1 & Hb1).
    destruct (IH _ Ho1) as (o2 & Ho2 & Hb2).
    exists o2. split; [done|]. rewrite matched_pairs_app, length_app. lia.
  - destruct (HP _ Hoff) as (offset' & ? & ?). by exists s', out, offset'.
Qed.

Lemma X4_witness :
  exists s' out offset',
    sync_process [tick (Some 34250) (Some 33000); tick (Some 67500) (Some 66000)]
      (holding (Some 1000) [] []) = Ok (s', out)
    /\ delta_orb_to_evs s' = Some offset'
    /\ Z.abs (offset' - 1000) <= 49 * Z.of_nat (length (matched_pairs out)).
Proof.
  exact (X4_drift_bounded
           [tick (Some 34250) (Some 33000); tick (Some 67500) (Some 66000)]
           (holding (Some 1000) [] []) 1000 eq_refl).
Defined.

(** X5. The correction of a match moves the offset towards the matched pair
    and never past it: the error of the pair under the corrected offset has
    the sign of the error under the old offset and is no larger. An error
    below 100 microseconds changes nothing (its hundredth truncates to 0);
    an error of 100 or more does change the offset. *)
Theorem X5_correction_does_not_overshoot (k : Tick) (s : t) (offset : Z) :
  delta_orb_to_evs s = Some offset ->
  exists s' out offset',
    iteration k s = Ok (s', out)
    /\ delta_orb_to_evs s' = Some offset'
    /\ forall matched_evs matched_orb,
         matched_pairs out = [(matched_evs, matched_orb)] ->
         let err := start_ts matched_evs - (rgb_ts matched_orb + offset) in
         let err' := start_ts matched_evs - (rgb_ts matched_orb + offset') in
         (0 <= err -> 0 <= err' <= err)
         /\ (err <= 0 -> err <= err' <= 0)
         /\ (Z.abs err < 100 <-> offset' = offset).
Proof.
  intros Hoff. destruct (iteration_spec k s) as (s1 & out1 & Hpost & Hit).
  destruct (pull_fields k s) as (_ & _ & Hd & _). rewrite <- Hd in Hoff.
  destruct (sync_post_seeded _ _ _ _ Hpost Hoff) as (_ & _ & Hm).
  destruct (monitored_fields k s1) as (_ & _ & Hd' & _).
  assert (exists offset', delta_orb_to_evs s1 = Some offset') as [offset' Ho'].
  { destruct (matched_pairs out1) as [|[e f] [|]]; [by eexists | | done].
    destruct Hm as (_ & _ & ->). by eexists. }
  exists (monitored k s1).1, (out1 ++ (monitored k s1).2), offset'.
  split; [done|]. split; [by rewrite Hd'|].
  intros e f Hpair. rewrite matched_pairs_app, (proj1 (monitored_out k s1)), app_nil_r in Hpair.
  rewrite Hpair in Hm. destruct Hm as (_ & _ & Ho''). rewrite Ho' in Ho''.
  injection Ho'' as ->.
  destruct (quot_100_spec (start_ts e - (rgb_ts f + offset))) as (r & ? & ? & ?).
  simpl. lia.
Qed.

Lemma X5_witness :
  exists s' out offset',
    iteration (tick (Some 34250) (Some 33000)) (holding (Some 1000) [] []) = Ok (s', out)
    /\ delta_orb_to_evs s' = Some offset'
    /\ forall matched_evs matched_orb,
         matched_pairs out = [(matched_evs, matched_orb)] ->
         let err := start_ts matched_evs - (rgb_ts matched_orb + 1000) in
         let err' := start_ts matched_evs - (rgb_ts matched_orb + offset') in
         (0 <= err -> 0 <= err' <= err)
         /\ (err <= 0 -> err <= err' <= 0)
         /\ (Z.abs err < 100 <-> offset' = 1000).
Proof.
  exact (X5_correction_does_not_overshoot (tick (Some 34250) (Some 33000))
           (holding (Some 1000) [] []) 1000 eq_refl).
Defined.

(** ** The first match *)

(** X6. The synchronizer trusts the first pair it sees: while the offset is
    unset, a call of [sync] with both buffers non-empty always matches the
    front slice with the front frame, with precision error 0, whatever their
    timestamps and whatever else the buffers hold; it pops exactly these two
    and sets the offset to [start_ts - rgb_ts] of the pair. *)
Theorem X6_first_pair_always_matches
    (s : t) (evs_data : EventSlice) (es : list EventSlice)
    (orb_data : Frame) (fs : list Frame) :
  delta_orb_to_evs s = None ->
  evs_buffer s = evs_data :: es ->
  orb_buffer s = orb_data :: fs ->
  let d0 := start_ts evs_data - rgb_ts orb_data in
  exists s',
    sync s = Ok (s', [PrintDelta d0; Matched evs_data orb_data 0])
    /\ evs_buffer s' = es
    /\ orb_buffer s' = fs
    /\ delta_orb_to_evs s' = Some d0
    /\ diff_samples s' = diff_samples s ++ [0].
Proof.
  intros Hnone He Hf d0.
  assert (offset_in_force s evs_data orb_data = d0) as Hoff
    by (unfold offset_in_force; by rewrite Hnone).
  destruct (sync_scan s evs_data orb_data fs) as (n & d & Hscan & Hmin).
  rewrite Hoff in Hscan, Hmin.
  destruct Hmin as ((orb_n & Hn & Hd) & Hle & Hlt).
  assert (diff_of d0 (start_ts evs_data) orb_data = 0) as Hzero
    by (unfold diff_of, d0; lia).
  assert (d = 0) as ->.
  { specialize (Hle 0%nat orb_data eq_refl). unfold diff_of in *. lia. }
  assert (n = 0%nat) as ->.
  { destruct n as [|n]; [done|].
    specialize (Hlt 0%nat orb_data ltac:(lia) eq_refl). lia. }
  simpl in Hn. injection Hn as <-.
  eexists. split.
  - erewrite sync_commit; [|done|done|by rewrite Hoff|done|done].
    rewrite Hoff. unfold seed_out. rewrite Hnone. reflexivity.
  - destruct (committed_fields (seeded s evs_data orb_data) evs_data orb_data es
                (drop 1 (orb_data :: fs))
                (d0 + (start_ts evs_data - (rgb_ts orb_data + d0)) `quot` 100) 0)
      as (-> & -> & -> & _ & -> & _).
    rewrite seeded_diff_samples.
    replace (start_ts evs_data - (rgb_ts orb_data + d0)) with 0 by (unfold d0; lia).
    by rewrite Z.add_0_r.
Qed.

(** A late slice against an early frame, and a second frame that would fit
    better: the fronts are matched all the same. *)
Lemma X6_witness :
  exists s',
    sync (holding None [500000; 533000] [0; 500000])
    = Ok (s', [PrintDelta (start_ts (slice_at 500000) - rgb_ts (frame_at 0));
               Matched (slice_at 500000) (frame_at 0) 0])
    /\ evs_buffer s' = [slice_at 533000]
    /\ orb_buffer s' = [frame_at 500000]
    /\ delta_orb_to_evs s' = Some (start_ts (slice_at 500000) - rgb_ts (frame_at 0))
    /\ diff_samples s' = [] ++ [0].
Proof.
  exact (X6_first_pair_always_matches (holding None [500000; 533000] [0; 500000])
           (slice_at 500000) [slice_at 533000] (frame_at 0) [frame_at 500000]
           eq_refl eq_refl eq_refl).
Defined.

(** ** Recording disabled *)

(** X7. With [record_enabled] false nothing is ever handed to the pool: over
    any run no bundle is submitted and [record_idx] does not move. *)
Theorem X7_disabled_recorder_submits_nothing (ticks : list Tick) (s : t) :
  record_enabled s = false ->
  exists s' out,
    sync_process ticks s = Ok (s', out)
    /\ record_enabled s' = false
    /\ executor s' = executor s
    /\ record_idx s' = record_idx s.
Proof.
  intros Hoff.
  destruct (sync_process_run (fun _ s s' _ =>
      record_enabled s = false ->
      record_enabled s' = false /\ executor s' = executor s
      /\ record_idx s' = record_idx s))
    with (ticks := ticks) (s := s) as (s' & out & Hrun & HP).
  - done.
  - intros k ticks' s0 s1 out1 s2 out2 Hit _ IH Hen.
    destruct (iteration_spec k s0) as (s1' & out1' & Hpost & Hit').
    rewrite Hit in Hit'. injection Hit' as -> ->.
    destruct (sync_post_recorder _ _ _ Hpost) as (Hr & _ & Hi & Hx).
    destruct (pull_fields k s0) as (_ & _ & _ & _ & Hpr & _ & Hpi & Hpx).
    destruct (monitored_fields k s1') as (_ & _ & _ & _ & Hmr & _ & Hmi & Hmx).
    rewrite Hpr, Hen in *. rewrite Hpi, Hpx, app_nil_r, Nat.add_0_r in *.
    destruct IH as (Hr2 & Hx2 & Hi2); [by rewrite Hmr|].
    by rewrite Hr2, Hx2, Hi2, Hmx, Hmi, Hx, Hi.
  - exists s', out. split; [done|]. by apply HP.
Qed.

Lemma X7_witness :
  exists s' out,
    sync_process [tick (Some 1000) (Some 0); tick (Some 34000) (Some 33000)]
      (init false "out") = Ok (s', out)
    /\ record_enabled s' = false
    /\ executor s' = []
    /\ record_idx s' = 0%nat.
Proof.
  exact (X7_disabled_recorder_submits_nothing
           [tick (Some 1000) (Some 0); tick (Some 34000) (Some 33000)]
           (init false "out") eq_refl).
Defined.

(** ** Overflow of a buffer *)

(** An iteration that finds no frame, buffered or new: it pulls, skips
    [sync] and monitors. *)
Lemma iteration_no_frame (k : Tick) (s : t) :
  orb_buffer s = [] ->
  frame_in k = None ->
  iteration k s = Ok (monitored k (pull k s)).
Proof.
  intros Hf Hk. unfold iteration.
  destruct (pull_fields k s) as (_ & Ho & _). rewrite Hk, Hf in Ho.
  rewrite Ho. simpl. rewrite andb_false_r. simpl.
  fold (monitored k (pull k s)). by destruct (monitored k (pull k s)).
Qed.

Lemma sync_process_cons_Ok k ticks s s1 out1 :
  iteration k s = Ok (s1, out1) ->
  sync_process (k :: ticks) s
  = (r ← sync_process ticks s1; Ok (r.1, out1 ++ r.2)).
Proof.
  intros H. simpl. rewrite H. simpl. by destruct (sync_process ticks s1) as [[? ?]|].
Qed.

Lemma monitored_lines k s :
  Forall monitor_line (monitored k s).2
  /\ (monitor_due k = false -> (monitored k s).2 = []).
Proof.
  unfold monitored, monitor_buffers. destruct (monitor_due k); simpl; [|done].
  split; [|done]. destruct (_ || _); repeat constructor.
Qed.

(** Appending to a buffer of at most 100 keeps the newest 100. *)
Lemma append_newest {A} (b : list A) (x : A) (l : list A) :
  (length b <= 100)%nat ->
  drop (length (deque.append buffer_maxlen b x ++ l) - 100)
       (deque.append buffer_maxlen b x ++ l)
  = drop (length (b ++ x :: l) - 100) (b ++ x :: l).
Proof.
  intros Hlen. unfold deque.append, buffer_maxlen. case_decide as Hfull.
  - by rewrite <- (assoc_L (++)).
  - destruct b as [|y b]; [simpl in *; lia|].
    assert (length b = 99%nat) as H99 by (simpl in *; lia).
    cbn [app drop]. rewrite drop_0, <- (assoc_L (++)). cbn [app].
    rewrite !length_cons, !length_app, !length_cons, H99.
    replace (99 + S (length l) - 100)%nat with (length l) by lia.
    replace (S (99 + S (length l)) - 100)%nat with (S (length l)) by lia.
    reflexivity.
Qed.

(** X8. Overflow of the event buffer is not reported when it happens: while
    no frame arrives, the slices pulled pile up in [evs_buffer]; once it
    holds 100, each further slice pushes the oldest one out, and the only
    lines printed during the run are those of the periodic monitor (nothing
    at all when no monitor tick falls in the run). After the run the buffer
    holds the newest 100 of the slices it held and pulled. *)
Theorem X8_event_overflow_is_not_reported (ticks : list Tick) (s : t) :
  orb_buffer s = [] ->
  Forall (fun k => frame_in k = None) ticks ->
  (length (evs_buffer s) <= 100)%nat ->
  exists s' out,
    sync_process ticks s = Ok (s', out)
    /\ evs_buffer s'
       = drop (length (evs_buffer s ++ slices_in ticks) - 100)
           (evs_buffer s ++ slices_in ticks)
    /\ orb_buffer s' = []
    /\ Forall monitor_line out
    /\ (Forall (fun k => monitor_due k = false) ticks -> out = []).
Proof.
  revert s. induction ticks as [|k ticks IH]; intros s Hf Hno Hlen.
  - exists s, []. simpl. split; [done|]. split; [|done].
    rewrite app_nil_r. replace (length (evs_buffer s) - 100)%nat with 0%nat by lia.
    by rewrite drop_0.
  - apply Forall_cons in Hno as [Hk Hno].
    pose proof (iteration_no_frame k s Hf Hk) as Hit.
    destruct (monitored k (pull k s)) as [s1 out1] eqn:Hm.
    destruct (pull_fields k s) as (Hpe & Hpo & _).
    destruct (monitored_fields k (pull k s)) as (Hme & Hmo & _).
    destruct (monitored_lines k (pull k s)) as (Hlines & Hquiet).
    rewrite Hm in Hme, Hmo, Hlines, Hquiet. simpl in Hme, Hmo, Hlines, Hquiet.
    rewrite Hk, Hf in Hpo. rewrite Hpe in Hme. rewrite Hpo in Hmo.
    destruct (IH s1) as (s' & out & Hrun & He & Hf' & Hall & Hnone); [done..| |].
    { rewrite Hme. destruct (slice_in k); [|done].
      apply (append_length_le buffer_maxlen); [unfold buffer_maxlen; lia | done]. }
    exists s', (out1 ++ out).
    rewrite (sync_process_cons_Ok _ _ _ _ _ Hit), Hrun. simpl.
    split; [done|]. split; [|split; [done|split]].
    + rewrite He, Hme. unfold slices_in. cbn [omap list_omap].
      fold (omap slice_in ticks). destruct (slice_in k) as [x|]; [|done].
      cbn [app]. by apply append_newest.
    + by apply Forall_app.
    + intros [Hk' Hrest]%Forall_cons. by rewrite (Hquiet Hk'), (Hnone Hrest).
Qed.

Lemma X8_witness :
  exists s' out,
    sync_process [slice_only_tick (Some 100) false; slice_only_tick None true;
                  slice_only_tick (Some 101) true]
      (holding None (Z.of_nat <$> seq 0 99) []) = Ok (s', out)
    /\ evs_buffer s' = drop 1 (slice_at <$> ((Z.of_nat <$> seq 0 99) ++ [100; 101]))
    /\ orb_buffer s' = []
    /\ Forall monitor_line out
    /\ (Forall (fun k => monitor_due k = false)
          [slice_only_tick (Some 100) false; slice_only_tick None true;
           slice_only_tick (Some 101) true] -> out = []).
Proof.
  exact (X8_event_overflow_is_not_reported
           [slice_only_tick (Some 100) false; slice_only_tick None true;
            slice_only_tick (Some 101) true]
           (holding None (Z.of_nat <$> seq 0 99) [])
           eq_refl ltac:(repeat constructor) ltac:(simpl; lia)).
Defined.

(** The run of X8's sample: the slice at 0 is gone, and what is printed is
    what the monitor prints at its two ticks. *)
Example overflow_across_monitor_ticks :
  exists s',
    sync_process [slice_only_tick (Some 100) false; slice_only_tick None true;
                  slice_only_tick (Some 101) true]
      (holding None (Z.of_nat <$> seq 0 99) [])
    = Ok (s', [PrintMonitor 100 0 0 []; PrintCritical;
               PrintMonitor 100 0 0 []; PrintCritical])
    /\ head (evs_buffer s') = Some (slice_at 1)
    /\ length (evs_buffer s') = 100%nat.
Proof. eexists. split; [vm_compute; reflexivity | split; reflexivity]. Qed.

(** ** A slice that is neither matched nor dropped *)

(** The skipped call of an iteration is a call that returns at once. *)
Lemma iteration_as_sync k s :
  iteration k s
  = (r ← sync (pull k s);
     Ok ((monitored k r.1).1, r.2 ++ (monitored k r.1).2)).
Proof.
  unfold iteration. set (p := pull k s).
  destruct (bool_decide (0 < length (evs_buffer p))%nat
            && bool_decide (0 < length (orb_buffer p))%nat) eqn:Hb.
  - destruct (sync p) as [[s1 out1]|]; simpl; [|done].
    fold (monitored k s1). by destruct (monitored k s1).
  - replace (sync p) with (Ok (p, @nil Event)).
    + simpl. fold (monitored k p). by destruct (monitored k p).
    + unfold sync. apply andb_false_iff in Hb as [Hb|Hb];
        apply bool_decide_eq_false in Hb.
      * destruct (evs_buffer p); simpl in *; [done | lia].
      * destruct (orb_buffer p); simpl in *; [by rewrite orb_true_r | lia].
Qed.

(** A seeded call in which no frame is within the threshold of the front
    slice, the oldest frame is not more than the threshold after it and the
    newest frame not more than the threshold before it, changes nothing. *)
Lemma sync_waits s offset evs_data es oldest fs :
  delta_orb_to_evs s = Some offset ->
  evs_buffer s = evs_data :: es ->
  orb_buffer s = oldest :: fs ->
  (forall orb, orb ∈ oldest :: fs ->
               sync_threshold_us <= diff_of offset (start_ts evs_data) orb) ->
  rgb_ts oldest + offset - sync_threshold_us <= start_ts evs_data ->
  start_ts evs_data <= rgb_ts (default oldest (last fs)) + offset + sync_threshold_us ->
  sync s = Ok (s, []).
Proof.
  intros Hoff He Hf Hfar Hold Hnew.
  assert (offset_in_force s evs_data oldest = offset) as Ho
    by (unfold offset_in_force; by rewrite Hoff).
  destruct (sync_scan s evs_data oldest fs) as (n & d & Hscan & (orb_n & Hn & Hd) & _).
  rewrite Ho in Hscan, Hd.
  erewrite sync_evict; [|done|done|by rewrite Ho|].
  - rewrite Ho. unfold seed_out, seeded, evicted. rewrite Hoff.
    rewrite bool_decide_eq_false_2 by lia.
    rewrite bool_decide_eq_false_2 by lia. done.
  - rewrite <- Hd. by apply Hfar, list_elem_of_lookup_2 with n.
Qed.

(** X9. Head-of-line blocking. Take a seeded synchronizer whose front slice
    has no frame within the threshold, whose oldest frame is not more than the
    threshold after the slice, and all of whose other frames, buffered or
    still to come, are at least the threshold after it (the frame of the
    slice was lost, or sits exactly at the threshold). Then, for as long as
    neither buffer overflows, the loop matches nothing and drops nothing:
    every slice and every frame pulled queues up behind the front slice, and
    the offset does not move. *)
Theorem X9_head_of_line_blocking
    (ticks : list Tick) (s : t) (offset : Z)
    (evs_data : EventSlice) (es : list EventSlice)
    (oldest next : Frame) (fs : list Frame) :
  delta_orb_to_evs s = Some offset ->
  evs_buffer s = evs_data :: es ->
  orb_buffer s = oldest :: next :: fs ->
  ~ diff_of offset (start_ts evs_data) oldest < 5000 ->
  rgb_ts oldest + offset <= start_ts evs_data + 5000 ->
  Forall (fun orb => start_ts evs_data + 5000 <= rgb_ts orb + offset)
    (next :: fs ++ frames_in ticks) ->
  (length (evs_buffer s) + length (slices_in ticks) <= 100)%nat ->
  (length (orb_buffer s) + length (frames_in ticks) <= 100)%nat ->
  exists s' out,
    sync_process ticks s = Ok (s', out)
    /\ matched_pairs out = []
    /\ evs_buffer s' = evs_buffer s ++ slices_in ticks
    /\ orb_buffer s' = orb_buffer s ++ frames_in ticks
    /\ delta_orb_to_evs s' = Some offset.
Proof.
  revert s es fs.
  induction ticks as [|k ticks IH]; intros s es fs Hoff He Hf Hfar Hold Hlater Hle Hlf.
  - exists s, []. simpl. by rewrite !app_nil_r.
  - (* the pull appends, without overflow *)
    unfold slices_in, frames_in in *. rewrite !omap_cons_option_list in *.
    destruct (pull_fields k s) as (Hpe & Hpf & Hpd & _).
    assert (evs_buffer (pull k s) = evs_data :: es ++ option_list (slice_in k)) as Hpe'.
    { rewrite Hpe, He. destruct (slice_in k); simpl; [|by rewrite app_nil_r].
      unfold deque.append, buffer_maxlen. rewrite He, length_app in Hle. simpl in Hle.
      by rewrite decide_True by (simpl; lia). }
    assert (orb_buffer (pull k s)
            = oldest :: next :: fs ++ option_list (frame_in k)) as Hpf'.
    { rewrite Hpf, Hf. destruct (frame_in k); simpl; [|by rewrite app_nil_r].
      unfold deque.append, buffer_maxlen. rewrite Hf, length_app in Hlf. simpl in Hlf.
      by rewrite decide_True by (simpl; lia). }
    rewrite (assoc_L (++)) in Hlater. apply Forall_cons in Hlater as [Hnext Hlater].
    apply Forall_app in Hlater as [Hnow Hrest].
    (* the call of sync changes nothing *)
    assert (sync (pull k s) = Ok (pull k s, [])) as Hsync.
    { eapply sync_waits; [by rewrite Hpd | exact Hpe' | exact Hpf' | | |].
      - intros orb [->|Horb]%elem_of_cons; [unfold sync_threshold_us; lia|].
        assert (start_ts evs_data + 5000 <= rgb_ts orb + offset) as Horb'.
        { apply elem_of_cons in Horb as [->|Horb]; [done|].
          rewrite Forall_forall in Hnow. by apply Hnow. }
        unfold diff_of, sync_threshold_us. lia.
      - unfold sync_threshold_us. lia.
      - destruct (last (next :: fs ++ option_list (frame_in k))) as [newest|] eqn:Hlast.
        + simpl. apply last_Some_elem_of in Hlast.
          assert (start_ts evs_data + 5000 <= rgb_ts newest + offset) as Hnewest.
          { apply elem_of_cons in Hlast as [->|Hlast]; [done|].
            rewrite Forall_forall in Hnow. by apply Hnow. }
          unfold sync_threshold_us. lia.
        + by apply last_None in Hlast. }
    (* the rest of the run, from the state after the monitor *)
    set (s1 := (monitored k (pull k s)).1).
    destruct (monitored_fields k (pull k s)) as (Hme & Hmf & Hmd & _). fold s1 in Hme, Hmf, Hmd.
    destruct (IH s1 (es ++ option_list (slice_in k)) (fs ++ option_list (frame_in k)))
      as (s' & out & Hrun & Hm & He' & Hf' & Hd').
    { by rewrite Hmd, Hpd. }
    { by rewrite Hme. }
    { by rewrite Hmf. }
    { done. }
    { done. }
    { apply Forall_cons. split; [done|]. apply Forall_app. by split. }
    { rewrite Hme, Hpe'. rewrite He in Hle. rewrite !length_app in *.
      simpl in *. rewrite length_app. lia. }
    { rewrite Hmf, Hpf'. rewrite Hf in Hlf. rewrite !length_app in *.
      simpl in *. rewrite length_app. lia. }
    exists s', ((monitored k (pull k s)).2 ++ out).
    split; [|split; [|split; [|split]]].
    + cbn [sync_process]. rewrite iteration_as_sync, Hsync. simpl.
      fold s1. rewrite Hrun. reflexivity.
    + by rewrite matched_pairs_app, (proj1 (monitored_out k (pull k s))), Hm.
    + rewrite He', Hme, Hpe', He. simpl. by rewrite <- (assoc_L (++)).
    + rewrite Hf', Hmf, Hpf', Hf. simpl. by rewrite <- (assoc_L (++)).
    + done.
Qed.

(** The frame of the slice at 34000 never came; an older frame and a newer
    one are in the buffer. For three more iterations nothing is matched. *)
Lemma X9_witness :
  exists s' out,
    sync_process [tick (Some 67000) (Some 99000); tick (Some 100000) None;
                  tick None (Some 132000)]
      (holding (Some 1000) [34000] [0; 66000]) = Ok (s', out)
    /\ matched_pairs out = []
    /\ evs_buffer s' = slice_at <$> [34000; 67000; 100000]
    /\ orb_buffer s' = frame_at <$> [0; 66000; 99000; 132000]
    /\ delta_orb_to_evs s' = Some 1000.
Proof.
  apply (X9_head_of_line_blocking
           [tick (Some 67000) (Some 99000); tick (Some 100000) None;
            tick None (Some 132000)]
           (holding (Some 1000) [34000] [0; 66000]) 1000
           (slice_at 34000) [] (frame_at 0) (frame_at 66000) []);
    try reflexivity.
  - vm_compute. by intros [=].
  - vm_compute. by intros [=].
  - repeat constructor; vm_compute; by intros [=].
  - simpl. lia.
  - simpl. lia.
Defined.

(** The same at the boundary: a slice exactly [sync_threshold_us] before the
    only frame is not matched (the test is strict) and not dropped (so is the
    other test). *)
Example slice_at_the_threshold_waits :
  sync (holding (Some 1000) [0] [4000]) = Ok (holding (Some 1000) [0] [4000], []).
Proof. vm_compute. reflexivity. Qed.

(** * Further properties of the persistence pipeline *)

(** A path named after [k] is written by the task of the [k]-th bundle
    only. *)
Lemma writes_owner disk dir k k' p' path a :
  (path, a) ∈ writes (async_write_task disk dir (bundle_of k' p')) ->
  path = event_filename dir k \/ path = rgb_filename dir k
  \/ path = depth_filename dir k ->
  k' = k.
Proof.
  intros [[-> _]|(_ & _ & [[-> _]|[-> _]])]%elem_of_writes [H|[H|H]]; simpl in H.
  - by eapply event_filename_inj.
  - by apply event_filename_not_rgb in H.
  - by apply event_filename_not_depth in H.
  - symmetry in H. by apply event_filename_not_rgb in H.
  - by eapply rgb_filename_inj.
  - by apply rgb_filename_not_depth in H.
  - symmetry in H. by apply event_filename_not_depth in H.
  - symmetry in H. by apply rgb_filename_not_depth in H.
  - by eapply depth_filename_inj.
Qed.

(** What a file holds after the pool has run, in any order: what the one
    task that writes it left there. *)
Lemma pool_store_lookup_iff disk dir pairs ws path a :
  pool_run_on disk dir (bundles_from 0 pairs) ws ->
  store ws !! path = Some a
  <-> exists k p, pairs !! k = Some p
                  /\ (path, a) ∈ writes (async_write_task disk dir (bundle_of k p)).
Proof.
  intros Hrun. split.
  - intros H%store_lookup_elem. by eapply pool_run_elem.
  - intros (k & p & Hk & Hw). apply store_lookup_unique.
    + by eapply pool_run_elem_2.
    + intros a' Ha'.
      destruct (pool_run_elem _ _ _ _ _ Hrun Ha') as (k' & p' & Hk' & Hw').
      destruct (writes_same_path _ _ _ _ _ _ _ Hw' Hw) as [Hidx Hsame].
      simpl in Hidx. subst k'. rewrite Hk in Hk'. injection Hk' as <-.
      by apply Hsame.
Qed.

(** A file named after [k] holds what the task of the [k]-th pair left
    there. *)
Lemma pool_store_owned disk dir pairs ws k p path a :
  pool_run_on disk dir (bundles_from 0 pairs) ws ->
  pairs !! k = Some p ->
  path = event_filename dir k \/ path = rgb_filename dir k
  \/ path = depth_filename dir k ->
  store ws !! path = Some a
  <-> (path, a) ∈ writes (async_write_task disk dir (bundle_of k p)).
Proof.
  intros Hrun Hk Hpath. rewrite (pool_store_lookup_iff _ _ _ _ _ _ Hrun). split.
  - intros (k' & p' & Hk' & Hw).
    pose proof (writes_owner _ _ _ _ _ _ _ Hw Hpath) as ->.
    rewrite Hk in Hk'. by injection Hk' as <-.
  - intros Hw. by exists k, p.
Qed.

(** The task of a bundle whose three writes are done. *)
Lemma task_all_written disk dir b :
  h5_outcome disk (event_filename dir (idx b)) = H5Written ->
  imwrite_outcome disk (rgb_filename dir (idx b)) = ImWritten ->
  imwrite_outcome disk (depth_filename dir (idx b)) = ImWritten ->
  async_write_task disk dir b
  = {| writes := attempts dir b; printed_error := None |}.
Proof.
  intros H1 H2 H3. unfold async_write_task, attempts, then_, with_h5, imwrite.
  rewrite H1, H2, H3. by destruct (bundle_rgb b), (bundle_depth b).
Qed.

(** The task of a bundle whose [with] block raises. *)
Lemma task_h5_raises disk dir b :
  h5_outcome disk (event_filename dir (idx b)) <> H5Written ->
  async_write_task disk dir b
  = {| writes := (with_h5 disk (event_filename dir (idx b)) b).1;
       printed_error := Some (idx b) |}.
Proof.
  intros H1. unfold async_write_task, then_, with_h5.
  by destruct (h5_outcome disk (event_filename dir (idx b))).
Qed.

(** The task of a bundle whose colour image [cv2.imwrite] does not write,
    returning [False]. *)
Lemma task_rgb_returns_false disk dir b img :
  h5_outcome disk (event_filename dir (idx b)) = H5Written ->
  bundle_rgb b = Some img ->
  imwrite_outcome disk (rgb_filename dir (idx b)) = ImReturnsFalse ->
  imwrite_outcome disk (depth_filename dir (idx b)) = ImWritten ->
  async_write_task disk dir b
  = {| writes :=
         (event_filename dir (idx b),
          H5 (bundle_event_volume b) (bundle_start_ts b) (bundle_end_ts b))
         :: match bundle_depth b with
            | Some img' => [(depth_filename dir (idx b), Png img')]
            | None => []
            end;
       printed_error := None |}.
Proof.
  intros H1 Hrgb H2 H3. unfold async_write_task, then_, with_h5, imwrite.
  rewrite H1, Hrgb, H2, H3. by destruct (bundle_depth b).
Qed.

(** X10. The order in which the workers run does not matter at all: for the
    bundles of a run with recording enabled, and however each write ends
    (done, [h5py.File] or a statement of its block raising, [cv2.imwrite]
    returning [False] or raising), any two orders of the writes of the pool
    leave exactly the same files. *)
Theorem X10_files_do_not_depend_on_the_schedule
    (ticks : list Tick) (dir : string) (disk : Disk) :
  exists s' out,
    sync_process ticks (init true dir) = Ok (s', out)
    /\ forall ws1 ws2,
         pool_run_on disk dir (executor s') ws1 ->
         pool_run_on disk dir (executor s') ws2 ->
         store ws1 = store ws2.
Proof.
  destruct (sync_process_recorder ticks (init true dir)) as (s' & out & Hrun & Hrec).
  destruct (Hrec eq_refl) as (_ & _ & _ & Hexec). simpl in Hexec.
  exists s', out. split; [done|]. rewrite Hexec. intros ws1 ws2 H1 H2.
  apply map_eq. intros path. apply option_eq. intros a.
  by rewrite !pool_store_lookup_iff.
Qed.

(** X11. A failure stays in its task: if the three writes of the [k]-th
    matched pair are done, its three files hold its data after the pool has
    run in any order and its task prints no error, however the writes of the
    other tasks end. *)
Theorem X11_failures_are_isolated (ticks : list Tick) (dir : string) :
  exists s' out,
    sync_process ticks (init true dir) = Ok (s', out)
    /\ forall disk ws k e f,
         pool_run_on disk dir (executor s') ws ->
         matched_pairs out !! k = Some (e, f) ->
         h5_outcome disk (event_filename dir k) = H5Written ->
         imwrite_outcome disk (rgb_filename dir k) = ImWritten ->
         imwrite_outcome disk (depth_filename dir k) = ImWritten ->
         executor s' !! k = Some (bundle_of k (e, f))
         /\ printed_error (async_write_task disk dir (bundle_of k (e, f))) = None
         /\ store ws !! event_filename dir k
            = Some (H5 (event_volume e) (start_ts e) (end_ts e))
         /\ (forall img, rgb f = Some img ->
                         store ws !! rgb_filename dir k = Some (Jpeg img))
         /\ (forall img, depth f = Some img ->
                         store ws !! depth_filename dir k = Some (Png img)).
Proof.
  destruct (sync_process_recorder ticks (init true dir)) as (s' & out & Hrun & Hrec).
  destruct (Hrec eq_refl) as (_ & _ & _ & Hexec). simpl in Hexec.
  exists s', out. split; [done|]. rewrite Hexec.
  intros disk ws k e f Hpool Hk He Hr Hd.
  pose proof (task_all_written disk dir (bundle_of k (e, f)) He Hr Hd) as Htask.
  split.
  { unfold bundles_from. by rewrite list_lookup_imap, Hk. }
  split; [by rewrite Htask|].
  repeat split.
  - apply (pool_store_owned _ _ _ _ _ _ _ _ Hpool Hk); [by left|].
    rewrite Htask. apply elem_of_attempts. by left.
  - intros img Himg. apply (pool_store_owned _ _ _ _ _ _ _ _ Hpool Hk); [auto|].
    rewrite Htask. apply elem_of_attempts. right. left. simpl. by rewrite Himg.
  - intros img Himg. apply (pool_store_owned _ _ _ _ _ _ _ _ Hpool Hk); [auto|].
    rewrite Htask. apply elem_of_attempts. right. right. simpl. by rewrite Himg.
Qed.

(** X12. When the [with] block of the [k]-th pair raises, the images of the
    pair are not written (the exception leaves the [try] block before them)
    and the task prints its error. The container is missing only if
    [h5py.File] itself raised; otherwise the file exists and holds what the
    block had written before the exception: nothing, the events, or the
    events and [start_ts]. This in whatever order the pool ran. *)
Theorem X12_failed_container_leaves_no_image (ticks : list Tick) (dir : string) :
  exists s' out,
    sync_process ticks (init true dir) = Ok (s', out)
    /\ forall disk ws k e f,
         pool_run_on disk dir (executor s') ws ->
         matched_pairs out !! k = Some (e, f) ->
         h5_outcome disk (event_filename dir k) <> H5Written ->
         executor s' !! k = Some (bundle_of k (e, f))
         /\ printed_error (async_write_task disk dir (bundle_of k (e, f))) = Some k
         /\ store ws !! rgb_filename dir k = None
         /\ store ws !! depth_filename dir k = None
         /\ store ws !! event_filename dir k
            = match h5_outcome disk (event_filename dir k) with
              | H5Written => Some (H5 (event_volume e) (start_ts e) (end_ts e))
              | H5OpenRaises => None
              | H5DatasetRaises => Some (H5Partial None None)
              | H5StartRaises => Some (H5Partial (Some (event_volume e)) None)
              | H5EndRaises =>
                  Some (H5Partial (Some (event_volume e)) (Some (start_ts e)))
              end.
Proof.
  destruct (sync_process_recorder ticks (init true dir)) as (s' & out & Hrun & Hrec).
  destruct (Hrec eq_refl) as (_ & _ & _ & Hexec). simpl in Hexec.
  exists s', out. split; [done|]. rewrite Hexec.
  intros disk ws k e f Hpool Hk Hraise.
  pose proof (task_h5_raises disk dir (bundle_of k (e, f)) Hraise) as Htask.
  cbn [idx bundle_of] in Htask.
  split.
  { unfold bundles_from. by rewrite list_lookup_imap, Hk. }
  split; [by rewrite Htask|].
  assert (forall path a,
            path = event_filename dir k \/ path = rgb_filename dir k
            \/ path = depth_filename dir k ->
            store ws !! path = Some a
            <-> (path, a) ∈ (with_h5 disk (event_filename dir k)
                               (bundle_of k (e, f))).1) as Hat.
  { intros path a Hpath.
    rewrite (pool_store_owned _ _ _ _ _ _ _ a Hpool Hk Hpath). by rewrite Htask. }
  split; [|split].
  - apply eq_None_not_Some. intros [a Ha].
    apply Hat in Ha; [|auto]. apply elem_of_with_h5 in Ha as [_ Ha]. simpl in Ha.
    symmetry in Ha. by apply event_filename_not_rgb in Ha.
  - apply eq_None_not_Some. intros [a Ha].
    apply Hat in Ha; [|auto]. apply elem_of_with_h5 in Ha as [_ Ha]. simpl in Ha.
    symmetry in Ha. by apply event_filename_not_depth in Ha.
  - apply option_eq. intros a. rewrite Hat by auto.
    unfold with_h5. destruct (h5_outcome disk (event_filename dir k)); simpl;
      rewrite ?elem_of_nil, ?list_elem_of_singleton; [done|..];
      split; intros H; by simplify_eq.
Qed.

(** X23. A colour image that [cv2.imwrite] does not write is lost without a
    word: when the call for the colour image of the [k]-th pair returns
    [False] (the task does not look at the result), no colour image of that
    index exists, the container and the depth image are written as usual,
    and the task prints no error. *)
Theorem X23_unwritten_image_is_lost_silently (ticks : list Tick) (dir : string) :
  exists s' out,
    sync_process ticks (init true dir) = Ok (s', out)
    /\ forall disk ws k e f img,
         pool_run_on disk dir (executor s') ws ->
         matched_pairs out !! k = Some (e, f) ->
         rgb f = Some img ->
         h5_outcome disk (event_filename dir k) = H5Written ->
         imwrite_outcome disk (rgb_filename dir k) = ImReturnsFalse ->
         imwrite_outcome disk (depth_filename dir k) = ImWritten ->
         executor s' !! k = Some (bundle_of k (e, f))
         /\ printed_error (async_write_task disk dir (bundle_of k (e, f))) = None
         /\ store ws !! rgb_filename dir k = None
         /\ store ws !! event_filename dir k
            = Some (H5 (event_volume e) (start_ts e) (end_ts e))
         /\ store ws !! depth_filename dir k = Png <$> depth f.
Proof.
  destruct (sync_process_recorder ticks (init true dir)) as (s' & out & Hrun & Hrec).
  destruct (Hrec eq_refl) as (_ & _ & _ & Hexec). simpl in Hexec.
  exists s', out. split; [done|]. rewrite Hexec.
  intros disk ws k e f img Hpool Hk Himg He Hr Hd.
  pose proof (task_rgb_returns_false disk dir (bundle_of k (e, f)) img He Himg Hr Hd)
    as Htask.
  cbn [idx bundle_of bundle_depth bundle_event_volume bundle_start_ts
       bundle_end_ts fst snd] in Htask.
  split.
  { unfold bundles_from. by rewrite list_lookup_imap, Hk. }
  split; [by rewrite Htask|].
  assert (forall path a,
            path = event_filename dir k \/ path = rgb_filename dir k
            \/ path = depth_filename dir k ->
            store ws !! path = Some a
            <-> path = event_filename dir k
                /\ a = H5 (event_volume e) (start_ts e) (end_ts e)
                \/ path = depth_filename dir k /\ Png <$> depth f = Some a)
    as Hat.
  { intros path a Hpath.
    rewrite (pool_store_owned _ _ _ _ _ _ _ a Hpool Hk Hpath), Htask.
    cbn [writes]. rewrite elem_of_cons.
    destruct (depth f) as [img'|]; simpl.
    - rewrite list_elem_of_singleton. split.
      + intros [[= -> ->]|[= -> ->]]; [by left | by right].
      + intros [[-> ->]|[-> [= <-]]]; [by left | by right].
    - rewrite elem_of_nil. split.
      + intros [[= -> ->]|[]]. by left.
      + intros [[-> ->]|[_ [=]]]. by left. }
  split; [|split].
  - apply eq_None_not_Some. intros [a Ha]. apply Hat in Ha as [[H _]|[H _]]; [| |auto].
    + symmetry in H. by apply event_filename_not_rgb in H.
    + by apply rgb_filename_not_depth in H.
  - apply Hat; auto.
  - apply option_eq. intros a. rewrite Hat by auto. split.
    + intros [[H _]|[_ H]]; [|done].
      symmetry in H. by apply event_filename_not_depth in H.
    + intros H. right. done.
Qed.

(** Three matched pairs written to [flaky_disk]: the pair 0 is complete, the
    pair 1 has no colour image and its task prints nothing, the pair 2 has an
    empty container and no image and its task prints its error. *)
Example flaky_disk_run :
  exists s' out ws,
    sync_process [tick (Some 1000) (Some 0); tick (Some 34000) (Some 33000);
                  tick (Some 67000) (Some 66000)] (init true "out")
    = Ok (s', out)
    /\ pool_run_on flaky_disk "out" (executor s') ws
    /\ printed_error <$> (async_write_task flaky_disk "out" <$> executor s')
       = [None; None; Some 2%nat]
    /\ store ws !! "out/frame/000000_rgb.jpg" = Some (Jpeg [0])
    /\ store ws !! "out/event/000001.h5" = Some (H5 [34000] 34000 67000)
    /\ store ws !! "out/frame/000001_rgb.jpg" = None
    /\ store ws !! "out/frame/000001_depth.png" = Some (Png [33001])
    /\ store ws !! "out/event/000002.h5" = Some (H5Partial None None)
    /\ store ws !! "out/frame/000002_rgb.jpg" = None
    /\ store ws !! "out/frame/000002_depth.png" = None.
Proof.
  eexists _, _,
    (reverse (mjoin ((fun b => writes (async_write_task flaky_disk "out" b)) <$> _))).
  split; [vm_compute; reflexivity|].
  split; [apply reverse_Permutation|]. vm_compute. repeat split.
Qed.

(** X13. The label of a file identifies its pair: [f"{n:06d}"] read back as a
    decimal number is [n], so two indices never share a label; the label has
    at least six characters and consists of zeros followed by the decimal
    digits of [n]. *)
Theorem X13_label_round_trip (n : nat) :
  Nat.of_uint <$> NilEmpty.uint_of_string (fmt06 n) = Some n
  /\ (forall m, fmt06 n = fmt06 m -> n = m)
  /\ (6 <= String.length (fmt06 n))%nat
  /\ exists k, fmt06 n = zeros k +:+ NilEmpty.string_of_uint (Nat.to_uint n)
               /\ (k = 0%nat \/ String.length (fmt06 n) = 6%nat).
Proof.
  assert (forall k (s : string), String.length (zeros k +:+ s) = (k + String.length s)%nat)
    as Hlen.
  { intros k s. induction k as [|k IH]; simpl; [done | by rewrite IH]. }
  split; [apply fmt06_decode|]. split; [intros m; apply fmt06_inj|].
  unfold fmt06. rewrite Hlen. split; [lia|].
  eexists. split; [reflexivity|]. lia.
Qed.

(** * Properties of the slicer *)

Lemma nonempty_spec {A} (a : list A) : Slicer.nonempty a = true <-> a <> [].
Proof. by destruct a. Qed.

Lemma put_slices_app out out' :
  put_slices (out ++ out') = put_slices out ++ put_slices out'.
Proof. apply omap_app. Qed.

Lemma windows_app cur rs rs' :
  windows cur (rs ++ rs') = windows cur rs ++ windows (advance cur rs) rs'.
Proof.
  revert cur. induction rs as [|r rs IH]; intros cur; [done|].
  assert (advance cur (r :: rs) = advance (Some r) rs) as Hadv.
  { unfold advance. rewrite last_cons. by destruct (last rs). }
  simpl. destruct cur; rewrite IH, Hadv; done.
Qed.

(** One rising edge: the slicer does not block; it ends up active with the
    edge as its last trigger; it puts at most one slice, which covers the
    interval from the cursor to the edge and is not empty. *)
Lemma on_rising_edge_spec evs ts c :
  slicer_inv c ->
  exists c' out,
    Slicer.on_rising_edge evs ts c = Done (c', out)
    /\ slicer_inv c'
    /\ cursor c' = Some ts
    /\ put_slices out `sublist_of`
         match cursor c with
         | Some l => [ {| Slicer.event_volume :=
                            mjoin (if Slicer.nonempty (Slicer.upto ts evs)
                                   then Slicer.event_buffer c ++ [Slicer.upto ts evs]
                                   else Slicer.event_buffer c);
                          Slicer.start_ts := Some l;
                          Slicer.end_ts := ts |} ]
         | None => []
         end
    /\ Forall (fun slice => Slicer.event_volume slice <> []) (put_slices out)
    /\ Slicer.event_buffer c'
       = (if negb (Slicer.active c) then Slicer.event_buffer c else [])
         ++ (if Slicer.nonempty (Slicer.later ts evs) then [Slicer.later ts evs] else []).
Proof.
  intros (Hact & Hbuf & Hq). unfold Slicer.on_rising_edge, cursor.
  destruct (Slicer.active c) eqn:Ha; simpl.
  - (* a later trigger *)
    destruct (Hact eq_refl) as [l Hl]. rewrite Hl.
    unfold Slicer.later_trigger.
    set (buffer := if Slicer.nonempty (Slicer.upto ts evs)
                   then Slicer.event_buffer c ++ [Slicer.upto ts evs]
                   else Slicer.event_buffer c).
    set (buffer' := if Slicer.nonempty (Slicer.later ts evs)
                    then [Slicer.later ts evs] else []).
    assert (Forall (fun a => a <> []) buffer) as Hbuffer.
    { subst buffer. destruct (Slicer.nonempty (Slicer.upto ts evs)) eqn:Hn; [|done].
      apply Forall_app. split; [done|]. apply Forall_singleton. by apply nonempty_spec. }
    assert (Forall (fun a => a <> []) buffer') as Hbuffer'.
    { subst buffer'. destruct (Slicer.nonempty (Slicer.later ts evs)) eqn:Hn; [|done].
      apply Forall_singleton. by apply nonempty_spec. }
    destruct (Slicer.nonempty buffer) eqn:Hne.
    + destruct (Queue.full (Slicer.slice_queue c)) eqn:Hfull; simpl.
      * eexists _, _. split; [done|].
        repeat split; simpl; try done. by rewrite Ha.
        apply sublist_nil_l.
      * unfold Queue.put. rewrite Hfull.
        eexists _, _. split; [done|]. rewrite Hl.
        repeat split; simpl; try done.
        -- rewrite length_app. simpl. unfold Queue.full in Hfull.
           apply bool_decide_eq_false in Hfull. lia.
        -- by rewrite Ha.
        -- apply Forall_singleton. simpl.
           destruct buffer as [|a buffer]; [done|].
           apply Forall_cons in Hbuffer as [Hnil _]. simpl.
           by destruct a.
    + eexists _, _. split; [done|].
      repeat split; simpl; try done. by rewrite Ha.
      apply sublist_nil_l.
  - (* the first trigger *)
    unfold Slicer.first_activation.
    eexists _, _. split; [done|].
    assert ((if Slicer.nonempty evs
             then if Slicer.nonempty (Slicer.later ts evs)
                  then Slicer.event_buffer c ++ [Slicer.later ts evs]
                  else Slicer.event_buffer c
             else Slicer.event_buffer c)
            = Slicer.event_buffer c
              ++ (if Slicer.nonempty (Slicer.later ts evs)
                  then [Slicer.later ts evs] else [])) as ->.
    { destruct evs as [|e evs']; [by rewrite app_nil_r|]. simpl Slicer.nonempty at 1.
      cbv iota. destruct (Slicer.nonempty _); [done | by rewrite app_nil_r]. }
    repeat split; simpl; try done.
    apply Forall_app. split; [done|].
      destruct (Slicer.nonempty _) eqn:Hn; [|done].
      apply Forall_singleton. by apply nonempty_spec.
Qed.

(** The events held by the slicer or put on the queue come from [src]. *)
Lemma windows_Some cur rs : Forall (fun w => is_Some w.1) (windows cur rs).
Proof.
  revert cur. induction rs as [|r rs IH]; intros cur; simpl; [done|].
  destruct cur; [apply Forall_cons; split; [by eexists|]|]; apply IH.
Qed.

Lemma advance_cons cur r rs : advance cur (r :: rs) = advance (Some r) rs.
Proof. unfold advance. rewrite last_cons. by destruct (last rs). Qed.

Lemma advance_app cur rs rs' : advance cur (rs ++ rs') = advance (advance cur rs) rs'.
Proof.
  unfold advance. rewrite last_app. by destruct (last rs').
Qed.

Lemma elem_of_upto e ts evs : e ∈ Slicer.upto ts evs -> e ∈ evs.
Proof. unfold Slicer.upto. by intros [_ ?]%list_elem_of_filter. Qed.

Lemma elem_of_later e ts evs : e ∈ Slicer.later ts evs -> e ∈ evs.
Proof. unfold Slicer.later. by intros [_ ?]%list_elem_of_filter. Qed.

(** All the rising edges of one batch. *)
Lemma on_rising_edges_spec evs rs c :
  slicer_inv c ->
  exists c' out,
    Slicer.on_rising_edges evs rs c = Done (c', out)
    /\ slicer_inv c'
    /\ cursor c' = advance (cursor c) rs
    /\ window_of <$> put_slices out `sublist_of` windows (cursor c) rs
    /\ Forall (fun slice => Slicer.event_volume slice <> []) (put_slices out)
    /\ (forall e, e ∈ mjoin (Slicer.event_buffer c') ++ (put_slices out ≫= Slicer.event_volume) ->
                  e ∈ mjoin (Slicer.event_buffer c) ++ evs)
    /\ (rs = [] -> c' = c).
Proof.
  revert c. induction rs as [|r rs IH]; intros c Hinv.
  { exists c, []. split; [done|]. split; [done|]. split; [done|].
    split; [done|]. split; [done|]. split; [|done].
    intros e He. simpl in He. rewrite app_nil_r in He. set_solver. }
  destruct (on_rising_edge_spec evs r c Hinv)
    as (c1 & out1 & Hrun1 & Hinv1 & Hcur1 & Hput1 & Hne1 & Hbuf1).
  destruct (IH c1 Hinv1) as (c2 & out2 & Hrun2 & Hinv2 & Hcur2 & Hput2 & Hne2 & Hsrc2 & _).
  exists c2, (out1 ++ out2). simpl. rewrite Hrun1, Hrun2.
  split; [done|]. split; [done|].
  split; [by rewrite advance_cons, Hcur2, Hcur1|].
  rewrite put_slices_app, fmap_app.
  split.
  { rewrite Hcur1 in Hput2.
    destruct (cursor c) as [l|].
    - change ((Some l, r) :: windows (Some r) rs)
        with ([(Some l, r)] ++ windows (Some r) rs).
      apply sublist_app; [|done].
      by apply (fmap_sublist window_of) in Hput1.
    - apply sublist_nil_r in Hput1. by rewrite Hput1. }
  split; [by apply Forall_app|].
  split; [|done].
  intros e He.
  assert (e ∈ mjoin (Slicer.event_buffer c1) ++ evs
          \/ e ∈ put_slices out1 ≫= Slicer.event_volume) as [He1|He1].
  { rewrite bind_app in He.
    apply elem_of_app in He as [He|He].
    { left. apply Hsrc2, elem_of_app. by left. }
    apply elem_of_app in He as [He|He]; [by right|].
    left. apply Hsrc2, elem_of_app. by right. }
  - apply elem_of_app in He1 as [He1|He1]; [|apply elem_of_app; by right].
    rewrite Hbuf1 in He1. rewrite join_app in He1.
    apply elem_of_app in He1 as [He1|He1].
    + destruct (Slicer.active c); simpl in He1.
      * by apply elem_of_nil in He1.
      * apply elem_of_app. by left.
    + destruct (Slicer.nonempty (Slicer.later r evs)); simpl in He1;
        [|by apply elem_of_nil in He1].
      rewrite app_nil_r in He1. apply elem_of_later in He1.
      apply elem_of_app. by right.
  - apply list_elem_of_bind in He1 as (slice & He1 & Hslice).
    destruct (cursor c) as [l|].
    + eapply elem_of_sublist in Hslice; [|exact Hput1].
      apply list_elem_of_singleton in Hslice. subst slice. simpl in He1.
      destruct (Slicer.nonempty (Slicer.upto r evs)); [|apply elem_of_app; by left].
      rewrite join_app in He1. simpl in He1. rewrite app_nil_r in He1.
      apply elem_of_app in He1 as [He1|He1]; apply elem_of_app; [by left|].
      apply elem_of_upto in He1. by right.
    + apply sublist_nil_r in Hput1. rewrite Hput1 in Hslice.
      by apply elem_of_nil in Hslice.
Qed.

Lemma consumed_inv n c : slicer_inv c -> slicer_inv (Slicer.consumed n c).
Proof.
  intros (Hact & Hbuf & Hq). split; [done|]. split; [done|].
  simpl. rewrite length_drop. lia.
Qed.

Lemma nonempty_false {A} (a : list A) : Slicer.nonempty a = false -> a = [].
Proof. by destruct a. Qed.

(** One batch. *)
Lemma process_batch_spec b c :
  slicer_inv c ->
  exists c' out,
    Slicer.process_batch b c = Done (c', out)
    /\ slicer_inv c'
    /\ cursor c' = advance (cursor c) (Slicer.rising_edges (Slicer.triggers b))
    /\ window_of <$> put_slices out
         `sublist_of` windows (cursor c) (Slicer.rising_edges (Slicer.triggers b))
    /\ Forall (fun slice => Slicer.event_volume slice <> []) (put_slices out)
    /\ (forall e, e ∈ mjoin (Slicer.event_buffer c') ++ (put_slices out ≫= Slicer.event_volume) ->
                  e ∈ mjoin (Slicer.event_buffer c) ++ considered b).
Proof.
  intros Hinv. unfold Slicer.process_batch, considered.
  destruct (Slicer.nonempty (Slicer.triggers b)) eqn:Htrig.
  - destruct (on_rising_edges_spec (Slicer.evs b)
                (Slicer.rising_edges (Slicer.triggers b)) c Hinv)
      as (c' & out & Hrun & Hinv' & Hcur & Hput & Hne & Hsrc & Hnil).
    exists c', out. do 5 (split; [done|]).
    destruct (Slicer.rising_edges (Slicer.triggers b)) as [|r rs] eqn:Hrs; [|done].
    rewrite (Hnil eq_refl) in *. simpl in Hput. apply sublist_nil_r in Hput.
    apply fmap_nil_inv in Hput. rewrite Hput. simpl. intros e. by rewrite !app_nil_r.
  - apply nonempty_false in Htrig. rewrite Htrig. simpl.
    destruct (Slicer.active c) eqn:Ha; simpl.
    + destruct (Slicer.nonempty (Slicer.evs b)) eqn:Hevs.
      * eexists _, _. split; [done|].
        destruct Hinv as (Hact & Hbuf & Hq).
        split.
        { split; [intros _; by apply Hact|]. split; [|done]. simpl.
          apply Forall_app. split; [done|]. apply Forall_singleton.
          by apply nonempty_spec. }
        split; [unfold cursor; simpl; by rewrite Ha|].
        split; [done|]. split; [done|].
        intros e. cbn [Slicer.event_buffer]. rewrite join_app. simpl.
        by rewrite !app_nil_r.
      * exists c, []. do 5 (split; [done|]).
        simpl. intros e. rewrite app_nil_r. intros He. apply elem_of_app. by left.
    + exists c, []. do 5 (split; [done|]).
      simpl. intros e. rewrite app_nil_r. intros He. apply elem_of_app. by left.
Qed.

Lemma cursor_consumed n c : cursor (Slicer.consumed n c) = cursor c.
Proof. done. Qed.

(** The whole run. *)
Lemma start_loop_spec steps c :
  slicer_inv c ->
  exists c' out,
    Slicer.start_loop steps c = Done (c', out)
    /\ slicer_inv c'
    /\ cursor c' = advance (cursor c) (rising_edges_of steps)
    /\ window_of <$> put_slices out `sublist_of` windows (cursor c) (rising_edges_of steps)
    /\ Forall (fun slice => Slicer.event_volume slice <> []) (put_slices out)
    /\ (forall e, e ∈ mjoin (Slicer.event_buffer c') ++ (put_slices out ≫= Slicer.event_volume) ->
                  e ∈ mjoin (Slicer.event_buffer c)
                      ++ (steps ≫= fun st => considered (Slicer.batch st))).
Proof.
  revert c. induction steps as [|st steps IH]; intros c Hinv.
  { exists c, []. do 5 (split; [done|]). simpl. intros e. by rewrite !app_nil_r. }
  destruct (process_batch_spec (Slicer.batch st) _ (consumed_inv (Slicer.taken st) c Hinv))
    as (c1 & out1 & Hrun1 & Hinv1 & Hcur1 & Hput1 & Hne1 & Hsrc1).
  destruct (IH c1 Hinv1) as (c2 & out2 & Hrun2 & Hinv2 & Hcur2 & Hput2 & Hne2 & Hsrc2).
  exists c2, (out1 ++ out2). cbn [Slicer.start_loop]. rewrite Hrun1, Hrun2.
  rewrite cursor_consumed in Hcur1, Hput1.
  unfold rising_edges_of in *. rewrite bind_cons.
  split; [done|]. split; [done|].
  split; [by rewrite advance_app, Hcur2, Hcur1|].
  rewrite put_slices_app, fmap_app, windows_app.
  split; [apply sublist_app; [done|by rewrite <- Hcur1]|].
  split; [by apply Forall_app|].
  intros e He. rewrite bind_app in He. rewrite bind_cons.
  assert (e ∈ mjoin (Slicer.event_buffer c1)
                ++ (steps ≫= fun st => considered (Slicer.batch st))
          \/ e ∈ put_slices out1 ≫= Slicer.event_volume) as [He1|He1].
  { apply elem_of_app in He as [He|He].
    { left. apply Hsrc2, elem_of_app. by left. }
    apply elem_of_app in He as [He|He]; [by right|].
    left. apply Hsrc2, elem_of_app. by right. }
  - apply elem_of_app in He1 as [He1|He1].
    + assert (e ∈ mjoin (Slicer.event_buffer (Slicer.consumed (Slicer.taken st) c))
                    ++ considered (Slicer.batch st)) as He2.
      { apply Hsrc1, elem_of_app. by left. }
      simpl in He2. rewrite !elem_of_app in *. tauto.
    + rewrite !elem_of_app. tauto.
  - assert (e ∈ mjoin (Slicer.event_buffer (Slicer.consumed (Slicer.taken st) c))
                  ++ considered (Slicer.batch st)) as He2.
    { apply Hsrc1, elem_of_app. by right. }
    simpl in He2. rewrite !elem_of_app in *. tauto.
Qed.

Lemma fresh_slicer_inv : slicer_inv fresh_slicer.
Proof. split; [by intros [=]|]. split; [done|]. simpl. lia. Qed.

Lemma slicing_since_inv ts tss : slicer_inv (slicing_since ts tss).
Proof.
  split; [intros _; by eexists|]. split; [|simpl; lia].
  simpl. destruct tss; [done|]. by apply Forall_singleton.
Qed.

(** X14. The slicer never waits on the queue, whatever the batches and
    whatever the consumer takes: the blocking [put] is reached only when the
    queue is not full. It puts no empty slice and no slice without a start
    timestamp, and the queue never holds more than [maxsize] slices. *)
Theorem X14_slicer_never_waits (steps : list Slicer.Step) (c : Slicer.t) :
  slicer_inv c ->
  exists c' out,
    Slicer.start_loop steps c = Done (c', out)
    /\ slicer_inv c'
    /\ Forall (fun slice => Slicer.event_volume slice <> []
                            /\ is_Some (Slicer.start_ts slice)) (put_slices out).
Proof.
  intros Hinv.
  destruct (start_loop_spec steps c Hinv)
    as (c' & out & Hrun & Hinv' & _ & Hput & Hne & _).
  exists c', out. split; [done|]. split; [done|].
  apply Forall_forall. intros slice Hslice. split.
  - by eapply Forall_forall in Hne.
  - assert (window_of slice ∈ windows (cursor c) (rising_edges_of steps)) as Hw.
    { eapply elem_of_sublist; [|exact Hput]. by apply list_elem_of_fmap_2. }
    pose proof (windows_Some (cursor c) (rising_edges_of steps)) as Hall.
    rewrite Forall_forall in Hall. exact (Hall _ Hw).
Qed.

Lemma X14_witness :
  exists c' out,
    Slicer.start_loop
      [batch_of [5; 15] [rising_at 10]; batch_of [20; 30] [];
       batch_of [40; 50] [falling_at 35; rising_at 45]] fresh_slicer = Done (c', out)
    /\ slicer_inv c'
    /\ Forall (fun slice => Slicer.event_volume slice <> []
                            /\ is_Some (Slicer.start_ts slice)) (put_slices out).
Proof.
  exact (X14_slicer_never_waits
           [batch_of [5; 15] [rising_at 10]; batch_of [20; 30] [];
            batch_of [40; 50] [falling_at 35; rising_at 45]] fresh_slicer
           fresh_slicer_inv).
Defined.

(** X15. The intervals of the slices put on the queue are, in order, some of
    the intervals between consecutive rising edges, in the order in which the
    loop goes through the edges; a slice that is missing was skipped (full
    queue) or had no event. The first edge seen by an inactive slicer only
    opens the first interval. After the run the last trigger is the last
    rising edge. *)
Theorem X15_slices_span_consecutive_triggers (steps : list Slicer.Step) (c : Slicer.t) :
  slicer_inv c ->
  exists c' out,
    Slicer.start_loop steps c = Done (c', out)
    /\ window_of <$> put_slices out `sublist_of` windows (cursor c) (rising_edges_of steps)
    /\ cursor c' = advance (cursor c) (rising_edges_of steps).
Proof.
  intros Hinv.
  destruct (start_loop_spec steps c Hinv)
    as (c' & out & Hrun & _ & Hcur & Hput & _ & _).
  by exists c', out.
Qed.

Lemma X15_witness :
  exists c' out,
    Slicer.start_loop
      [batch_of [5; 15] [rising_at 10]; batch_of [20; 30] [];
       batch_of [40; 50] [falling_at 35; rising_at 45]] fresh_slicer = Done (c', out)
    /\ window_of <$> put_slices out `sublist_of` windows None [10; 45]
    /\ cursor c' = Some 45.
Proof.
  exact (X15_slices_span_consecutive_triggers
           [batch_of [5; 15] [rising_at 10]; batch_of [20; 30] [];
            batch_of [40; 50] [falling_at 35; rising_at 45]] fresh_slicer
           fresh_slicer_inv).
Defined.

Lemma windows_ordered r rs :
  StronglySorted Z.le (r :: rs) ->
  Forall (fun w => exists l, w.1 = Some l /\ r <= l /\ l <= w.2) (windows (Some r) rs)
  /\ StronglySorted window_before (windows (Some r) rs).
Proof.
  revert r. induction rs as [|r' rs IH]; intros r Hsorted; simpl.
  { split; constructor. }
  apply StronglySorted_inv in Hsorted as [Hsorted Hr].
  apply Forall_cons in Hr as Hr'. destruct Hr' as [Hrr' _].
  destruct (IH r' Hsorted) as [Hall Hord].
  split.
  - apply Forall_cons. split; [exists r; simpl; repeat split; [lia|done]|].
    eapply Forall_impl; [exact Hall|]. intros w (l & Hl & Hle & Hle').
    exists l. repeat split; [done|lia|done].
  - constructor; [done|].
    eapply Forall_impl; [exact Hall|]. intros w (l & Hl & Hle & _).
    exists l. by split.
Qed.

Lemma windows_sorted cur rs :
  StronglySorted Z.le rs ->
  (forall l, cur = Some l -> Forall (Z.le l) rs) ->
  Forall window_ok (windows cur rs)
  /\ StronglySorted window_before (windows cur rs).
Proof.
  intros Hsorted Hcur. destruct cur as [l|].
  - assert (StronglySorted Z.le (l :: rs)) as Hs.
    { constructor; [done|]. by apply Hcur. }
    destruct (windows_ordered l rs Hs) as [Hall Hord]. split; [|done].
    eapply Forall_impl; [exact Hall|]. intros w (x & Hx & _ & Hle). by exists x.
  - destruct rs as [|r rs]; simpl; [split; constructor|].
    destruct (windows_ordered r rs Hsorted) as [Hall Hord]. split; [|done].
    eapply Forall_impl; [exact Hall|]. intros w (x & Hx & _ & Hle). by exists x.
Qed.

Lemma StronglySorted_fmap_inv {A B} (f : A -> B) (R : relation B) (l : list A) :
  StronglySorted R (f <$> l) -> StronglySorted (fun x y => R (f x) (f y)) l.
Proof.
  induction l as [|x l IH]; intros Hs; [constructor|].
  rewrite fmap_cons in Hs. apply StronglySorted_inv in Hs as [Hs Hx].
  constructor; [by apply IH|]. rewrite Forall_fmap in Hx. exact Hx.
Qed.

(** X16. When the rising edges come in non-decreasing order of timestamp
    (and none is older than the last trigger already seen), every slice put
    on the queue has [start_ts <= end_ts], and the slices are put in the order
    of their intervals, without overlap: each one starts no earlier than all
    the earlier ones end. *)
Theorem X16_slices_do_not_overlap (steps : list Slicer.Step) (c : Slicer.t) :
  slicer_inv c ->
  StronglySorted Z.le (rising_edges_of steps) ->
  (forall l, cursor c = Some l -> Forall (Z.le l) (rising_edges_of steps)) ->
  exists c' out,
    Slicer.start_loop steps c = Done (c', out)
    /\ Forall well_formed (put_slices out)
    /\ StronglySorted precedes (put_slices out).
Proof.
  intros Hinv Hsorted Hcur.
  destruct (start_loop_spec steps c Hinv)
    as (c' & out & Hrun & _ & _ & Hput & _ & _).
  exists c', out. split; [done|].
  destruct (windows_sorted _ _ Hsorted Hcur) as [Hall Hord].
  split.
  - apply Forall_forall. intros slice Hslice.
    assert (window_of slice ∈ windows (cursor c) (rising_edges_of steps)) as Hw.
    { eapply elem_of_sublist; [|exact Hput]. by apply list_elem_of_fmap_2. }
    rewrite Forall_forall in Hall. exact (Hall _ Hw).
  - apply (StronglySorted_fmap_inv window_of window_before).
    by eapply StronglySorted_sublist.
Qed.

Lemma X16_witness :
  exists c' out,
    Slicer.start_loop
      [batch_of [5; 15] [rising_at 10]; batch_of [20; 30] [];
       batch_of [40; 50] [falling_at 35; rising_at 45];
       batch_of [60] [rising_at 55]] fresh_slicer = Done (c', out)
    /\ Forall well_formed (put_slices out)
    /\ StronglySorted precedes (put_slices out).
Proof.
  apply (X16_slices_do_not_overlap
           [batch_of [5; 15] [rising_at 10]; batch_of [20; 30] [];
            batch_of [40; 50] [falling_at 35; rising_at 45];
            batch_of [60] [rising_at 55]] fresh_slicer fresh_slicer_inv).
  - repeat constructor; simpl; lia.
  - by intros l [=].
Defined.

(** X17. Every event of a slice put on the queue, and every event still
    held, was held at the start or belongs to a batch that had no trigger
    event or had a rising edge among its trigger events. The events of a
    batch whose trigger events are all falling edges go nowhere. *)
Theorem X17_slices_hold_only_considered_events (steps : list Slicer.Step) (c : Slicer.t) :
  slicer_inv c ->
  exists c' out,
    Slicer.start_loop steps c = Done (c', out)
    /\ forall e,
         e ∈ mjoin (Slicer.event_buffer c') ++ (put_slices out ≫= Slicer.event_volume) ->
         e ∈ mjoin (Slicer.event_buffer c)
             ++ (steps ≫= fun st => considered (Slicer.batch st)).
Proof.
  intros Hinv.
  destruct (start_loop_spec steps c Hinv)
    as (c' & out & Hrun & _ & _ & _ & _ & Hsrc).
  by exists c', out.
Qed.

Lemma X17_witness :
  exists c' out,
    Slicer.start_loop
      [batch_of [5; 15] [rising_at 10]; batch_of [20; 30] [falling_at 25];
       batch_of [40; 50] [rising_at 45]] fresh_slicer = Done (c', out)
    /\ forall e,
         e ∈ mjoin (Slicer.event_buffer c') ++ (put_slices out ≫= Slicer.event_volume) ->
         e ∈ cd_at <$> [5; 15; 40; 50].
Proof.
  exact (X17_slices_hold_only_considered_events
           [batch_of [5; 15] [rising_at 10]; batch_of [20; 30] [falling_at 25];
            batch_of [40; 50] [rising_at 45]] fresh_slicer fresh_slicer_inv).
Defined.

(** The run of X17's sample: the events at 20 and 30 are in no slice. *)
Example falling_edge_batch_is_lost :
  Slicer.start_loop
    [batch_of [5; 15] [rising_at 10]; batch_of [20; 30] [falling_at 25];
     batch_of [40; 50] [rising_at 45]] fresh_slicer
  = Done (Slicer.mk [cd_at <$> [50]] (Some 45) true
            (Queue.mk 5 [ {| Slicer.event_volume := cd_at <$> [15; 40];
                             Slicer.start_ts := Some 10;
                             Slicer.end_ts := 45 |} ]),
          [Slicer.PrintFirstTrigger 10;
           Slicer.Put {| Slicer.event_volume := cd_at <$> [15; 40];
                         Slicer.start_ts := Some 10;
                         Slicer.end_ts := 45 |}]).
Proof. reflexivity. Qed.

Lemma upto_later_partition ts evs :
  Slicer.upto ts evs ++ Slicer.later ts evs ≡ₚ evs.
Proof.
  unfold Slicer.upto, Slicer.later.
  rewrite (list_filter_iff (fun e => ts < Slicer.cd_t e)
             (fun e => ~ Slicer.cd_t e <= ts)) by (intros e; lia).
  apply filter_app_complement.
Qed.

Lemma join_singleton_if {A} (a : list A) :
  mjoin (if Slicer.nonempty a then [a] else []) = a.
Proof. destruct a; simpl; by rewrite ?app_nil_r. Qed.

Lemma join_snoc_if {A} (l : list (list A)) (a : list A) :
  mjoin (if Slicer.nonempty a then l ++ [a] else l) = mjoin l ++ a.
Proof.
  destruct a; simpl; [by rewrite app_nil_r|].
  rewrite join_app. simpl. by rewrite app_nil_r.
Qed.

(** A later rising edge met with room in the queue: the slice put holds the
    buffer and the events of the batch up to the edge, and the buffer is left
    with the events of the batch after the edge. *)
Lemma later_trigger_room evs ts c :
  Queue.full (Slicer.slice_queue c) = false ->
  exists out,
    Slicer.later_trigger evs ts c
    = Done (Slicer.mk (if Slicer.nonempty (Slicer.later ts evs)
                       then [Slicer.later ts evs] else [])
              (Some ts) (Slicer.active c)
              (Queue.mk (Queue.maxsize (Slicer.slice_queue c))
                 (Queue.items (Slicer.slice_queue c) ++ put_slices out)), out)
    /\ put_slices out ≫= Slicer.event_volume
       = mjoin (Slicer.event_buffer c) ++ Slicer.upto ts evs
    /\ (length (put_slices out) <= 1)%nat
    /\ (Slicer.nonempty (Slicer.upto ts evs) = true ->
        out = [Slicer.Put {| Slicer.event_volume :=
                               mjoin (Slicer.event_buffer c) ++ Slicer.upto ts evs;
                             Slicer.start_ts := Slicer.last_trigger_ts c;
                             Slicer.end_ts := ts |}]).
Proof.
  intros Hfull. unfold Slicer.later_trigger.
  pose proof (join_snoc_if (Slicer.event_buffer c) (Slicer.upto ts evs)) as Hjoin.
  set (buffer := if Slicer.nonempty (Slicer.upto ts evs)
                 then Slicer.event_buffer c ++ [Slicer.upto ts evs]
                 else Slicer.event_buffer c) in *.
  destruct (Slicer.nonempty buffer) eqn:Hne.
  - rewrite Hfull. unfold Queue.put. rewrite Hfull. simpl.
    exists [Slicer.Put {| Slicer.event_volume := mjoin buffer;
                          Slicer.start_ts := Slicer.last_trigger_ts c;
                          Slicer.end_ts := ts |}].
    split; [done|]. simpl. rewrite app_nil_r, Hjoin.
    split; [done|]. split; [lia|]. done.
  - apply nonempty_false in Hne. rewrite Hne in Hjoin. simpl in Hjoin.
    exists []. simpl. rewrite app_nil_r. destruct (Slicer.slice_queue c).
    split; [done|]. split; [done|]. split; [lia|].
    intros Hpre. subst buffer. rewrite Hpre in Hne. by destruct (Slicer.event_buffer c).
Qed.

(** X18. Two rising edges in one batch: an event of the batch that is not
    later than the first edge is put on the queue twice, in the slice that
    ends at the first edge and again in the slice that starts there, and the
    second slice holds the events of the batch between the two edges twice. *)
Theorem X18_second_edge_of_a_batch_repeats_events
    (b : Slicer.Batch) (c : Slicer.t) (T1 T2 : Z) (e : Slicer.CDEvent) :
  Slicer.active c = true ->
  Slicer.rising_edges (Slicer.triggers b) = [T1; T2] ->
  T1 <= T2 ->
  e ∈ Slicer.evs b ->
  Slicer.cd_t e <= T1 ->
  (length (Queue.items (Slicer.slice_queue c)) + 2
   <= Queue.maxsize (Slicer.slice_queue c))%nat ->
  exists c' s1 s2,
    Slicer.process_batch b c = Done (c', [Slicer.Put s1; Slicer.Put s2])
    /\ window_of s1 = (Slicer.last_trigger_ts c, T1)
    /\ window_of s2 = (Some T1, T2)
    /\ e ∈ Slicer.event_volume s1
    /\ e ∈ Slicer.event_volume s2
    /\ Slicer.event_volume s2
       = Slicer.later T1 (Slicer.evs b) ++ Slicer.upto T2 (Slicer.evs b).
Proof.
  intros Ha Hedges HT He HeT Hroom. unfold Slicer.process_batch.
  destruct (Slicer.triggers b) as [|tr trs] eqn:Htrig; [done|].
  cbn [Slicer.nonempty]. rewrite Hedges. cbn [Slicer.on_rising_edges].
  unfold Slicer.on_rising_edge. rewrite Ha. cbn [negb].
  assert (Slicer.nonempty (Slicer.upto T1 (Slicer.evs b)) = true) as Hpre1.
  { apply nonempty_spec. intros Hnil.
    assert (e ∈ Slicer.upto T1 (Slicer.evs b)) as Hin
      by (by apply list_elem_of_filter).
    rewrite Hnil in Hin. by apply elem_of_nil in Hin. }
  assert (Slicer.nonempty (Slicer.upto T2 (Slicer.evs b)) = true) as Hpre2.
  { apply nonempty_spec. intros Hnil.
    assert (e ∈ Slicer.upto T2 (Slicer.evs b)) as Hin
      by (apply list_elem_of_filter; split; [lia|done]).
    rewrite Hnil in Hin. by apply elem_of_nil in Hin. }
  assert (Queue.full (Slicer.slice_queue c) = false) as Hfull1.
  { apply bool_decide_eq_false. lia. }
  destruct (later_trigger_room (Slicer.evs b) T1 c Hfull1) as (out1 & Hrun1 & _ & _ & Hout1).
  rewrite Hrun1. rewrite (Hout1 Hpre1). cbn [negb Slicer.active].
  set (c1 := Slicer.mk _ _ _ _).
  assert (Queue.full (Slicer.slice_queue c1) = false) as Hfull2.
  { apply bool_decide_eq_false. subst c1. simpl. rewrite length_app. simpl. lia. }
  destruct (later_trigger_room (Slicer.evs b) T2 c1 Hfull2) as (out2 & Hrun2 & _ & _ & Hout2).
  rewrite Ha. cbn [negb]. rewrite Hrun2. rewrite (Hout2 Hpre2).
  eexists _, _, _. split; [reflexivity|].
  split; [done|]. split; [done|].
  split; [apply elem_of_app; right; by apply list_elem_of_filter|].
  subst c1. cbn [Slicer.event_buffer Slicer.event_volume].
  rewrite join_singleton_if.
  split; [|done].
  apply elem_of_app; right. apply list_elem_of_filter. split; [lia|done].
Qed.

Lemma X18_witness :
  exists c' s1 s2,
    Slicer.process_batch
      {| Slicer.evs := cd_at <$> [90; 110; 130];
         Slicer.triggers := [rising_at 100; falling_at 105; rising_at 120] |}
      (slicing_since 50 [60]) = Done (c', [Slicer.Put s1; Slicer.Put s2])
    /\ window_of s1 = (Some 50, 100)
    /\ window_of s2 = (Some 100, 120)
    /\ cd_at 90 ∈ Slicer.event_volume s1
    /\ cd_at 90 ∈ Slicer.event_volume s2
    /\ Slicer.event_volume s2
       = Slicer.later 100 (cd_at <$> [90; 110; 130])
         ++ Slicer.upto 120 (cd_at <$> [90; 110; 130]).
Proof.
  assert (cd_at 90 ∈ cd_at <$> [90; 110; 130]) as Hin
    by (apply elem_of_cons; by left).
  exact (X18_second_edge_of_a_batch_repeats_events
           {| Slicer.evs := cd_at <$> [90; 110; 130];
              Slicer.triggers := [rising_at 100; falling_at 105; rising_at 120] |}
           (slicing_since 50 [60]) 100 120 (cd_at 90)
           eq_refl eq_refl ltac:(lia) Hin ltac:(simpl; lia) ltac:(simpl; lia)).
Defined.

(** The run of X18's sample: the event at 90 is in both slices, and the event
    at 110 is twice in the second one. *)
Example two_edges_in_one_batch :
  Slicer.process_batch
    {| Slicer.evs := cd_at <$> [90; 110; 130];
       Slicer.triggers := [rising_at 100; falling_at 105; rising_at 120] |}
    (slicing_since 50 [60])
  = Done (Slicer.mk [cd_at <$> [130]] (Some 120) true
            (Queue.mk 5 [ {| Slicer.event_volume := cd_at <$> [60; 90];
                             Slicer.start_ts := Some 50;
                             Slicer.end_ts := 100 |};
                          {| Slicer.event_volume := cd_at <$> [110; 130; 90; 110];
                             Slicer.start_ts := Some 100;
                             Slicer.end_ts := 120 |} ]),
          [Slicer.Put {| Slicer.event_volume := cd_at <$> [60; 90];
                         Slicer.start_ts := Some 50;
                         Slicer.end_ts := 100 |};
           Slicer.Put {| Slicer.event_volume := cd_at <$> [110; 130; 90; 110];
                         Slicer.start_ts := Some 100;
                         Slicer.end_ts := 120 |}]).
Proof. reflexivity. Qed.

(** A rising edge met by an active slicer with room in the queue. *)
Lemma on_rising_edge_conserves evs ts c :
  Slicer.active c = true ->
  (length (Queue.items (Slicer.slice_queue c))
   < Queue.maxsize (Slicer.slice_queue c))%nat ->
  exists c' out,
    Slicer.on_rising_edge evs ts c = Done (c', out)
    /\ Slicer.active c' = true
    /\ put_slices out ≫= Slicer.event_volume
       = mjoin (Slicer.event_buffer c) ++ Slicer.upto ts evs
    /\ mjoin (Slicer.event_buffer c') = Slicer.later ts evs
    /\ Queue.maxsize (Slicer.slice_queue c') = Queue.maxsize (Slicer.slice_queue c)
    /\ (length (Queue.items (Slicer.slice_queue c'))
        <= S (length (Queue.items (Slicer.slice_queue c))))%nat.
Proof.
  intros Ha Hroom. unfold Slicer.on_rising_edge. rewrite Ha. cbn [negb].
  assert (Queue.full (Slicer.slice_queue c) = false) as Hfull.
  { apply bool_decide_eq_false. lia. }
  destruct (later_trigger_room evs ts c Hfull) as (out & Hrun & Hvol & Hlen & _).
  eexists _, out. split; [exact Hrun|]. cbn [Slicer.active Slicer.event_buffer
    Slicer.slice_queue Queue.maxsize Queue.items].
  split; [done|]. split; [done|]. split; [apply join_singleton_if|].
  split; [done|]. rewrite length_app. lia.
Qed.

(** One batch with at most one rising edge. *)
Lemma process_batch_conserves b c :
  Slicer.active c = true ->
  (length (Slicer.rising_edges (Slicer.triggers b)) <= 1)%nat ->
  (length (Queue.items (Slicer.slice_queue c))
   + length (Slicer.rising_edges (Slicer.triggers b))
   <= Queue.maxsize (Slicer.slice_queue c))%nat ->
  exists c' out,
    Slicer.process_batch b c = Done (c', out)
    /\ Slicer.active c' = true
    /\ (put_slices out ≫= Slicer.event_volume) ++ mjoin (Slicer.event_buffer c')
       ≡ₚ mjoin (Slicer.event_buffer c) ++ considered b
    /\ Queue.maxsize (Slicer.slice_queue c') = Queue.maxsize (Slicer.slice_queue c)
    /\ (length (Queue.items (Slicer.slice_queue c'))
        <= length (Queue.items (Slicer.slice_queue c))
           + length (Slicer.rising_edges (Slicer.triggers b)))%nat.
Proof.
  intros Ha Hone Hroom. unfold Slicer.process_batch, considered.
  destruct (Slicer.nonempty (Slicer.triggers b)) eqn:Htrig.
  - destruct (Slicer.rising_edges (Slicer.triggers b)) as [|r [|r' rs]] eqn:Hrs.
    + exists c, []. simpl. rewrite app_nil_r. do 4 (split; [done|]). lia.
    + simpl in Hroom.
      destruct (on_rising_edge_conserves (Slicer.evs b) r c Ha ltac:(lia))
        as (c' & out & Hrun & Ha' & Hvol & Hbuf & Hmax & Hlen).
      exists c', (out ++ []). cbn [Slicer.on_rising_edges]. rewrite Hrun.
      split; [done|]. split; [done|].
      rewrite app_nil_r, Hvol, Hbuf. cbn [Slicer.nonempty].
      split; [by rewrite <- app_assoc, upto_later_partition|].
      split; [done|]. simpl. lia.
    + simpl in Hone. lia.
  - apply nonempty_false in Htrig. rewrite Htrig. simpl. rewrite Ha. simpl.
    destruct (Slicer.evs b) as [|e evs] eqn:Hevs; simpl.
    + exists c, []. simpl. rewrite app_nil_r. do 4 (split; [done|]). lia.
    + eexists _, []. split; [done|]. simpl.
      split; [done|]. split; [by rewrite join_app; simpl; rewrite app_nil_r|].
      split; [done|]. lia.
Qed.

(** X19. No event is lost or repeated by an active slicer when no batch
    carries more than one rising edge and the queue has room for one slice
    per edge: the events of the slices put on the queue, followed by the
    events still held, are the events held at the start and those of the
    batches considered, up to the order inside the batch that carries an
    edge. *)
Theorem X19_events_conserved (steps : list Slicer.Step) (c : Slicer.t) :
  Slicer.active c = true ->
  Forall (fun st => (length (Slicer.rising_edges (Slicer.triggers (Slicer.batch st)))
                     <= 1)%nat) steps ->
  (length (Queue.items (Slicer.slice_queue c)) + length (rising_edges_of steps)
   <= Queue.maxsize (Slicer.slice_queue c))%nat ->
  exists c' out,
    Slicer.start_loop steps c = Done (c', out)
    /\ (put_slices out ≫= Slicer.event_volume) ++ mjoin (Slicer.event_buffer c')
       ≡ₚ mjoin (Slicer.event_buffer c)
          ++ (steps ≫= fun st => considered (Slicer.batch st)).
Proof.
  revert c. induction steps as [|st steps IH]; intros c Ha Hone Hroom.
  { exists c, []. split; [done|]. simpl. by rewrite app_nil_r. }
  apply Forall_cons in Hone as [Hone1 Hone].
  unfold rising_edges_of in Hroom. rewrite bind_cons, length_app in Hroom.
  destruct (process_batch_conserves (Slicer.batch st)
              (Slicer.consumed (Slicer.taken st) c) Ha Hone1)
    as (c1 & out1 & Hrun1 & Ha1 & Hvol1 & Hmax1 & Hlen1).
  { simpl. rewrite length_drop. lia. }
  destruct (IH c1 Ha1 Hone) as (c2 & out2 & Hrun2 & Hvol2).
  { rewrite Hmax1. simpl in *. rewrite length_drop in Hlen1.
    unfold rising_edges_of. lia. }
  exists c2, (out1 ++ out2). cbn [Slicer.start_loop]. rewrite Hrun1, Hrun2.
  split; [done|].
  rewrite put_slices_app, bind_app, bind_cons.
  cbn [Slicer.consumed Slicer.event_buffer] in Hvol1.
  rewrite <- (app_assoc _ _ (mjoin (Slicer.event_buffer c2))), Hvol2.
  rewrite !app_assoc. by rewrite Hvol1.
Qed.

Lemma X19_witness :
  exists c' out,
    Slicer.start_loop
      [batch_of [70; 80] []; batch_of [90; 110] [rising_at 100];
       batch_of [120] []; batch_of [130; 140] [falling_at 125; rising_at 135]]
      (slicing_since 50 [60]) = Done (c', out)
    /\ (put_slices out ≫= Slicer.event_volume) ++ mjoin (Slicer.event_buffer c')
       ≡ₚ cd_at <$> [60; 70; 80; 90; 110; 120; 130; 140].
Proof.
  apply (X19_events_conserved
           [batch_of [70; 80] []; batch_of [90; 110] [rising_at 100];
            batch_of [120] []; batch_of [130; 140] [falling_at 125; rising_at 135]]
           (slicing_since 50 [60])).
  - reflexivity.
  - repeat constructor; simpl; lia.
  - simpl. lia.
Defined.

(** * Further properties of the producers *)

(** X20. Pushing finished slices with nothing consuming never waits: the
    slices that fit are appended to the queue in order, each of the others
    is dropped with one warning, and the slices already queued stay. *)
Theorem X20_push_slices_keeps_the_oldest (slices : list EventSlice)
    (w : PropheseeCamera.t) :
  let q := PropheseeCamera.slice_queue w in
  let room := (Queue.maxsize q - length (Queue.items q))%nat in
  PropheseeCamera.push_slices slices w
  = Done (PropheseeCamera.mk
            (Queue.mk (Queue.maxsize q) (Queue.items q ++ take room slices))
            (PropheseeCamera.stdout w
             ++ replicate (length slices - room) SliceQueueFull)).
Proof.
  revert w. induction slices as [|x slices IH]; intros [[m items] out]; simpl.
  { by rewrite take_nil, !app_nil_r. }
  unfold PropheseeCamera.push_slice, Queue.put, Queue.full. simpl.
  destruct (decide (m <= length items)%nat) as [Hfull|Hroom].
  - rewrite !bool_decide_eq_true_2 by done. simpl. rewrite IH. simpl.
    replace (m - length items)%nat with 0%nat by lia.
    rewrite !take_0, Nat.sub_0_r, <- app_assoc. done.
  - rewrite !bool_decide_eq_false_2 by done. simpl. rewrite IH. simpl.
    rewrite length_app. simpl.
    replace (m - length items)%nat with (S (m - (length items + 1)))%nat by lia.
    simpl. by rewrite <- app_assoc.
Qed.

(** A capture taken while the display queue has room and the sync queue has
    room. *)
Lemma push_frame_room c w :
  Queue.full (OrbbecWorker.o_queue w) = false ->
  Queue.full (OrbbecWorker.o_queue_sync w) = false ->
  OrbbecWorker.push_frame c w
  = Done (OrbbecWorker.mk
            (Queue.mk (Queue.maxsize (OrbbecWorker.o_queue w))
               (Queue.items (OrbbecWorker.o_queue w) ++ [OrbbecWorker.display_of c]))
            (Queue.mk (Queue.maxsize (OrbbecWorker.o_queue_sync w))
               (Queue.items (OrbbecWorker.o_queue_sync w) ++ [OrbbecWorker.frame_of c]))
            (OrbbecWorker.p_queue w) (OrbbecWorker.stdout w)).
Proof.
  intros Ho Hs.
  unfold OrbbecWorker.push_frame, OrbbecWorker.make_room, OrbbecWorker.warn_sync_full.
  rewrite Ho, Hs. unfold Queue.put. simpl. by rewrite Ho, Hs.
Qed.

(** A capture taken while the display queue has room and the sync queue is
    full. *)
Lemma push_frame_sync_blocked c w :
  Queue.full (OrbbecWorker.o_queue w) = false ->
  Queue.full (OrbbecWorker.o_queue_sync w) = true ->
  OrbbecWorker.push_frame c w
  = Blocked (OrbbecWorker.mk
               (Queue.mk (Queue.maxsize (OrbbecWorker.o_queue w))
                  (Queue.items (OrbbecWorker.o_queue w) ++ [OrbbecWorker.display_of c]))
               (OrbbecWorker.o_queue_sync w)
               (OrbbecWorker.p_queue w)
               (OrbbecWorker.stdout w ++ [OrbbecSyncQueueFull])).
Proof.
  intros Ho Hs.
  unfold OrbbecWorker.push_frame, OrbbecWorker.make_room, OrbbecWorker.warn_sync_full.
  rewrite Ho, Hs. unfold Queue.put. simpl. by rewrite Ho, Hs.
Qed.

(** X21. The worker loop with the display keeping up and nothing taking
    frames from the sync queue: the frames captured go to the sync queue in
    order until it is full; at the next capture the worker prints that it
    drops the frame and then waits inside [o_queue_sync.put], the frame
    being already on the display queue. No frame is dropped, and nothing is
    taken from [p_queue]. *)
Theorem X21_worker_waits_once_the_sync_queue_is_full
    (captures : list (option OrbbecWorker.Capture)) (w : OrbbecWorker.t) :
  (1 <= Queue.maxsize (OrbbecWorker.o_queue w))%nat ->
  let cs := omap id captures in
  let q := OrbbecWorker.o_queue_sync w in
  let room := (Queue.maxsize q - length (Queue.items q))%nat in
  match cs !! room with
  | None =>
      exists w',
        Main.orbbec_worker true captures w = Done w'
        /\ OrbbecWorker.o_queue_sync w'
           = Queue.mk (Queue.maxsize q) (Queue.items q ++ (OrbbecWorker.frame_of <$> cs))
        /\ OrbbecWorker.stdout w' = OrbbecWorker.stdout w
        /\ OrbbecWorker.p_queue w' = OrbbecWorker.p_queue w
  | Some c =>
      exists w',
        Main.orbbec_worker true captures w = Blocked w'
        /\ OrbbecWorker.o_queue_sync w'
           = Queue.mk (Queue.maxsize q)
               (Queue.items q ++ (OrbbecWorker.frame_of <$> take room cs))
        /\ Queue.items (OrbbecWorker.o_queue w') = [OrbbecWorker.display_of c]
        /\ OrbbecWorker.stdout w' = OrbbecWorker.stdout w ++ [OrbbecSyncQueueFull]
        /\ OrbbecWorker.p_queue w' = OrbbecWorker.p_queue w
  end.
Proof.
  intros Hdisplay. revert w Hdisplay.
  induction captures as [|[c|] captures IH]; intros [[mo io] [ms is_] p out] Hdisplay;
    cbv zeta; try (cbv zeta in IH);
    cbn [OrbbecWorker.o_queue OrbbecWorker.o_queue_sync Queue.maxsize Queue.items
         OrbbecWorker.stdout OrbbecWorker.p_queue] in *.
  - simpl. rewrite app_nil_r. by eexists.
  - change (omap id (Some c :: captures)) with (c :: omap id captures).
    cbn [Main.orbbec_worker]. unfold Main.poll_display.
    cbn [OrbbecWorker.o_queue OrbbecWorker.o_queue_sync Queue.maxsize Queue.items
         OrbbecWorker.stdout OrbbecWorker.p_queue].
    set (w0 := OrbbecWorker.mk (Queue.mk mo []) (Queue.mk ms is_) p out).
    assert (Queue.full (OrbbecWorker.o_queue w0) = false) as Ho.
    { apply bool_decide_eq_false. simpl. lia. }
    destruct (decide (ms <= length is_)%nat) as [Hfull|Hroom].
    + assert (Queue.full (OrbbecWorker.o_queue_sync w0) = true) as Hs.
      { by apply bool_decide_eq_true. }
      rewrite (push_frame_sync_blocked c w0 Ho Hs).
      replace (ms - length is_)%nat with 0%nat by lia. simpl.
      eexists. split; [done|]. simpl. by rewrite app_nil_r.
    + assert (Queue.full (OrbbecWorker.o_queue_sync w0) = false) as Hs.
      { by apply bool_decide_eq_false. }
      rewrite (push_frame_room c w0 Ho Hs). subst w0.
      cbn [OrbbecWorker.o_queue OrbbecWorker.o_queue_sync Queue.maxsize Queue.items
           OrbbecWorker.stdout OrbbecWorker.p_queue].
      specialize (IH (OrbbecWorker.mk
                        (Queue.mk mo ([] ++ [OrbbecWorker.display_of c]))
                        (Queue.mk ms (is_ ++ [OrbbecWorker.frame_of c])) p out)
                     Hdisplay).
      cbn [OrbbecWorker.o_queue OrbbecWorker.o_queue_sync Queue.maxsize Queue.items
           OrbbecWorker.stdout OrbbecWorker.p_queue] in IH.
      rewrite length_app in IH. simpl in IH.
      replace (ms - length is_)%nat with (S (ms - (length is_ + 1)))%nat by lia.
      change ((c :: omap id captures) !! S (ms - (length is_ + 1))%nat)
        with (omap id captures !! (ms - (length is_ + 1))%nat).
      rewrite firstn_cons, fmap_cons.
      destruct (omap id captures !! (ms - (length is_ + 1))%nat) as [c'|] eqn:Hc.
      * destruct IH as (w' & Hrun & Hq & Hrest). exists w'. split; [done|].
        split; [|done]. rewrite Hq, <- app_assoc. done.
      * destruct IH as (w' & Hrun & Hq & Hrest). exists w'. split; [done|].
        split; [|done]. rewrite Hq, <- app_assoc. done.
  - change (omap id (None :: captures)) with (omap id captures).
    cbn [Main.orbbec_worker]. unfold Main.poll_display.
    cbn [OrbbecWorker.o_queue OrbbecWorker.o_queue_sync Queue.maxsize Queue.items
         OrbbecWorker.stdout OrbbecWorker.p_queue].
    apply (IH (OrbbecWorker.mk (Queue.mk mo []) (Queue.mk ms is_) p out) Hdisplay).
Qed.

Lemma X21_witness :
  exists w',
    Main.orbbec_worker true
      (Some (capture_at 0) :: None
       :: (Some <$> (capture_at <$> [33000; 66000; 99000; 132000; 165000; 198000])))
      (worker_with_sync_queue []) = Blocked w'
    /\ OrbbecWorker.o_queue_sync w'
       = Queue.mk 5 (OrbbecWorker.frame_of
                       <$> (capture_at <$> [0; 33000; 66000; 99000; 132000]))
    /\ Queue.items (OrbbecWorker.o_queue w')
       = [OrbbecWorker.display_of (capture_at 165000)]
    /\ OrbbecWorker.stdout w' = [OrbbecSyncQueueFull]
    /\ OrbbecWorker.p_queue w' = None.
Proof.
  exact (X21_worker_waits_once_the_sync_queue_is_full
           (Some (capture_at 0) :: None
            :: (Some <$> (capture_at <$> [33000; 66000; 99000; 132000; 165000; 198000])))
           (worker_with_sync_queue []) (le_n 1)).
Defined.

(** X22. The worker loop with nothing taking frames from either queue, the
    sync queue having at least as much room as the display queue: the frames
    captured go to both queues in order until the display queue is full; at
    the next capture the worker waits inside [o_queue.put], and that frame
    reaches neither queue. With the sizes of [main.py] this is the second
    frame. *)
Theorem X22_worker_waits_once_the_display_queue_is_full
    (captures : list (option OrbbecWorker.Capture)) (w : OrbbecWorker.t) :
  (Queue.maxsize (OrbbecWorker.o_queue w) - length (Queue.items (OrbbecWorker.o_queue w))
   <= Queue.maxsize (OrbbecWorker.o_queue_sync w)
      - length (Queue.items (OrbbecWorker.o_queue_sync w)))%nat ->
  let cs := omap id captures in
  let qo := OrbbecWorker.o_queue w in
  let qs := OrbbecWorker.o_queue_sync w in
  let room := (Queue.maxsize qo - length (Queue.items qo))%nat in
  match cs !! room with
  | None =>
      exists w',
        Main.orbbec_worker false captures w = Done w'
        /\ Queue.items (OrbbecWorker.o_queue w')
           = Queue.items qo ++ (OrbbecWorker.display_of <$> cs)
        /\ Queue.items (OrbbecWorker.o_queue_sync w')
           = Queue.items qs ++ (OrbbecWorker.frame_of <$> cs)
  | Some _ =>
      exists w',
        Main.orbbec_worker false captures w = Blocked w'
        /\ Queue.items (OrbbecWorker.o_queue w')
           = Queue.items qo ++ (OrbbecWorker.display_of <$> take room cs)
        /\ Queue.items (OrbbecWorker.o_queue_sync w')
           = Queue.items qs ++ (OrbbecWorker.frame_of <$> take room cs)
  end.
Proof.
  revert w.
  induction captures as [|[c|] captures IH]; intros [[mo io] [ms is_] p out] Hroom;
    cbv zeta; try (cbv zeta in IH);
    cbn [OrbbecWorker.o_queue OrbbecWorker.o_queue_sync Queue.maxsize Queue.items
         OrbbecWorker.stdout OrbbecWorker.p_queue] in *.
  - simpl. rewrite !app_nil_r. by eexists.
  - change (omap id (Some c :: captures)) with (c :: omap id captures).
    cbn [Main.orbbec_worker].
    set (w0 := OrbbecWorker.mk (Queue.mk mo io) (Queue.mk ms is_) p out).
    destruct (decide (mo <= length io)%nat) as [Hfull|Hfree].
    + assert (Queue.full (OrbbecWorker.o_queue w0) = true) as Ho.
      { by apply bool_decide_eq_true. }
      destruct (push_frame_display_full c w0 Ho) as (w' & Hrun & Hqo & Hqs).
      rewrite Hrun. replace (mo - length io)%nat with 0%nat by lia.
      exists w'. split; [done|]. simpl. rewrite !app_nil_r, Hqo, Hqs. done.
    + assert (Queue.full (OrbbecWorker.o_queue w0) = false) as Ho.
      { by apply bool_decide_eq_false. }
      assert (Queue.full (OrbbecWorker.o_queue_sync w0) = false) as Hs.
      { apply bool_decide_eq_false. simpl. lia. }
      rewrite (push_frame_room c w0 Ho Hs). subst w0.
      cbn [OrbbecWorker.o_queue OrbbecWorker.o_queue_sync Queue.maxsize Queue.items
           OrbbecWorker.stdout OrbbecWorker.p_queue].
      specialize (IH (OrbbecWorker.mk
                        (Queue.mk mo (io ++ [OrbbecWorker.display_of c]))
                        (Queue.mk ms (is_ ++ [OrbbecWorker.frame_of c])) p out)).
      cbn [OrbbecWorker.o_queue OrbbecWorker.o_queue_sync Queue.maxsize Queue.items
           OrbbecWorker.stdout OrbbecWorker.p_queue] in IH.
      rewrite !length_app in IH. simpl in IH. specialize (IH ltac:(lia)).
      replace (mo - length io)%nat with (S (mo - (length io + 1)))%nat by lia.
      change ((c :: omap id captures) !! S (mo - (length io + 1))%nat)
        with (omap id captures !! (mo - (length io + 1))%nat).
      rewrite firstn_cons, !fmap_cons.
      destruct (omap id captures !! (mo - (length io + 1))%nat) as [c'|] eqn:Hc.
      * destruct IH as (w' & Hrun & Hqo & Hqs). exists w'. split; [done|].
        rewrite Hqo, Hqs, <- !app_assoc. done.
      * destruct IH as (w' & Hrun & Hqo & Hqs). exists w'. split; [done|].
        rewrite Hqo, Hqs, <- !app_assoc. done.
  - change (omap id (None :: captures)) with (omap id captures).
    cbn [Main.orbbec_worker].
    apply (IH (OrbbecWorker.mk (Queue.mk mo io) (Queue.mk ms is_) p out) Hroom).
Qed.

Lemma X22_witness :
  exists w',
    Main.orbbec_worker false
      [Some (capture_at 0); None; Some (capture_at 33000); Some (capture_at 66000)]
      (worker_with_sync_queue []) = Blocked w'
    /\ Queue.items (OrbbecWorker.o_queue w')
       = [OrbbecWorker.display_of (capture_at 0)]
    /\ Queue.items (OrbbecWorker.o_queue_sync w')
       = [OrbbecWorker.frame_of (capture_at 0)].
Proof.
  exact (X22_worker_waits_once_the_display_queue_is_full
           [Some (capture_at 0); None; Some (capture_at 33000); Some (capture_at 66000)]
           (worker_with_sync_queue []) ltac:(simpl; lia)).
Defined.

(** The synchronizer as [main.py] starts it: the constructor is called
    without [record_enabled] and [output_directory], so the worker prints the
    error, sets [stop_event] and never enters [sync_process]. *)
Example sync_processor_worker_as_started ticks :
  Main.sync_processor_worker ticks
  = {| Main.printed_error := Some TypeError; Main.stop_event := true;
       Main.ran := None |}.
Proof. reflexivity. Qed.
